(** * WebMOpusWorker: the frame staging pipeline of opus-media-recorder

    A shallow embedding of [src/WebMOpusWorker.js].  The worker buffers
    variable-sized chunks of PCM samples into fixed-size frames and drives
    the Speex resampler, the Opus encoder and the WebM muxer, all three of
    which live in an Emscripten module and are opaque here.

    JavaScript numbers that hold lengths and cursors are integers in every
    run of the worker and are modelled as [Z]; typed arrays are lists whose
    out-of-range stores are dropped, exactly as stdpp's list insert does. *)

From Stdlib Require Import ZArith Lia String.
From stdpp Require Import base tactics option list numbers.

Local Open Scope Z_scope.

(** ** Configuration (top of the source file) *)

Definition OPUS_APPLICATION : Z := 2049.
Definition OPUS_OUTPUT_SAMPLE_RATE : Z := 48000.
Definition OPUS_OUTPUT_MAX_LENGTH : Z := 4000.
Definition OPUS_FRAME_SIZE : Z := 20.
Definition SPEEX_RESAMPLE_QUALITY : Z := 6.
Definition BUFFER_LENGTH : Z := 4096.

Definition OPUS_OK : Z := 0.
Definition OPUS_SET_BITRATE_REQUEST : Z := 4002.
Definition RESAMPLER_ERR_SUCCESS : Z := 0.

(** ** Completions of a JavaScript call *)

Inductive error : Type :=
  | Error (message : string)   (* [throw new Error(message)] *)
  | TypeError.                 (* property access on [undefined] *)

Inductive completion (A : Type) : Type :=
  | Normal (a : A)
  | Throw (e : error).
Arguments Normal {A} a.
Arguments Throw {A} e.

(** The error a completion carries, if any. *)
Definition thrown {A : Type} (c : completion A) : option error :=
  match c with
  | Normal _ => None
  | Throw e => Some e
  end.

(** ** Native resources and the log of what happens to them

    The log is ghost state: the source keeps no such record.  It lists, in
    program order, every native allocation and release, every store into
    the staging buffer and every call into the resampler, the encoder and
    the muxer. *)

Inductive resource : Type :=
  | ContainerWriter      (* [this._contrainer] *)
  | Encoder              (* [this.encoder] *)
  | Resampler            (* [this.resampler] *)
  | InputBuffer          (* [this.mInputBuffer] *)
  | ResampledBuffer      (* [this.mResampledBuffer] *)
  | OutputBuffer         (* [this.mOutputBuffer] *)
  | Temp.                (* a [WasmUint32] / [WasmInt32] cell *)

Global Instance resource_eq_dec : EqDecision resource.
Proof. solve_decision. Defined.

Inductive event (sample : Type) : Type :=
  | Acquire (r : resource)
  | Release (r : resource)
  | Store (chunk : list sample) (offset : Z)
  | Resample (frame : list sample) (err : Z)
  | Encode (pcm : list sample) (packetLength : Z)
  | WriteFrame (packet : list Z) (packetLength : Z) (duration : Z).
Arguments Acquire {sample} r.
Arguments Release {sample} r.
Arguments Store {sample} chunk offset.
Arguments Resample {sample} frame err.
Arguments Encode {sample} pcm packetLength.
Arguments WriteFrame {sample} packet packetLength duration.

(** ** Typed arrays *)

Module TypedArray.
Section TypedArray.
Context {A : Type}.

(** [a.length] *)
Definition length (a : list A) : Z := Z.of_nat (List.length a).

(** An index argument of [subarray]: negative values count from the
    end, and the result is clamped to the array. *)
Definition relative (len k : Z) : Z :=
  if k <? 0 then Z.max (len + k) 0 else Z.min k len.

(** [a.subarray(begin, end)] *)
Definition subarray (a : list A) (begin_ end_ : Z) : list A :=
  let len := length a in
  let b := relative len begin_ in
  let e := relative len end_ in
  take (Z.to_nat (e - b)) (drop (Z.to_nat b) a).
End TypedArray.
End TypedArray.

(** Modelled from the spec: the buffer classes that the source imports
    from [commonFunctions.js] ([WasmFloat32Buffer], [WasmUint8Buffer],
    [WasmUint32], [WasmInt32]), whose code is in another file.  The spec
    describes the staging buffer as an owned, fixed-capacity sequence of
    samples to which chunks are appended at a cursor, and the resampled
    and packet buffers as fixed-capacity sequences overwritten by each
    codec call.  A buffer is the list of its cells; [new] and [free] show
    in the log as [Acquire] and [Release].  [set array offset] overwrites
    the cells from [offset] on with [array]; cells that do not belong to
    the buffer are not part of its contents, so only the part of [array]
    that falls inside the buffer shows. *)
Module WasmFloat32Buffer.
Section WasmFloat32Buffer.
Context {A : Type}.

(** Modelled from the spec: [new WasmFloat32Buffer(size)], a buffer of
    [size] cells. *)
Definition new (zero : A) (size : Z) : list A :=
  replicate (Z.to_nat size) zero.

(** Modelled from the spec: [buffer.length], the fixed capacity. *)
Definition length (b : list A) : Z := Z.of_nat (List.length b).

(** Modelled from the spec: [buffer.set(array, offset)], the append of a
    chunk at the cursor. *)
Definition set (b : list A) (array : list A) (offset : Z) : list A :=
  if offset <? 0 then b
  else
    let o := Z.to_nat offset in
    take (List.length b) (take o b ++ array ++ drop (o + List.length array) b).
End WasmFloat32Buffer.
End WasmFloat32Buffer.

(** ** The Emscripten module

    The functions the worker imports from [Module].  Each one may read and
    change the module's own state [native]; buffers handed over by pointer
    are passed by contents, and a function that fills a buffer returns the
    buffer's new contents. *)

Record WasmModule (sample native : Type) : Type := {
  (* new Module.WebMContainer(sampleRate, channelCount, serial) *)
  WebMContainer_new : Z → Z → Z → native → Z * native;
  (* container.writeFrame(packet, packetLength, duration) *)
  WebMContainer_writeFrame : Z → list Z → Z → Z → native → native;
  (* Module.destroy(container) *)
  Module_destroy : Z → native → native;
  (* _opus_encoder_create(rate, channels, application, &err): handle, err *)
  _opus_encoder_create : Z → Z → Z → native → Z * Z * native;
  (* _opus_encoder_ctl(encoder, request, &value) *)
  _opus_encoder_ctl : Z → Z → Z → native → native;
  (* _opus_encode_float(encoder, pcm, frameSize, out, maxLength):
     packet length and the new contents of [out] *)
  _opus_encode_float :
    Z → list sample → Z → list Z → Z → native → Z * list Z * native;
  _opus_encoder_destroy : Z → native → native;
  (* _speex_resampler_init(channels, inRate, outRate, quality, &err) *)
  _speex_resampler_init : Z → Z → Z → Z → native → Z * Z * native;
  (* _speex_resampler_process_interleaved_float(st, in, &inLen, out, &outLen):
     status and the new contents of [out] *)
  _speex_resampler_process_interleaved_float :
    Z → list sample → Z → list sample → Z → native → Z * list sample * native;
  _speex_resampler_destroy : Z → native → native
}.
Arguments WebMContainer_new {sample native} _.
Arguments WebMContainer_writeFrame {sample native} _.
Arguments Module_destroy {sample native} _.
Arguments _opus_encoder_create {sample native} _.
Arguments _opus_encoder_ctl {sample native} _.
Arguments _opus_encode_float {sample native} _.
Arguments _opus_encoder_destroy {sample native} _.
Arguments _speex_resampler_init {sample native} _.
Arguments _speex_resampler_process_interleaved_float {sample native} _.
Arguments _speex_resampler_destroy {sample native} _.

(** ** The worker object *)

Record Worker (sample native : Type) : Type := {
  config_inputSampleRate : Z;
  config_channelCount : Z;
  _contrainer : Z;
  encoder : Z;
  resampler : Z;
  inputSamplesPerChannel : Z;
  outputSamplePerChannel : Z;
  inputBufferIndex : Z;
  mInputBuffer : list sample;
  mResampledBuffer : list sample;
  mOutputBuffer : list Z;
  interleavedBuffers : option (list sample);   (* [None] is [undefined] *)
  heap : native;                               (* state of [Module] *)
  trace : list (event sample)                  (* ghost log *)
}.
Arguments config_inputSampleRate {sample native} _.
Arguments config_channelCount {sample native} _.
Arguments _contrainer {sample native} _.
Arguments encoder {sample native} _.
Arguments resampler {sample native} _.
Arguments inputSamplesPerChannel {sample native} _.
Arguments outputSamplePerChannel {sample native} _.
Arguments inputBufferIndex {sample native} _.
Arguments mInputBuffer {sample native} _.
Arguments mResampledBuffer {sample native} _.
Arguments mOutputBuffer {sample native} _.
Arguments interleavedBuffers {sample native} _.
Arguments heap {sample native} _.
Arguments trace {sample native} _.

Section WebMOpusWorker.
Context {sample native : Type}.
Variable zero : sample.                    (* the float 0 *)
Variable M : WasmModule sample native.       (* the global [Module] *)

Local Abbreviation Worker := (Worker sample native).
Local Abbreviation event := (event sample).

(** Field updates of [this]. *)
Definition with_interleavedBuffers (w : Worker) (s : option (list sample)) : Worker :=
  {| config_inputSampleRate := config_inputSampleRate w;
     config_channelCount := config_channelCount w;
     _contrainer := _contrainer w; encoder := encoder w;
     resampler := resampler w;
     inputSamplesPerChannel := inputSamplesPerChannel w;
     outputSamplePerChannel := outputSamplePerChannel w;
     inputBufferIndex := inputBufferIndex w;
     mInputBuffer := mInputBuffer w;
     mResampledBuffer := mResampledBuffer w;
     mOutputBuffer := mOutputBuffer w;
     interleavedBuffers := s;
     heap := heap w; trace := trace w |}.

(** The fields that [encode] changes. *)
Definition with_pipeline (w : Worker) (index : Z)
    (input resampled : list sample) (output : list Z)
    (h : native) (t : list event) : Worker :=
  {| config_inputSampleRate := config_inputSampleRate w;
     config_channelCount := config_channelCount w;
     _contrainer := _contrainer w; encoder := encoder w;
     resampler := resampler w;
     inputSamplesPerChannel := inputSamplesPerChannel w;
     outputSamplePerChannel := outputSamplePerChannel w;
     inputBufferIndex := index;
     mInputBuffer := input;
     mResampledBuffer := resampled;
     mOutputBuffer := output;
     interleavedBuffers := interleavedBuffers w;
     heap := h; trace := t |}.

(** *** interleave *)

(** The inner loop: [for (i = 0; i < buffer.length; i++)
    this.interleavedBuffers[i * chCount + ch] = buffer[i]], started at
    index [i] with [buffer] the cells not yet visited. *)
Fixpoint interleave_channel (chCount ch i : nat) (buffer scratch : list sample)
    : list sample :=
  match buffer with
  | [] => scratch
  | x :: rest =>
      interleave_channel chCount ch (S i) rest (<[(i * chCount + ch)%nat := x]> scratch)
  end.

(** The outer loop: [for (ch = 0; ch < chCount; ch++)], started at [ch]
    with [channelBuffers] the channels not yet visited. *)
Fixpoint interleave_channels (chCount ch : nat) (channelBuffers : list (list sample))
    (scratch : list sample) : list sample :=
  match channelBuffers with
  | [] => scratch
  | buffer :: rest =>
      interleave_channels chCount (S ch) rest
        (interleave_channel chCount ch 0 buffer scratch)
  end.

(** [interleave(channelBuffers)].  The result is [None] when the method
    returns [undefined].  With [this.interleavedBuffers] undefined the
    first store raises a TypeError; there is a store as soon as one
    channel buffer is not empty. *)
Definition interleave (w : Worker) (channelBuffers : list (list sample))
    : completion (option (list sample)) * Worker :=
  let chCount := List.length channelBuffers in
  match channelBuffers with
  | [only] => (Normal (Some only), w)
  | _ =>
      match interleavedBuffers w with
      | Some scratch =>
          let scratch' := interleave_channels chCount 0 channelBuffers scratch in
          (Normal (Some scratch'), with_interleavedBuffers w (Some scratch'))
      | None =>
          if forallb (λ b, Nat.eqb (List.length b) 0) channelBuffers
          then (Normal None, w)
          else (Throw TypeError, w)
      end
  end.

(** *** encode *)

(** One turn of the [while] loop of [encode], entered with
    [sampleIndex < samples.length]; the result is the next [sampleIndex]. *)
Definition encode_step (samples : list sample) (sampleIndex : Z) (w : Worker)
    : completion Z * Worker :=
  (* Copy samples to input buffer *)
  let lengthToCopy :=
    Z.min (WasmFloat32Buffer.length (mInputBuffer w) - inputBufferIndex w)
          (TypedArray.length samples - sampleIndex) in
  let chunk := TypedArray.subarray samples sampleIndex (sampleIndex + lengthToCopy) in
  let input := WasmFloat32Buffer.set (mInputBuffer w) chunk (inputBufferIndex w) in
  let t1 := trace w ++ [Store chunk (inputBufferIndex w)] in
  let index := inputBufferIndex w + lengthToCopy in
  (* When mInputBuffer is fill, then encode. *)
  if WasmFloat32Buffer.length input <=? index then
    (* Resampling *)
    let '(err, resampled, h1) :=
      _speex_resampler_process_interleaved_float M (resampler w)
        input (inputSamplesPerChannel w)
        (mResampledBuffer w) (outputSamplePerChannel w) (heap w) in
    let t2 := t1 ++ [Acquire Temp; Acquire Temp; Resample input err;
                     Release Temp; Release Temp] in
    if negb (err =? RESAMPLER_ERR_SUCCESS) then
      (Throw (Error "Resampling error."),
       with_pipeline w index input resampled (mOutputBuffer w) h1 t2)
    else
      (* Encoding *)
      let '(packetLength, output, h2) :=
        _opus_encode_float M (encoder w) resampled (outputSamplePerChannel w)
          (mOutputBuffer w) (Z.of_nat (List.length (mOutputBuffer w))) h1 in
      let t3 := t2 ++ [Encode resampled packetLength] in
      if packetLength <? 0 then
        (Throw (Error "Opus encoding error."),
         with_pipeline w index input resampled output h2 t3)
      else
        (* Input packget to WebM page generator *)
        let h3 := WebMContainer_writeFrame M (_contrainer w) output packetLength
                    (outputSamplePerChannel w) h2 in
        let t4 := t3 ++ [WriteFrame output packetLength (outputSamplePerChannel w)] in
        (Normal (sampleIndex + lengthToCopy),
         with_pipeline w 0 input resampled output h3 t4)
  else
    (Normal (sampleIndex + lengthToCopy),
     with_pipeline w index input (mResampledBuffer w) (mOutputBuffer w) (heap w) t1).

(** [while (sampleIndex < samples.length) { ... }].  [None] means that
    [fuel] turns were not enough. *)
Fixpoint encode_loop (fuel : nat) (samples : list sample) (sampleIndex : Z)
    (w : Worker) : option (completion unit * Worker) :=
  if sampleIndex <? TypedArray.length samples then
    match fuel with
    | O => None
    | S fuel' =>
        match encode_step samples sampleIndex w with
        | (Normal sampleIndex', w') => encode_loop fuel' samples sampleIndex' w'
        | (Throw e, w') => Some (Throw e, w')
        end
    end
  else Some (Normal tt, w).

(** [encode(buffers, final)].  Reading [samples.length] of [undefined]
    raises a TypeError. *)
Definition encode (fuel : nat) (w : Worker) (buffers : list (list sample))
    (final : bool) : option (completion unit * Worker) :=
  match interleave w buffers with
  | (Throw e, w1) => Some (Throw e, w1)
  | (Normal None, w1) => Some (Throw TypeError, w1)
  | (Normal (Some samples), w1) =>
      match encode_loop fuel samples 0 w1 with
      | Some (Normal tt, w2) =>
          if final
          then (* Just to flag this is the end of the stream *) Some (Normal tt, w2)
          else Some (Normal tt, w2)
      | r => r
      end
  end.

(** *** close *)

Definition close (w : Worker) : Worker :=
  let h1 := Module_destroy M (_contrainer w) (heap w) in
  let h2 := _opus_encoder_destroy M (encoder w) h1 in
  let h3 := _speex_resampler_destroy M (resampler w) h2 in
  with_pipeline w (inputBufferIndex w) (mInputBuffer w) (mResampledBuffer w)
    (mOutputBuffer w) h3
    (trace w ++ [Release ContainerWriter; Release InputBuffer;
                 Release ResampledBuffer; Release OutputBuffer;
                 Release Encoder; Release Resampler]).

(** *** The constructor and its helpers *)

Definition OpusSetOpusControl (enc request vaArg : Z) (h : native) (t : list event)
    : native * list event :=
  (_opus_encoder_ctl M enc request vaArg h, t ++ [Acquire Temp; Release Temp]).

(** [OpusInitCodec(outRate, chCount, bitRate)]; the result is the value
    stored in [this.encoder].  [opus_encoder_create] hands out an encoder
    exactly when it reports [OPUS_OK], and [if (bitRate)] holds for a
    number other than 0. *)
Definition OpusInitCodec (outRate chCount : Z) (bitRate : option Z)
    (h : native) (t : list event) : completion Z * native * list event :=
  let '(enc, err, h1) := _opus_encoder_create M outRate chCount OPUS_APPLICATION h in
  let t1 := t ++ [Acquire Temp]
              ++ (if err =? OPUS_OK then [Acquire Encoder] else [])
              ++ [Release Temp] in
  if negb (err =? OPUS_OK) then
    (Throw (Error "Opus encodor initialization failed."), h1, t1)
  else
    match bitRate with
    | Some b =>
        if b =? 0 then (Normal enc, h1, t1)
        else
          let '(h2, t2) := OpusSetOpusControl enc OPUS_SET_BITRATE_REQUEST b h1 t1 in
          (Normal enc, h2, t2)
    | None => (Normal enc, h1, t1)
    end.

(** [SpeexInitResampler(inputRate, outputRate, chCount)]; the result is the
    value stored in [this.resampler]. *)
Definition SpeexInitResampler (inputRate outputRate chCount : Z)
    (h : native) (t : list event) : completion Z * native * list event :=
  let '(res, err, h1) :=
    _speex_resampler_init M chCount inputRate outputRate SPEEX_RESAMPLE_QUALITY h in
  let t1 := t ++ [Acquire Temp]
              ++ (if err =? RESAMPLER_ERR_SUCCESS then [Acquire Resampler] else [])
              ++ [Release Temp] in
  if negb (err =? RESAMPLER_ERR_SUCCESS) then
    (Throw (Error "Initializing resampler failed."), h1, t1)
  else (Normal res, h1, t1).

(** The outcome of [new WebMOpusWorker(...)]: the object, or the error
    together with what the failed call leaves behind in [Module]. *)
Inductive construction : Type :=
  | Constructed (w : Worker)
  | Failed (e : error) (h : native) (t : list event).

(** [new WebMOpusWorker(inputSampleRate, channelCount, bitsPerSecond)].
    [bitsPerSecond] is [None] when the argument is left undefined, and
    [serial] is the value of [Math.floor(Math.random() * 0xFFFFFFFF)].
    The frame sizes are computed with integer division, which is the
    source's floating-point quotient whenever the sample rate is a multiple
    of 50 Hz, as 8000, 16000, 44100 and 48000 are; buffer sizes are those
    of a channel count that is not negative.  What is proved about the
    frame sizes and the staging buffer of a constructed worker is stated
    for such sample rates and channel counts. *)
Definition constructor (inputSampleRate channelCount : Z) (bitsPerSecond : option Z)
    (serial : Z) (h : native) : construction :=
  let '(container, h1) :=
    WebMContainer_new M OPUS_OUTPUT_SAMPLE_RATE channelCount serial h in
  let t1 := [Acquire ContainerWriter] in
  match OpusInitCodec OPUS_OUTPUT_SAMPLE_RATE channelCount bitsPerSecond h1 t1 with
  | (Throw e, h2, t2) => Failed e h2 t2
  | (Normal enc, h2, t2) =>
      match SpeexInitResampler inputSampleRate OPUS_OUTPUT_SAMPLE_RATE channelCount h2 t2 with
      | (Throw e, h3, t3) => Failed e h3 t3
      | (Normal res, h3, t3) =>
          let inSamples := inputSampleRate * OPUS_FRAME_SIZE / 1000 in
          let outSamples := OPUS_OUTPUT_SAMPLE_RATE * OPUS_FRAME_SIZE / 1000 in
          Constructed
            {| config_inputSampleRate := inputSampleRate;
               config_channelCount := channelCount;
               _contrainer := container; encoder := enc; resampler := res;
               inputSamplesPerChannel := inSamples;
               outputSamplePerChannel := outSamples;
               inputBufferIndex := 0;
               mInputBuffer := WasmFloat32Buffer.new zero (inSamples * channelCount);
               mResampledBuffer := WasmFloat32Buffer.new zero (outSamples * channelCount);
               mOutputBuffer := replicate (Z.to_nat OPUS_OUTPUT_MAX_LENGTH) 0;
               interleavedBuffers :=
                 if channelCount =? 1 then None
                 else Some (replicate (Z.to_nat (BUFFER_LENGTH * channelCount)) zero);
               heap := h3;
               trace := t3 ++ [Acquire InputBuffer; Acquire ResampledBuffer;
                               Acquire OutputBuffer] |}
      end
  end.

End WebMOpusWorker.

(** ** Reading the log *)

Section Log.
Context {sample : Type}.
Local Abbreviation event := (event sample).

(** The samples stored into the staging buffer, in order. *)
Fixpoint stored (t : list event) : list sample :=
  match t with
  | [] => []
  | Store chunk _ :: t' => chunk ++ stored t'
  | _ :: t' => stored t'
  end.

(** The frames handed to the resampler, in order. *)
Fixpoint frames (t : list event) : list (list sample) :=
  match t with
  | [] => []
  | Resample frame _ :: t' => frame :: frames t'
  | _ :: t' => frames t'
  end.

Definition is_codec_call (e : event) : bool :=
  match e with
  | Resample _ _ | Encode _ _ | WriteFrame _ _ _ => true
  | _ => false
  end.

(** The calls into the resampler, the encoder and the muxer, in order. *)
Definition codec_calls (t : list event) : list event :=
  List.filter is_codec_call t.

(** [cycles calls F]: [calls] is one complete resample, encode, write
    cycle per frame of [F], each in that order, each stage successful, and
    the muxer is given the length the encoder returned. *)
Inductive cycles : list event → list (list sample) → Prop :=
  | cycles_nil : cycles [] []
  | cycles_cons frame pcm packet n d rest F :
      0 ≤ n →
      cycles rest F →
      cycles (Resample frame RESAMPLER_ERR_SUCCESS :: Encode pcm n
                :: WriteFrame packet n d :: rest) (frame :: F).

(** The resources that are acquired and not yet released, oldest first. *)
Fixpoint remove_first (r : resource) (l : list resource) : list resource :=
  match l with
  | [] => []
  | x :: l' => if decide (x = r) then l' else x :: remove_first r l'
  end.

Fixpoint live_from (acc : list resource) (t : list event) : list resource :=
  match t with
  | [] => acc
  | Acquire r :: t' => live_from (acc ++ [r]) t'
  | Release r :: t' => live_from (remove_first r acc) t'
  | _ :: t' => live_from acc t'
  end.

Definition live (t : list event) : list resource := live_from [] t.

(** The resources an event touches. *)
Definition uses (e : event) : list resource :=
  match e with
  | Acquire _ => []
  | Release r => [r]
  | Store _ _ => [InputBuffer]
  | Resample _ _ => [Resampler; InputBuffer; ResampledBuffer]
  | Encode _ _ => [Encoder; ResampledBuffer; OutputBuffer]
  | WriteFrame _ _ _ => [ContainerWriter; OutputBuffer]
  end.

(** A log is sound when every event touches live resources only: nothing
    is used or released after its release. *)
Fixpoint sound_from (acc : list resource) (t : list event) : bool :=
  match t with
  | [] => true
  | e :: t' =>
      forallb (λ r, bool_decide (r ∈ acc)) (uses e)
      && sound_from (live_from acc [e]) t'
  end.

Definition sound (t : list event) : bool := sound_from [] t.

(** The six native resources a constructed worker owns, in the order of
    their acquisition. *)
Definition owned : list resource :=
  [ContainerWriter; Encoder; Resampler; InputBuffer; ResampledBuffer; OutputBuffer].

(** A resampler call that reported a failure, an encoder call that
    returned a negative length. *)
Definition failed_resample (e : event) : bool :=
  match e with
  | Resample _ err => negb (err =? RESAMPLER_ERR_SUCCESS)
  | _ => false
  end.

Definition failed_encode (e : event) : bool :=
  match e with
  | Encode _ n => n <? 0
  | _ => false
  end.

(** The shapes of the log of one turn of the loop of [encode], with the
    error the turn raises, if any. *)
Inductive turn_log : list event → option error → Prop :=
  | turn_stage chunk offset :
      turn_log [Store chunk offset] None
  | turn_resample_failed chunk offset frame err :
      err ≠ RESAMPLER_ERR_SUCCESS →
      turn_log [Store chunk offset; Acquire Temp; Acquire Temp;
                Resample frame err; Release Temp; Release Temp]
               (Some (Error "Resampling error."))
  | turn_encode_failed chunk offset frame pcm n :
      n < 0 →
      turn_log [Store chunk offset; Acquire Temp; Acquire Temp;
                Resample frame RESAMPLER_ERR_SUCCESS; Release Temp; Release Temp;
                Encode pcm n]
               (Some (Error "Opus encoding error."))
  | turn_flush chunk offset frame pcm packet n d :
      0 ≤ n →
      turn_log [Store chunk offset; Acquire Temp; Acquire Temp;
                Resample frame RESAMPLER_ERR_SUCCESS; Release Temp; Release Temp;
                Encode pcm n; WriteFrame packet n d]
               None.

(** The log of a run of the loop: turns that return, then possibly one
    that throws. *)
Inductive call_log : list event → option error → Prop :=
  | call_done : call_log [] None
  | call_turn l rest o :
      turn_log l None → call_log rest o → call_log (l ++ rest) o
  | call_throw l e :
      turn_log l (Some e) → call_log l (Some e).

End Log.

(** ** The staging buffer seen from outside *)

Section Pipeline.
Context {sample native : Type}.
Variable M : WasmModule sample native.
Local Abbreviation Worker := (Worker sample native).

(** [this.mInputBuffer.length], the capacity of the staging buffer. *)
Definition capacity (w : Worker) : Z := WasmFloat32Buffer.length (mInputBuffer w).

(** The samples that wait in the staging buffer: the cells below the
    cursor. *)
Definition staged (w : Worker) : list sample :=
  take (Z.to_nat (inputBufferIndex w)) (mInputBuffer w).

(** The cursor invariant of the spec. *)
Definition cursor_invariant (w : Worker) : Prop :=
  0 ≤ inputBufferIndex w ≤ capacity w.

(** Between two calls of [encode] the buffer is never full. *)
Definition ready (w : Worker) : Prop :=
  0 ≤ inputBufferIndex w < capacity w.

(** The length of [this.interleavedBuffers], when there is one. *)
Definition scratch_length (w : Worker) : option nat :=
  List.length <$> interleavedBuffers w.

(** The scratch buffer as the constructor sizes it. *)
Definition scratch_sized (channelCount : Z) (w : Worker) : Prop :=
  scratch_length w
  = (if channelCount =? 1 then None
     else Some (Z.to_nat (BUFFER_LENGTH * channelCount))).

(** What the loop of [encode] and [close] never change. *)
Definition same_setup (w w' : Worker) : Prop :=
  config_inputSampleRate w' = config_inputSampleRate w
  ∧ config_channelCount w' = config_channelCount w
  ∧ _contrainer w' = _contrainer w
  ∧ encoder w' = encoder w
  ∧ resampler w' = resampler w
  ∧ inputSamplesPerChannel w' = inputSamplesPerChannel w
  ∧ outputSamplePerChannel w' = outputSamplePerChannel w
  ∧ interleavedBuffers w' = interleavedBuffers w
  ∧ capacity w' = capacity w.

(** The runs of the [while] loop of [encode], as a relation: from
    [sampleIndex] and [w] the loop ends with a completion and a worker. *)
Inductive loop_run (samples : list sample)
    : Z → Worker → completion unit → Worker → Prop :=
  | loop_exit sampleIndex w :
      TypedArray.length samples ≤ sampleIndex →
      loop_run samples sampleIndex w (Normal tt) w
  | loop_turn sampleIndex w sampleIndex' w' c w'' :
      sampleIndex < TypedArray.length samples →
      encode_step M samples sampleIndex w = (Normal sampleIndex', w') →
      loop_run samples sampleIndex' w' c w'' →
      loop_run samples sampleIndex w c w''
  | loop_throw sampleIndex w e w' :
      sampleIndex < TypedArray.length samples →
      encode_step M samples sampleIndex w = (Throw e, w') →
      loop_run samples sampleIndex w (Throw e) w'.

(** A sequence of [pushInputData] messages: [encode] is called once per
    message, with [final] left at its default, until one call throws. *)
Fixpoint feed (fuel : nat) (w : Worker) (calls : list (list (list sample)))
    : option (completion unit * Worker) :=
  match calls with
  | [] => Some (Normal tt, w)
  | buffers :: rest =>
      match encode M fuel w buffers false with
      | Some (Normal _, w') => feed fuel w' rest
      | r => r
      end
  end.

(** The interleaved streams that [interleave] returns, call after call. *)
Fixpoint streams (w : Worker) (calls : list (list (list sample)))
    : list (list sample) :=
  match calls with
  | [] => []
  | buffers :: rest =>
      match interleave w buffers with
      | (Normal (Some samples), w') => samples :: streams w' rest
      | _ => []
      end
  end.

End Pipeline.

(** The number of samples the caller passes in: every cell of every
    channel buffer of every call. *)
Definition fed {sample : Type} (calls : list (list (list sample))) : Z :=
  Z.of_nat (List.length (concat (concat calls))).

(** The interleaving the spec asks for: [L] rounds, each taking one sample
    from every channel in channel order. *)
Fixpoint interleaved {sample : Type} (L : nat) (channelBuffers : list (list sample))
    : list sample :=
  match L with
  | O => []
  | S L' =>
      omap head channelBuffers ++ interleaved L' (List.map (drop 1) channelBuffers)
  end.

(** The stream the spec expects from one call: the interleaving of its
    channel buffers over the length of the first one. *)
Definition expected_stream {sample : Type} (channelBuffers : list (list sample))
    : list sample :=
  interleaved (List.length (default [] (head channelBuffers))) channelBuffers.

(** A call that matches the fixed chunking of the worker: one buffer per
    configured channel, of any length for a single channel and of
    [BUFFER_LENGTH] samples each otherwise. *)
Definition chunked {sample : Type} (channelCount : Z)
    (channelBuffers : list (list sample)) : Prop :=
  Z.of_nat (List.length channelBuffers) = channelCount
  ∧ (channelCount = 1
     ∨ Forall (λ b, TypedArray.length b = BUFFER_LENGTH) channelBuffers).

(** ** A module to run the worker against

    A stand-in for the Emscripten module.  Its calls report the statuses
    given here, fill no buffer, and count the codec calls made so far. *)
Definition testModule (createErr initErr processErr packetLength : Z)
    : WasmModule Z nat :=
  {| WebMContainer_new := λ _ _ _ n, (1, n);
     WebMContainer_writeFrame := λ _ _ _ _ n, S n;
     Module_destroy := λ _ n, n;
     _opus_encoder_create := λ _ _ _ n, (if createErr =? 0 then 2 else 0, createErr, n);
     _opus_encoder_ctl := λ _ _ _ n, n;
     _opus_encode_float := λ _ _ _ out _ n, (packetLength, out, S n);
     _opus_encoder_destroy := λ _ n, n;
     _speex_resampler_init := λ _ _ _ _ n, (if initErr =? 0 then 3 else 0, initErr, n);
     _speex_resampler_process_interleaved_float :=
       λ _ _ _ out _ n, (processErr, out, S n);
     _speex_resampler_destroy := λ _ n, n |}.

(** The module whose every call succeeds and whose packets are 10 bytes. *)
Definition okModule : WasmModule Z nat := testModule 0 0 0 10.

(** A worker for 200 Hz input: 4 samples per channel and frame. *)
Definition testWorker (M : WasmModule Z nat) (channelCount : Z) : Worker Z nat :=
  match constructor 0 M 200 channelCount None 7 O with
  | Constructed w => w
  | Failed _ h t =>
      {| config_inputSampleRate := 200; config_channelCount := channelCount;
         _contrainer := 0; encoder := 0; resampler := 0;
         inputSamplesPerChannel := 0; outputSamplePerChannel := 0;
         inputBufferIndex := 0; mInputBuffer := []; mResampledBuffer := [];
         mOutputBuffer := []; interleavedBuffers := None; heap := h; trace := t |}
  end.

Definition monoWorker : Worker Z nat := testWorker okModule 1.
Definition stereoWorker : Worker Z nat := testWorker okModule 2.

(** A stereo worker for 44100 Hz input: 882 samples per channel and frame,
    1764 cells in the staging buffer. *)
Definition cdWorker : Worker Z nat :=
  match constructor 0 okModule 44100 2 (Some 64000) 7 O with
  | Constructed w => w
  | Failed _ _ _ => stereoWorker
  end.

(** A worker whose resampler fails, and one whose encoder fails. *)
Definition resampleFailingWorker : Worker Z nat := testWorker (testModule 0 0 5 10) 1.
Definition encodeFailingWorker : Worker Z nat := testWorker (testModule 0 0 0 (-1)) 1.

(** Three messages of three samples for one channel. *)
Definition threeCalls : list (list (list Z)) :=
  [[[1; 2; 3]]; [[4; 5; 6]]; [[7; 8; 9]]].

(** The mono worker after these three messages. *)
Definition fedWorker : Worker Z nat :=
  match feed okModule 3 monoWorker threeCalls with
  | Some (_, w) => w
  | None => monoWorker
  end.

(** The completion and the worker of a call, for a call that returns a
    result. *)
Definition result_of (r : option (completion unit * Worker Z nat))
    : completion unit * Worker Z nat :=
  default (Throw TypeError, monoWorker) r.

(** ** The message handler

    [Module.onRuntimeInitialized] installs [self.onmessage], which drives
    one global [webmOpusWorker] from the commands of the host. *)

(** Modelled from the spec: nothing in this file appends to
    [encodedBuffers]; the spec has the container writer's callback, whose
    code is not in this file, append the completed segments while
    [writeFrame] or [Module.destroy] runs.  The segments appended while a
    command runs are the [emitted] of the command.

    The other data of a message from the host and of its environment:
    [serial] is the random stream id drawn by the constructor, and
    [channelBuffers] holds the arrays that [encode] receives.  For the
    first [channelCount] of them that is the view over the whole
    [ArrayBuffer] that the handler creates in its loop
    [channelBuffers[i] = new Float32Array(channelBuffers[i].buffer)], for
    any further one the array of the message itself. *)
Inductive command (sample : Type) : Type :=
  | CmdInit (sampleRate channelCount : Z) (bitsPerSecond : option Z) (serial : Z)
  | CmdPushInputData (channelBuffers : list (list sample)) (emitted : list (list Z))
  | CmdGetEncodedData
  | CmdDone (emitted : list (list Z))
  | CmdOther.                          (* any other command string *)
Arguments CmdInit {sample} sampleRate channelCount bitsPerSecond serial.
Arguments CmdPushInputData {sample} channelBuffers emitted.
Arguments CmdGetEncodedData {sample}.
Arguments CmdDone {sample} emitted.
Arguments CmdOther {sample}.

(** What the worker posts to the host. *)
Inductive message : Type :=
  | readyToInit
  | encodedData (buffers : list (list Z))
  | lastEncodedData (buffers : list (list Z)).

(** The global scope of the web worker: the variable [webmOpusWorker]
    ([None] while it is undefined), the [encodedBuffers] array of that
    object, the state of [Module], the messages posted so far, and whether
    [self.close()] was called. *)
Record WorkerScope (sample native : Type) : Type := {
  webmOpusWorker : option (Worker sample native);
  encodedBuffers : list (list Z);
  Module_heap : native;
  posted : list message;
  closed : bool
}.
Arguments webmOpusWorker {sample native} _.
Arguments encodedBuffers {sample native} _.
Arguments Module_heap {sample native} _.
Arguments posted {sample native} _.
Arguments closed {sample native} _.

(** Every completed segment that was posted, in order. *)
Fixpoint posted_buffers (messages : list message) : list (list Z) :=
  match messages with
  | [] => []
  | readyToInit :: rest => posted_buffers rest
  | encodedData buffers :: rest => buffers ++ posted_buffers rest
  | lastEncodedData buffers :: rest => buffers ++ posted_buffers rest
  end.

Section MessageHandler.
Context {sample native : Type}.
Variable zero : sample.
Variable M : WasmModule sample native.
Local Abbreviation Worker := (Worker sample native).
Local Abbreviation WorkerScope := (WorkerScope sample native).

(** The worker object seen with the current state of [Module]. *)
Definition with_heap (w : Worker) (h : native) : Worker :=
  with_pipeline w (inputBufferIndex w) (mInputBuffer w) (mResampledBuffer w)
    (mOutputBuffer w) h (trace w).

(** The scope after [Module.onRuntimeInitialized]: no worker yet, and
    [readyToInit] posted. *)
Definition onRuntimeInitialized (h : native) : WorkerScope :=
  {| webmOpusWorker := None; encodedBuffers := []; Module_heap := h;
     posted := [readyToInit]; closed := false |}.

(** [self.onmessage].  Reading a property of the undefined
    [webmOpusWorker] raises a TypeError, and so does the loop that
    rewraps the channel buffers when it reads the [buffer] of an entry
    that is not there, which happens when the message has fewer entries
    than [config.channelCount]; the rewrapped arrays are the
    [channelBuffers] of the command.  The [emitted] segments join
    [encodedBuffers] only when the command reaches the call into the
    worker. *)
Definition onmessage (fuel : nat) (s : WorkerScope) (c : command sample)
    : option (completion unit * WorkerScope) :=
  match c with
  | CmdInit sampleRate channelCount bitsPerSecond serial =>
      match constructor zero M sampleRate channelCount bitsPerSecond serial
              (Module_heap s) with
      | Constructed w =>
          Some (Normal tt,
                {| webmOpusWorker := Some w; encodedBuffers := [];
                   Module_heap := heap w; posted := posted s; closed := closed s |})
      | Failed e h _ =>
          Some (Throw e,
                {| webmOpusWorker := webmOpusWorker s;
                   encodedBuffers := encodedBuffers s;
                   Module_heap := h; posted := posted s; closed := closed s |})
      end
  | CmdPushInputData channelBuffers emitted =>
      match webmOpusWorker s with
      | None => Some (Throw TypeError, s)
      | Some w =>
          if Z.of_nat (List.length channelBuffers) <? config_channelCount w
          then Some (Throw TypeError, s)
          else
            match encode M fuel (with_heap w (Module_heap s)) channelBuffers false with
            | Some (r, w') =>
                Some (r,
                      {| webmOpusWorker := Some w';
                         encodedBuffers := encodedBuffers s ++ emitted;
                         Module_heap := heap w'; posted := posted s;
                         closed := closed s |})
            | None => None
            end
      end
  | CmdGetEncodedData =>
      match webmOpusWorker s with
      | None => Some (Throw TypeError, s)
      | Some w =>
          Some (Normal tt,
                {| webmOpusWorker := Some w; encodedBuffers := [];
                   Module_heap := Module_heap s;
                   posted := posted s ++ [encodedData (encodedBuffers s)];
                   closed := closed s |})
      end
  | CmdDone emitted =>
      match webmOpusWorker s with
      | None => Some (Throw TypeError, s)
      | Some w =>
          let w' := close M (with_heap w (Module_heap s)) in
          Some (Normal tt,
                {| webmOpusWorker := Some w'; encodedBuffers := [];
                   Module_heap := heap w';
                   posted := posted s ++ [lastEncodedData (encodedBuffers s ++ emitted)];
                   closed := true |})
      end
  | CmdOther => Some (Normal tt, s)
  end.

(** The messages of the host, handled in order.  An error thrown by the
    handler does not stop the worker; after [self.close()] no message is
    handled any more. *)
Fixpoint deliver (fuel : nat) (s : WorkerScope) (commands : list (command sample))
    : option WorkerScope :=
  match commands with
  | [] => Some s
  | c :: rest =>
      if closed s then Some s
      else
        match onmessage fuel s c with
        | Some (_, s') => deliver fuel s' rest
        | None => None
        end
  end.

(** The segments a command adds to [encodedBuffers]. *)
Definition appended (s : WorkerScope) (c : command sample) : list (list Z) :=
  match c, webmOpusWorker s with
  | CmdPushInputData channelBuffers emitted, Some w =>
      if Z.of_nat (List.length channelBuffers) <? config_channelCount w
      then [] else emitted
  | CmdDone emitted, Some _ => emitted
  | _, _ => []
  end.

Definition is_init (c : command sample) : bool :=
  match c with
  | CmdInit _ _ _ _ => true
  | _ => false
  end.


(** The segments that the commands handled in a run add, in order. *)
Fixpoint appended_all (fuel : nat) (s : WorkerScope) (commands : list (command sample))
    : list (list Z) :=
  match commands with
  | [] => []
  | c :: rest =>
      if closed s then []
      else
        match onmessage fuel s c with
        | Some (_, s') => appended s c ++ appended_all fuel s' rest
        | None => []
        end
  end.

(** What no call of [encode] changes: the configuration, the three
    handles, the frame sizes, the capacity of the staging buffer and the
    length of the scratch buffer. *)
Definition same_codec_setup (w w' : Worker) : Prop :=
  config_inputSampleRate w' = config_inputSampleRate w
  ∧ config_channelCount w' = config_channelCount w
  ∧ _contrainer w' = _contrainer w
  ∧ encoder w' = encoder w
  ∧ resampler w' = resampler w
  ∧ inputSamplesPerChannel w' = inputSamplesPerChannel w
  ∧ outputSamplePerChannel w' = outputSamplePerChannel w
  ∧ capacity w' = capacity w
  ∧ scratch_length w' = scratch_length w.

(** A frame written to the container with a length that is not negative
    and the duration [d]. *)
Definition written_with (d : Z) (e : event sample) : Prop :=
  match e with
  | WriteFrame _ n d' => 0 ≤ n ∧ d' = d
  | _ => True
  end.

End MessageHandler.

(** A worker for a sample rate of 0: its staging buffer has no cell. *)
Definition zeroWorker : Worker Z nat :=
  match constructor 0 okModule 0 1 None 7 O with
  | Constructed w => w
  | Failed _ _ _ => monoWorker
  end.

(** The mono worker after a call whose resampler failed. *)
Definition stuckWorker : Worker Z nat :=
  snd (result_of (encode (testModule 0 0 5 10) 4 resampleFailingWorker
                    [[1; 2; 3; 4]] false)).

(** The scope after [init] for one channel at 200 Hz. *)
Definition readyScope : WorkerScope Z nat :=
  default (onRuntimeInitialized O)
    (deliver 0 okModule 0 (onRuntimeInitialized O) [CmdInit 200 1 None 7]).

(** The nine samples of [threeCalls] in one message, and the mono worker
    after it. *)
Definition nineAtOnce : list (list (list Z)) := [[[1; 2; 3; 4; 5; 6; 7; 8; 9]]].

Definition fedAtOnceWorker : Worker Z nat :=
  snd (result_of (feed okModule 9 monoWorker nineAtOnce)).

(** The call that follows the failed one, and a call of five samples on
    the worker whose resampler fails. *)
Definition retryResult : completion unit * Worker Z nat :=
  result_of (encode (testModule 0 0 5 10) 1 stuckWorker [[5]] false).

Definition throwResult : completion unit * Worker Z nat :=
  result_of (encode (testModule 0 0 5 10) 5 resampleFailingWorker
               [[1; 2; 3; 4; 5]] false).

(** A session of the mono worker, up to [done] and beyond. *)
Definition sessionCommands : list (command Z) :=
  [CmdPushInputData [[1; 2; 3; 4; 5]] [[9; 9]]; CmdGetEncodedData; CmdOther].

Definition afterSession : WorkerScope Z nat :=
  default readyScope (deliver 0 okModule 5 readyScope sessionCommands).

Definition afterDone : WorkerScope Z nat :=
  default readyScope
    (deliver 0 okModule 5 (onRuntimeInitialized O)
       (CmdInit 200 1 None 7 :: sessionCommands ++ CmdDone [[7]] :: [CmdGetEncodedData])).


(** ** Calls that go on after an error, and the staging buffer over a
    whole log *)

Section Staging.
Context {sample native : Type}.
Variable M : WasmModule sample native.
Local Abbreviation Worker := (Worker sample native).
Local Abbreviation event := (event sample).

(** A module whose resampler always reports success and whose encoder
    never returns a negative length. *)
Definition reliable : Prop :=
  (∀ st input inLen out outLen h,
     fst (fst (_speex_resampler_process_interleaved_float M st input inLen out outLen h))
     = RESAMPLER_ERR_SUCCESS)
  ∧ (∀ enc pcm frameSize out maxLength h,
       0 ≤ fst (fst (_opus_encode_float M enc pcm frameSize out maxLength h))).

(** The length of the stream that [interleave] returns: that of the only
    channel buffer, or else that of the scratch buffer. *)
Definition stream_length (w : Worker) (channelBuffers : list (list sample)) : nat :=
  match channelBuffers with
  | [only] => List.length only
  | _ => default 0%nat (scratch_length w)
  end.

(** A sequence of [pushInputData] messages, as the message handler runs
    it: [encode] is called once per message, with [final] left at its
    default, whatever the calls before it did, since an error thrown by
    one call does not keep the next message from being handled.  The
    result lists the completions of the calls. *)
Fixpoint feed_on (fuel : nat) (w : Worker) (calls : list (list (list sample)))
    : option (list (completion unit) * Worker) :=
  match calls with
  | [] => Some ([], w)
  | buffers :: rest =>
      match encode M fuel w buffers false with
      | Some (c, w') =>
          match feed_on fuel w' rest with
          | Some (cs, w'') => Some (c :: cs, w'')
          | None => None
          end
      | None => None
      end
  end.

(** [fills cap pending t final]: the log [t], replayed on a staging buffer
    of [cap] cells that holds the samples [pending], leaves [final] in it.
    Every store lands exactly at the fill level and stays inside the
    buffer; the resampler is called only on a full buffer, and what it is
    given is exactly what was staged; the buffer is emptied by the write
    that ends a cycle, and only then. *)
Fixpoint fills (cap : Z) (pending : list sample) (t : list event)
    (final : list sample) : Prop :=
  match t with
  | [] => final = pending
  | Store chunk offset :: t' =>
      offset = TypedArray.length pending
      ∧ offset + TypedArray.length chunk ≤ cap
      ∧ fills cap (pending ++ chunk) t' final
  | Resample frame _ :: t' =>
      frame = pending
      ∧ TypedArray.length pending = cap
      ∧ fills cap pending t' final
  | WriteFrame _ _ _ :: t' =>
      TypedArray.length pending = cap
      ∧ fills cap [] t' final
  | _ :: t' => fills cap pending t' final
  end.

(** The last codec call of the log failed: its frame has not been through
    a complete cycle yet. *)
Definition pending_failure (t : list event) : bool :=
  match list.last (codec_calls t) with
  | Some e => failed_resample e || failed_encode e
  | None => false
  end.

(** What holds of the staging buffer between any two calls: the cursor
    invariant; the log fills and empties the buffer as [fills] says, from
    the empty buffer to what is staged now; and the buffer is full exactly
    while the frame of a failed codec call waits in it. *)
Definition staging_invariant (w : Worker) : Prop :=
  cursor_invariant w
  ∧ fills (capacity w) [] (trace w) (staged w)
  ∧ (inputBufferIndex w = capacity w ↔ pending_failure (trace w) = true).


End Staging.

(** The 44100 Hz stereo worker after a message of three samples per
    channel, and the mono worker whose resampler fails after a message
    that fills its buffer, a message of one sample and an empty one. *)
Definition cdFedWorker : Worker Z nat :=
  match feed_on okModule (Z.to_nat 8193) cdWorker [[[1; 2; 3]; [4; 5; 6]]] with
  | Some (_, w) => w
  | None => cdWorker
  end.

Definition failingCalls : list (list (list Z)) := [[[1; 2; 3; 4]]; [[5]]; [[]]].


(** * Facts *)

(** Closed goals about concrete runs are settled by evaluation. *)
Ltac run := vm_compute; repeat split; try reflexivity; try discriminate; try lia.

(** ** The log *)

Section LogFacts.
Context {sample : Type}.
Implicit Types t : list (event sample).

Lemma stored_app t1 t2 : stored (t1 ++ t2) = stored t1 ++ stored t2.
Proof.
  induction t1 as [|e t1 IH]; [done|].
  destruct e; simpl; rewrite ?IH, <- ?app_assoc; done.
Qed.

Lemma frames_app t1 t2 : frames (t1 ++ t2) = frames t1 ++ frames t2.
Proof.
  induction t1 as [|e t1 IH]; [done|].
  destruct e; simpl; rewrite ?IH; done.
Qed.

Lemma codec_calls_app t1 t2 :
  codec_calls (t1 ++ t2) = codec_calls t1 ++ codec_calls t2.
Proof. apply List.filter_app. Qed.

Lemma cycles_app (c1 c2 : list (event sample)) F1 F2 :
  cycles c1 F1 → cycles c2 F2 → cycles (c1 ++ c2) (F1 ++ F2).
Proof.
  induction 1 as [|frame pcm packet n d rest F Hn Hc IH]; intros H2; [done|].
  simpl. constructor; auto.
Qed.

Lemma cycles_length (c : list (event sample)) F :
  cycles c F → List.length c = (3 * List.length F)%nat.
Proof. induction 1; simpl in *; lia. Qed.

Lemma cycles_frames (c : list (event sample)) F : cycles c F → frames c = F.
Proof. induction 1; simpl; congruence. Qed.

Lemma frames_codec_calls t : frames (codec_calls t) = frames t.
Proof.
  induction t as [|e t IH]; [done|].
  destruct e; simpl; rewrite ?IH; done.
Qed.

Lemma live_from_app acc t1 t2 :
  live_from acc (t1 ++ t2) = live_from (live_from acc t1) t2.
Proof.
  revert acc. induction t1 as [|e t1 IH]; intros acc; [done|].
  destruct e; simpl; auto.
Qed.

Lemma sound_from_app acc t1 t2 :
  sound_from acc (t1 ++ t2) = sound_from acc t1 && sound_from (live_from acc t1) t2.
Proof.
  revert acc. induction t1 as [|e t1 IH]; intros acc; [done|].
  simpl. rewrite IH, andb_assoc. destruct e; reflexivity.
Qed.

End LogFacts.

(** ** Typed arrays inside their bounds *)

Section ArrayFacts.
Context {A : Type}.
Implicit Types a b : list A.

Lemma subarray_in_range a (begin_ end_ : Z) :
  0 ≤ begin_ ≤ end_ → end_ ≤ TypedArray.length a →
  TypedArray.subarray a begin_ end_
  = take (Z.to_nat (end_ - begin_)) (drop (Z.to_nat begin_) a).
Proof.
  intros Hb He. unfold TypedArray.subarray, TypedArray.relative.
  destruct (Z.ltb_spec begin_ 0); [lia|].
  destruct (Z.ltb_spec end_ 0); [lia|].
  rewrite !Z.min_l by lia. done.
Qed.

Lemma subarray_length a (begin_ end_ : Z) :
  0 ≤ begin_ ≤ end_ → end_ ≤ TypedArray.length a →
  TypedArray.length (TypedArray.subarray a begin_ end_) = end_ - begin_.
Proof.
  intros Hb He. rewrite subarray_in_range by done.
  unfold TypedArray.length in *. rewrite length_take, length_drop. lia.
Qed.

Lemma set_length b a (offset : Z) :
  List.length (WasmFloat32Buffer.set b a offset) = List.length b.
Proof.
  unfold WasmFloat32Buffer.set. destruct (offset <? 0); [done|].
  rewrite length_take, !length_app, length_take, length_drop. lia.
Qed.

Lemma set_in_range b a (offset : Z) :
  0 ≤ offset → offset + TypedArray.length a ≤ WasmFloat32Buffer.length b →
  WasmFloat32Buffer.set b a offset
  = take (Z.to_nat offset) b ++ a ++ drop (Z.to_nat offset + List.length a) b.
Proof.
  intros Ho Hfit. unfold WasmFloat32Buffer.set.
  destruct (Z.ltb_spec offset 0); [lia|].
  unfold TypedArray.length, WasmFloat32Buffer.length in Hfit.
  apply take_ge. rewrite !length_app, length_take, length_drop. lia.
Qed.

Lemma set_prefix b a (offset : Z) :
  0 ≤ offset → offset + TypedArray.length a ≤ WasmFloat32Buffer.length b →
  take (Z.to_nat (offset + TypedArray.length a)) (WasmFloat32Buffer.set b a offset)
  = take (Z.to_nat offset) b ++ a.
Proof.
  intros Ho Hfit. rewrite set_in_range by done.
  unfold TypedArray.length, WasmFloat32Buffer.length in *.
  rewrite app_assoc. rewrite take_app_length'; [done|].
  rewrite length_app, length_take. lia.
Qed.

End ArrayFacts.

(** ** One turn of the loop *)

Section StepFacts.
Context {sample native : Type}.
Variable M : WasmModule sample native.
Implicit Types w : Worker sample native.
Implicit Types samples : list sample.

Lemma same_setup_refl w : same_setup w w.
Proof. repeat split. Qed.

Lemma same_setup_trans w1 w2 w3 :
  same_setup w1 w2 → same_setup w2 w3 → same_setup w1 w3.
Proof. unfold same_setup. intros H1 H2. intuition congruence. Qed.

Lemma same_setup_pipeline w index input resampled output h t :
  List.length input = List.length (mInputBuffer w) →
  same_setup w (with_pipeline w index input resampled output h t).
Proof.
  intros Hlen. repeat split.
  unfold capacity, WasmFloat32Buffer.length. simpl. congruence.
Qed.

(** The chunk copied in a turn that starts inside the array with room in
    the buffer: the next [k] samples, [k] being what fits. *)
Lemma chunk_in_range samples (i k : Z) :
  0 ≤ i → 0 ≤ k → i + k ≤ TypedArray.length samples →
  TypedArray.subarray samples i (i + k)
  = take (Z.to_nat k) (drop (Z.to_nat i) samples)
  ∧ TypedArray.length (take (Z.to_nat k) (drop (Z.to_nat i) samples)) = k.
Proof.
  intros Hi Hk Hfit. rewrite subarray_in_range by lia.
  replace (i + k - i) with k by lia. split; [done|].
  unfold TypedArray.length in *. rewrite length_take, length_drop. lia.
Qed.

(** A turn that does not fill the buffer stages the rest of [samples]. *)
Lemma encode_step_stage samples (i : Z) w :
  ready w → 0 ≤ i < TypedArray.length samples →
  TypedArray.length samples - i < capacity w - inputBufferIndex w →
  ∃ w', encode_step M samples i w = (Normal (TypedArray.length samples), w')
    ∧ same_setup w w'
    ∧ trace w' = trace w ++ [Store (drop (Z.to_nat i) samples) (inputBufferIndex w)]
    ∧ inputBufferIndex w' = inputBufferIndex w + (TypedArray.length samples - i)
    ∧ staged w' = staged w ++ drop (Z.to_nat i) samples
    ∧ heap w' = heap w.
Proof.
  intros [Hlo Hhi] Hi Hroom. unfold capacity in *.
  unfold encode_step.
  rewrite Z.min_r by lia.
  set (k := TypedArray.length samples - i).
  destruct (chunk_in_range samples i k) as [Hchunk Hlen]; [lia..|].
  rewrite Hchunk.
  assert (Hall : take (Z.to_nat k) (drop (Z.to_nat i) samples) = drop (Z.to_nat i) samples).
  { apply take_ge. rewrite length_drop. unfold TypedArray.length in *. lia. }
  rewrite Hall in *.
  destruct (Z.leb_spec
    (WasmFloat32Buffer.length
       (WasmFloat32Buffer.set (mInputBuffer w) (drop (Z.to_nat i) samples) (inputBufferIndex w)))
    (inputBufferIndex w + k)) as [Hfull|_].
  { unfold WasmFloat32Buffer.length in Hfull. rewrite set_length in Hfull.
    unfold WasmFloat32Buffer.length in *. lia. }
  eexists. split; [f_equal; f_equal; lia|].
  split; [apply same_setup_pipeline, set_length|].
  split; [done|]. split; [done|]. split; [|done].
  unfold staged. simpl.
  rewrite <- Hlen at 1. apply set_prefix; lia.
Qed.

(** A turn that fills the buffer runs the resampler, then the encoder,
    then the muxer, on the full buffer, and stops at the first failure. *)
Lemma encode_step_full samples (i : Z) w :
  ready w → 0 ≤ i →
  capacity w - inputBufferIndex w ≤ TypedArray.length samples - i →
  let k := capacity w - inputBufferIndex w in
  let chunk := take (Z.to_nat k) (drop (Z.to_nat i) samples) in
  let frame := staged w ++ chunk in
  ∃ c w' rest,
    encode_step M samples i w = (c, w')
    ∧ same_setup w w'
    ∧ mInputBuffer w' = frame
    ∧ TypedArray.length frame = capacity w
    ∧ trace w' = trace w ++ Store chunk (inputBufferIndex w) :: rest
    ∧ stored rest = []
    ∧ frames rest = [frame]
    ∧ match c with
      | Normal i' =>
          i' = i + k ∧ inputBufferIndex w' = 0
          ∧ cycles (codec_calls rest) [frame]
      | Throw e =>
          inputBufferIndex w' = capacity w
          ∧ ((e = Error "Resampling error."
              ∧ ∃ err, err ≠ RESAMPLER_ERR_SUCCESS
                  ∧ codec_calls rest = [Resample frame err])
             ∨ (e = Error "Opus encoding error."
                ∧ ∃ pcm n, n < 0
                    ∧ codec_calls rest
                      = [Resample frame RESAMPLER_ERR_SUCCESS; Encode pcm n]))
      end.
Proof.
  intros [Hlo Hhi] Hi Hroom k chunk frame. unfold capacity in *.
  unfold encode_step.
  rewrite Z.min_l by lia. fold k.
  destruct (chunk_in_range samples i k) as [Hchunk Hlen]; [lia..|].
  rewrite Hchunk. fold chunk in Hlen |- *.
  set (input := WasmFloat32Buffer.set (mInputBuffer w) chunk (inputBufferIndex w)).
  assert (Hinput : input = frame).
  { unfold input, frame, staged.
    rewrite <- (set_prefix (mInputBuffer w) chunk (inputBufferIndex w)) by lia.
    symmetry. apply take_ge. rewrite set_length.
    unfold WasmFloat32Buffer.length in *. lia. }
  assert (Hcap : TypedArray.length frame = WasmFloat32Buffer.length (mInputBuffer w)).
  { rewrite <- Hinput. unfold input, TypedArray.length, WasmFloat32Buffer.length.
    by rewrite set_length. }
  assert (Hsetup : ∀ index resampled output h t,
    same_setup w (with_pipeline w index input resampled output h t)).
  { intros. apply same_setup_pipeline. apply set_length. }
  destruct (Z.leb_spec (WasmFloat32Buffer.length input) (inputBufferIndex w + k)) as [_|Hnot].
  2:{ unfold WasmFloat32Buffer.length in Hnot. unfold input in Hnot.
      rewrite set_length in Hnot. unfold WasmFloat32Buffer.length in *. lia. }
  destruct (_speex_resampler_process_interleaved_float M _ _ _ _ _ _)
    as [[err resampled] h1].
  destruct (Z.eqb_spec err RESAMPLER_ERR_SUCCESS) as [->|Herr]; simpl negb; cbv iota.
  2:{ eexists _, _, _. split; [reflexivity|]. split; [apply Hsetup|].
      split; [done|]. split; [done|].
      split; [simpl; rewrite <- app_assoc; reflexivity|].
      split; [done|]. split; [simpl; by rewrite Hinput|].
      split; [simpl; unfold k; lia|].
      left. split; [done|]. exists err. split; [done|]. simpl. by rewrite Hinput. }
  destruct (_opus_encode_float M _ _ _ _ _ _) as [[packetLength output] h2].
  destruct (Z.ltb_spec packetLength 0) as [Hneg|Hpos].
  - eexists _, _, _. split; [reflexivity|]. split; [apply Hsetup|].
    split; [done|]. split; [done|].
    split; [simpl; rewrite <- !app_assoc; reflexivity|].
    split; [done|]. split; [simpl; by rewrite Hinput|].
    split; [simpl; unfold k; lia|].
    right. split; [done|]. exists resampled, packetLength.
    split; [done|]. simpl. by rewrite Hinput.
  - eexists _, _, _. split; [reflexivity|]. split; [apply Hsetup|].
    split; [done|]. split; [done|].
    split; [simpl; rewrite <- !app_assoc; reflexivity|].
    split; [done|]. split; [simpl; by rewrite Hinput|].
    split; [done|]. split; [done|].
    simpl. rewrite Hinput. constructor; [done|constructor].
Qed.

(** When a turn throws, in terms of what the module returns: the resampler
    status decides first, then the length the encoder returns; a turn that
    does not fill the buffer calls neither and returns. *)
Lemma encode_step_throws samples (i : Z) w :
  let lengthToCopy :=
    Z.min (capacity w - inputBufferIndex w) (TypedArray.length samples - i) in
  let input :=
    WasmFloat32Buffer.set (mInputBuffer w)
      (TypedArray.subarray samples i (i + lengthToCopy)) (inputBufferIndex w) in
  let full := capacity w ≤ inputBufferIndex w + lengthToCopy in
  let resampling :=
    _speex_resampler_process_interleaved_float M (resampler w) input
      (inputSamplesPerChannel w) (mResampledBuffer w) (outputSamplePerChannel w)
      (heap w) in
  let encoding :=
    _opus_encode_float M (encoder w) (snd (fst resampling)) (outputSamplePerChannel w)
      (mOutputBuffer w) (Z.of_nat (List.length (mOutputBuffer w))) (snd resampling) in
  (fst (encode_step M samples i w) = Throw (Error "Resampling error.")
   ↔ full ∧ fst (fst resampling) ≠ RESAMPLER_ERR_SUCCESS)
  ∧ (fst (encode_step M samples i w) = Throw (Error "Opus encoding error.")
     ↔ full ∧ fst (fst resampling) = RESAMPLER_ERR_SUCCESS
       ∧ fst (fst encoding) < 0)
  ∧ (∀ e, fst (encode_step M samples i w) = Throw e →
          e = Error "Resampling error." ∨ e = Error "Opus encoding error.").
Proof.
  intros lengthToCopy input full resampling encoding.
  unfold encode_step. fold (capacity w). fold lengthToCopy. fold input.
  unfold full. replace (WasmFloat32Buffer.length input) with (capacity w)
    by (unfold capacity, WasmFloat32Buffer.length, input; by rewrite set_length).
  destruct (Z.leb_spec (capacity w) (inputBufferIndex w + lengthToCopy)) as [Hfull|Hroom].
  2:{ simpl. split; [|split]; [split; [done|lia]|split; [done|lia]|done]. }
  fold resampling. destruct resampling as [[err resampled] h1]. simpl in encoding. simpl.
  destruct (Z.eqb_spec err RESAMPLER_ERR_SUCCESS) as [->|Herr]; simpl negb; cbv iota.
  2:{ simpl. split; [|split]; [split; [done|]|split; [done|]|]; try tauto.
      intros e [= <-]. by left. }
  fold encoding. destruct encoding as [[n output] h2]. simpl.
  destruct (Z.ltb_spec n 0) as [Hneg|Hpos]; simpl.
  - split; [|split].
    + split; [done|]. intros [_ ?]. done.
    + split; [done|]. done.
    + intros e [= <-]. by right.
  - split; [|split].
    + split; [done|]. intros [_ ?]. done.
    + split; [done|]. intros (_ & _ & ?). lia.
    + done.
Qed.

End StepFacts.

(** ** The whole loop *)

Section LoopFacts.
Context {sample native : Type}.
Variable M : WasmModule sample native.
Implicit Types w : Worker sample native.
Implicit Types samples : list sample.

(** The fuelled loop and the relation describe the same runs. *)
Lemma encode_loop_run fuel samples (i : Z) w c w' :
  encode_loop M fuel samples i w = Some (c, w') → loop_run M samples i w c w'.
Proof.
  revert i w. induction fuel as [|fuel IH]; intros i w; simpl.
  - destruct (Z.ltb_spec i (TypedArray.length samples)); [done|].
    intros [= <- <-]. by constructor.
  - destruct (Z.ltb_spec i (TypedArray.length samples)) as [Hlt|Hge].
    + destruct (encode_step M samples i w) as [[i'|e] w1] eqn:Hstep.
      * intros Hrest. eapply loop_turn; eauto.
      * intros [= <- <-]. by eapply loop_throw.
    + intros [= <- <-]. by constructor.
Qed.

Lemma loop_run_deterministic samples (i : Z) w c1 w1 c2 w2 :
  loop_run M samples i w c1 w1 → loop_run M samples i w c2 w2 →
  c1 = c2 ∧ w1 = w2.
Proof.
  intros H1. revert c2 w2.
  induction H1 as [i w Hge|i w i' w' c w'' Hlt Hstep Hrun IH|i w e w' Hlt Hstep];
    intros c2 w2 H2; inversion H2; subst; try lia; try congruence.
  - done.
  - apply IH. congruence.
  - split; congruence.
Qed.

(** More fuel never changes a result. *)
Lemma encode_loop_more_fuel fuel fuel' samples (i : Z) w r :
  (fuel ≤ fuel')%nat →
  encode_loop M fuel samples i w = Some r → encode_loop M fuel' samples i w = Some r.
Proof.
  revert fuel' i w. induction fuel as [|fuel IH]; intros fuel' i w Hle; simpl.
  - destruct (Z.ltb_spec i (TypedArray.length samples)); [done|].
    intros <-. destruct fuel'; simpl;
      by destruct (Z.ltb_spec i (TypedArray.length samples)); [lia|].
  - destruct fuel' as [|fuel']; [lia|]. simpl.
    destruct (i <? TypedArray.length samples); [|done].
    destruct (encode_step M samples i w) as [[i'|e] w1]; [|done].
    apply IH. lia.
Qed.

(** With a buffer that is not full the loop ends within one turn per
    sample that is left. *)
Lemma encode_loop_terminates fuel samples (i : Z) w :
  ready w → 0 ≤ i →
  (Z.to_nat (TypedArray.length samples - i) ≤ fuel)%nat →
  ∃ c w', encode_loop M fuel samples i w = Some (c, w').
Proof.
  revert i w. induction fuel as [|fuel IH]; intros i w Hready Hi Hfuel; simpl.
  - destruct (Z.ltb_spec i (TypedArray.length samples)); [lia|]. eauto.
  - destruct (Z.ltb_spec i (TypedArray.length samples)) as [Hlt|Hge]; [|eauto].
    destruct (Z.lt_ge_cases (TypedArray.length samples - i)
                (capacity w - inputBufferIndex w)) as [Hroom|Hroom].
    + destruct (encode_step_stage M samples i w) as (w1 & -> & _); [done|lia|done|].
      destruct fuel; simpl;
        destruct (Z.ltb_spec (TypedArray.length samples) (TypedArray.length samples));
        try lia; eauto.
    + destruct (encode_step_full M samples i w Hready Hi Hroom)
        as (c & w1 & rest & -> & Hsetup & _ & _ & _ & _ & _ & Hc).
      destruct c as [i'|e]; [|eauto].
      destruct Hc as (-> & Hidx & _).
      destruct Hsetup as (_ & _ & _ & _ & _ & _ & _ & _ & Hcap).
      destruct Hready as [Hlo Hhi].
      apply IH; [unfold ready; lia|lia|lia].
Qed.

(** What a run of the loop does to the log and to the staging buffer. *)
Lemma loop_run_spec samples (i : Z) w c w' :
  loop_run M samples i w c w' → ready w → 0 ≤ i →
  ∃ suffix,
    trace w' = trace w ++ suffix
    ∧ same_setup w w'
    ∧ Forall (λ f, TypedArray.length f = capacity w) (frames suffix)
    ∧ staged w ++ stored suffix
      = concat (frames suffix) ++ match c with Normal _ => staged w' | Throw _ => [] end
    ∧ match c with
      | Normal _ =>
          ready w'
          ∧ stored suffix = drop (Z.to_nat i) samples
          ∧ cycles (codec_calls suffix) (frames suffix)
      | Throw e =>
          inputBufferIndex w' = capacity w
          ∧ (∃ n, stored suffix = take n (drop (Z.to_nat i) samples))
          ∧ ∃ cs F tail,
              codec_calls suffix = cs ++ tail
              ∧ frames suffix = F ++ [mInputBuffer w']
              ∧ cycles cs F
              ∧ ((e = Error "Resampling error."
                  ∧ ∃ err, err ≠ RESAMPLER_ERR_SUCCESS
                      ∧ tail = [Resample (mInputBuffer w') err])
                 ∨ (e = Error "Opus encoding error."
                    ∧ ∃ pcm n, n < 0
                        ∧ tail = [Resample (mInputBuffer w') RESAMPLER_ERR_SUCCESS;
                                  Encode pcm n]))
      end.
Proof.
  induction 1 as [i w Hge|i w i' w1 c w' Hlt Hstep Hrun IH|i w e w' Hlt Hstep];
    intros Hready Hi.
  - exists []. rewrite app_nil_r. split; [done|]. split; [apply same_setup_refl|].
    split; [constructor|]. split; [by rewrite app_nil_r|].
    split; [done|]. split; [|constructor].
    symmetry. apply drop_ge. unfold TypedArray.length in Hge. lia.
  - destruct (Z.lt_ge_cases (TypedArray.length samples - i)
                (capacity w - inputBufferIndex w)) as [Hroom|Hroom].
    + destruct (encode_step_stage M samples i w) as
        (w1' & Hstep' & Hsetup & Htrace & Hidx & Hstaged & _); [done|lia|done|].
      rewrite Hstep in Hstep'. injection Hstep' as -> <-.
      assert (Hcap : capacity w1 = capacity w) by apply Hsetup.
      destruct IH as (suffix & Ht & Hs & Hall & Hcons & Hc).
      { unfold ready in *. lia. }
      { unfold TypedArray.length. lia. }
      assert (Hnil : stored suffix = [] ∧ frames suffix = frames suffix) by
        (split; [|done]; destruct c; [destruct Hc as (_ & -> & _)|destruct Hc as (_ & [n ->] & _)];
         rewrite drop_ge; unfold TypedArray.length; try lia; by rewrite ?take_nil).
      destruct Hnil as [Hnil _].
      exists (Store (drop (Z.to_nat i) samples) (inputBufferIndex w) :: suffix).
      split; [rewrite Ht, Htrace, <- app_assoc; done|].
      split; [eapply same_setup_trans; eauto|].
      split; [simpl; by rewrite <- Hcap|].
      split.
      { simpl. rewrite Hnil, app_nil_r. rewrite <- Hcons, Hnil, app_nil_r. done. }
      destruct c as [[]|e].
      * destruct Hc as (Hr & _ & Hcyc). split; [done|].
        split; [simpl; by rewrite Hnil, app_nil_r|done].
      * destruct Hc as (Hfull & _ & Htail). split; [lia|].
        split; [exists (List.length (drop (Z.to_nat i) samples)); simpl;
                rewrite Hnil, app_nil_r; by rewrite firstn_all|done].
    + destruct (encode_step_full M samples i w Hready Hi Hroom)
        as (c1 & w1' & rest & Hstep' & Hsetup & Hbuf & Hlen & Htrace & Hst & Hfr & Hc1).
      rewrite Hstep in Hstep'. injection Hstep' as <- <-.
      destruct Hc1 as (-> & Hidx & Hcyc).
      assert (Hcap : capacity w1 = capacity w) by apply Hsetup.
      set (k := capacity w - inputBufferIndex w) in *.
      set (chunk := take (Z.to_nat k) (drop (Z.to_nat i) samples)) in *.
      assert (Hstaged1 : staged w1 = []) by (unfold staged; by rewrite Hidx).
      destruct IH as (suffix & Ht & Hs & Hall & Hcons & Hc).
      { unfold ready in *. lia. }
      { unfold ready in *. lia. }
      rewrite Hstaged1 in Hcons. simpl in Hcons.
      assert (Hdrop : drop (Z.to_nat (i + k)) samples = drop (Z.to_nat k) (drop (Z.to_nat i) samples)).
      { rewrite drop_drop. f_equal. unfold ready in *. lia. }
      exists (Store chunk (inputBufferIndex w) :: rest ++ suffix).
      split; [rewrite Ht, Htrace, <- app_assoc; done|].
      split; [eapply same_setup_trans; eauto|].
      split.
      { simpl. rewrite frames_app, Hfr. constructor; [done|]. by rewrite <- Hcap. }
      split.
      { simpl. rewrite stored_app, frames_app, Hst, Hfr. simpl.
        rewrite Hcons, !app_assoc. done. }
      assert (Hcalls : codec_calls (Store chunk (inputBufferIndex w) :: rest ++ suffix)
                       = codec_calls rest ++ codec_calls suffix)
        by (simpl; apply codec_calls_app).
      rewrite Hcalls.
      assert (Hframes : frames (Store chunk (inputBufferIndex w) :: rest ++ suffix)
                       = [staged w ++ chunk] ++ frames suffix)
        by (simpl; by rewrite frames_app, Hfr).
      rewrite Hframes.
      destruct c as [[]|e].
      * destruct Hc as (Hr & Hstored & Hcyc2). split; [done|].
        split; [|by apply cycles_app].
        simpl. rewrite stored_app, Hst, Hstored, Hdrop. simpl.
        unfold chunk. apply take_drop.
      * destruct Hc as (Hfull & [n Hstored] & cs & F & tail & Hcs & HF & Hcyc2 & He).
        split; [lia|]. split.
        { exists (Z.to_nat k + n)%nat. simpl. rewrite stored_app, Hst, Hstored, Hdrop.
          simpl. unfold chunk. by rewrite take_take_drop. }
        exists (codec_calls rest ++ cs), ([staged w ++ chunk] ++ F), tail.
        split; [by rewrite Hcs, app_assoc|].
        split; [by rewrite HF, app_assoc|].
        split; [by apply cycles_app|done].
  - destruct (Z.lt_ge_cases (TypedArray.length samples - i)
                (capacity w - inputBufferIndex w)) as [Hroom|Hroom].
    + destruct (encode_step_stage M samples i w) as (w1' & Hstep' & _); [done|lia|done|].
      congruence.
    + destruct (encode_step_full M samples i w Hready Hi Hroom)
        as (c1 & w1' & rest & Hstep' & Hsetup & Hbuf & Hlen & Htrace & Hst & Hfr & Hc1).
      rewrite Hstep in Hstep'. injection Hstep' as <- <-.
      destruct Hc1 as (Hidx & He).
      set (k := capacity w - inputBufferIndex w) in *.
      set (chunk := take (Z.to_nat k) (drop (Z.to_nat i) samples)) in *.
      exists (Store chunk (inputBufferIndex w) :: rest).
      split; [done|]. split; [done|].
      split; [simpl; rewrite Hfr; by constructor|].
      split; [simpl; by rewrite Hst, Hfr, !app_nil_r; simpl; rewrite app_nil_r|].
      split; [done|].
      split; [exists (Z.to_nat k); simpl; by rewrite Hst, app_nil_r|].
      exists [], [], (codec_calls rest).
      split; [done|]. split; [simpl; by rewrite Hfr, Hbuf|].
      split; [constructor|]. rewrite Hbuf. done.
Qed.

End LoopFacts.

(** ** interleave *)

Section InterleaveFacts.
Context {sample native : Type}.
Implicit Types w : Worker sample native.
Implicit Types buffer scratch : list sample.
Implicit Types channelBuffers : list (list sample).

Lemma interleave_channel_length chCount ch i buffer scratch :
  List.length (interleave_channel chCount ch i buffer scratch) = List.length scratch.
Proof.
  revert i scratch. induction buffer as [|x rest IH]; intros i scratch; simpl; [done|].
  by rewrite IH, length_insert.
Qed.

(** Cells that the inner loop does not address keep their contents. *)
Lemma interleave_channel_other chCount ch i buffer scratch (k : nat) :
  (∀ j, (j < List.length buffer)%nat → k ≠ ((i + j) * chCount + ch)%nat) →
  interleave_channel chCount ch i buffer scratch !! k = scratch !! k.
Proof.
  revert i scratch. induction buffer as [|x rest IH]; intros i scratch Hk; simpl; [done|].
  rewrite IH.
  - apply list_lookup_insert_ne. specialize (Hk 0%nat). simpl in Hk.
    rewrite Nat.add_0_r in Hk. intros Heq. apply Hk; [lia|done].
  - intros j Hj. specialize (Hk (S j)). simpl in Hk.
    replace (S i + j)%nat with (i + S j)%nat by lia. apply Hk. lia.
Qed.

(** Cell [(i + j) * chCount + ch] receives [buffer[j]] when it exists. *)
Lemma interleave_channel_written chCount ch i buffer scratch (j : nat) x :
  (0 < chCount)%nat →
  buffer !! j = Some x →
  ((i + j) * chCount + ch < List.length scratch)%nat →
  interleave_channel chCount ch i buffer scratch !! ((i + j) * chCount + ch)%nat = Some x.
Proof.
  intros Hch. revert i j scratch.
  induction buffer as [|y rest IH]; intros i j scratch Hj Hin; [done|].
  destruct j as [|j]; simpl in *.
  - injection Hj as ->. rewrite interleave_channel_other.
    + rewrite Nat.add_0_r in *. by apply list_lookup_insert_eq.
    + intros j' _. nia.
  - replace (i + S j)%nat with (S i + j)%nat in * by lia.
    apply IH; [done|]. by rewrite length_insert.
Qed.

(** Rows at or beyond [n] fall outside a scratch buffer of [n] rows. *)
Lemma interleave_channel_take chCount ch i buffer scratch (n : nat) :
  (List.length scratch ≤ n * chCount)%nat →
  interleave_channel chCount ch i buffer scratch
  = interleave_channel chCount ch i (take (n - i) buffer) scratch.
Proof.
  intros Hn. revert i scratch Hn.
  induction buffer as [|x rest IH]; intros i scratch Hn; simpl.
  - by rewrite take_nil.
  - destruct (decide (i < n)%nat) as [Hlt|Hge].
    + replace (n - i)%nat with (S (n - S i)) by lia. simpl.
      apply IH. by rewrite length_insert.
    + replace (n - i)%nat with 0%nat by lia. simpl.
      rewrite list_insert_ge by nia.
      rewrite (IH (S i) scratch Hn).
      replace (n - S i)%nat with 0%nat by lia. done.
Qed.

Lemma interleave_channels_length chCount ch channelBuffers scratch :
  List.length (interleave_channels chCount ch channelBuffers scratch)
  = List.length scratch.
Proof.
  revert ch scratch.
  induction channelBuffers as [|b rest IH]; intros ch scratch; simpl; [done|].
  by rewrite IH, interleave_channel_length.
Qed.

Lemma interleave_channels_other chCount ch channelBuffers scratch (k : nat) :
  (∀ c b j, channelBuffers !! c = Some b → (j < List.length b)%nat →
            k ≠ (j * chCount + (ch + c))%nat) →
  interleave_channels chCount ch channelBuffers scratch !! k = scratch !! k.
Proof.
  revert ch scratch.
  induction channelBuffers as [|b rest IH]; intros ch scratch Hk; simpl; [done|].
  rewrite IH.
  - apply interleave_channel_other. intros j Hj.
    specialize (Hk 0%nat b j eq_refl Hj). by rewrite Nat.add_0_r in Hk.
  - intros c b' j Hc Hj. specialize (Hk (S c) b' j Hc Hj).
    by replace (S ch + c)%nat with (ch + S c)%nat by lia.
Qed.

Lemma interleave_channels_written chCount ch channelBuffers scratch (c j : nat) b x :
  (ch + List.length channelBuffers ≤ chCount)%nat →
  channelBuffers !! c = Some b → b !! j = Some x →
  (j * chCount + (ch + c) < List.length scratch)%nat →
  interleave_channels chCount ch channelBuffers scratch !! (j * chCount + (ch + c))%nat
  = Some x.
Proof.
  revert ch c scratch.
  induction channelBuffers as [|b0 rest IH]; intros ch c scratch Hfit Hc Hj Hin; [done|].
  simpl in Hfit. destruct c as [|c]; simpl in *.
  - injection Hc as ->. rewrite interleave_channels_other.
    + rewrite Nat.add_0_r in *.
      apply (interleave_channel_written chCount ch 0 b scratch j x); [lia|done|done].
    + intros c' b' j' Hc' _. rewrite Nat.add_0_r.
      intros Heq.
      assert (Hmod : ((j * chCount + ch) mod chCount = (j' * chCount + (S ch + c')) mod chCount)%nat)
        by (by rewrite Heq).
      apply lookup_lt_Some in Hc'.
      revert Hmod. rewrite !(Nat.add_comm (_ * chCount)), !Nat.Div0.mod_add.
      rewrite !Nat.mod_small; lia.
  - replace (ch + S c)%nat with (S ch + c)%nat in * by lia.
    apply IH; [lia|done|done|]. by rewrite interleave_channel_length.
Qed.

Lemma interleave_channels_take chCount ch channelBuffers scratch (n : nat) :
  (List.length scratch ≤ n * chCount)%nat →
  interleave_channels chCount ch channelBuffers scratch
  = interleave_channels chCount ch (take n <$> channelBuffers) scratch.
Proof.
  intros Hn. revert ch scratch Hn.
  induction channelBuffers as [|b rest IH]; intros ch scratch Hn; simpl; [done|].
  rewrite (interleave_channel_take chCount ch 0 b scratch n Hn), Nat.sub_0_r.
  apply IH. by rewrite interleave_channel_length.
Qed.

(** The interleaving of the spec, cell by cell. *)
Lemma heads_length (L : nat) channelBuffers :
  Forall (λ b, List.length b = S L) channelBuffers →
  List.length (omap head channelBuffers) = List.length channelBuffers.
Proof.
  induction 1 as [|b bs Hb _ IH]; [done|].
  destruct b as [|x b]; [done|]. simpl. f_equal. exact IH.
Qed.

Lemma heads_lookup (L : nat) channelBuffers (c : nat) b :
  Forall (λ b, List.length b = S L) channelBuffers →
  channelBuffers !! c = Some b → omap head channelBuffers !! c = head b.
Proof.
  intros Hall. revert c.
  induction Hall as [|b0 bs Hb _ IH]; intros c Hc; [done|].
  destruct b0 as [|x b0]; [done|].
  destruct c as [|c]; simpl in *; [by injection Hc as <-|].
  by apply IH.
Qed.

Lemma tails_length (L : nat) channelBuffers :
  Forall (λ b, List.length b = S L) channelBuffers →
  Forall (λ b, List.length b = L) (List.map (drop 1) channelBuffers).
Proof.
  induction 1 as [|b bs Hb _ IH]; simpl; constructor; [|done].
  rewrite length_drop. lia.
Qed.

Lemma interleaved_length (L : nat) channelBuffers :
  Forall (λ b, List.length b = L) channelBuffers →
  List.length (interleaved L channelBuffers) = (L * List.length channelBuffers)%nat.
Proof.
  revert channelBuffers. induction L as [|L IH]; intros bs Hall; simpl; [done|].
  rewrite length_app, IH by by apply tails_length.
  rewrite length_map, (heads_length L) by done. lia.
Qed.

Lemma interleaved_lookup (L : nat) channelBuffers (c j : nat) b :
  Forall (λ b, List.length b = L) channelBuffers →
  channelBuffers !! c = Some b → (j < L)%nat →
  interleaved L channelBuffers !! (j * List.length channelBuffers + c)%nat = b !! j.
Proof.
  revert channelBuffers j b. induction L as [|L IH]; intros bs j b Hall Hc Hj; [lia|].
  simpl.
  pose proof (heads_length L bs Hall) as Hlen.
  assert (Hcin : (c < List.length bs)%nat) by by eapply lookup_lt_Some.
  destruct j as [|j]; simpl.
  - rewrite lookup_app_l by lia. rewrite (heads_lookup L bs c b Hall Hc). by destruct b.
  - rewrite lookup_app_r by lia. rewrite Hlen.
    replace (List.length bs + j * List.length bs + c - List.length bs)%nat
      with (j * List.length (List.map (drop 1) bs) + c)%nat
      by (rewrite length_map; lia).
    rewrite (IH (List.map (drop 1) bs) j (drop 1 b)).
    + by rewrite lookup_drop.
    + by apply tails_length.
    + change (List.map (drop 1) bs) with (drop 1 <$> bs).
      by rewrite list_lookup_fmap, Hc.
    + lia.
Qed.

(** On buffers of equal length [L] that fit, the scratch buffer starts
    with the interleaving and keeps what it held beyond. *)
Lemma interleave_channels_interleaved (L : nat) channelBuffers scratch :
  Forall (λ b, List.length b = L) channelBuffers →
  (L * List.length channelBuffers ≤ List.length scratch)%nat →
  interleave_channels (List.length channelBuffers) 0 channelBuffers scratch
  = interleaved L channelBuffers ++ drop (L * List.length channelBuffers) scratch.
Proof.
  intros Hall Hfit.
  set (n := List.length channelBuffers) in *.
  apply list_eq. intros k.
  destruct (decide (k < L * n)%nat) as [Hlt|Hge].
  - rewrite lookup_app_l by (rewrite interleaved_length by done; fold n; lia).
    assert (Hn : (0 < n)%nat) by lia.
    pose proof (Nat.div_mod_eq k n) as Hdm.
    pose proof (Nat.mod_upper_bound k n ltac:(lia)) as Hmod.
    set (j := (k / n)%nat) in *. set (c := (k mod n)%nat) in *.
    assert (Hj : (j < L)%nat) by nia.
    destruct (lookup_lt_is_Some_2 channelBuffers c Hmod) as [b Hb].
    assert (Hlen : List.length b = L)
      by (eapply (proj1 (Forall_lookup _ _) Hall); eauto).
    destruct (lookup_lt_is_Some_2 b j ltac:(lia)) as [x Hx].
    replace k with (j * n + (0 + c))%nat by lia.
    rewrite (interleave_channels_written n 0 channelBuffers scratch c j b x);
      [|fold n; lia|done|done|lia].
    simpl. unfold n. rewrite (interleaved_lookup L channelBuffers c j b); done.
  - rewrite lookup_app_r by (rewrite interleaved_length by done; fold n; lia).
    rewrite interleaved_length by done. fold n.
    rewrite lookup_drop. replace (L * n + (k - L * n))%nat with k by lia.
    apply interleave_channels_other. intros c b j Hc Hj.
    assert (Hlen : List.length b = L)
      by (eapply (proj1 (Forall_lookup _ _) Hall); eauto).
    apply lookup_lt_Some in Hc. fold n in Hc. nia.
Qed.

(** [interleave] looks at the scratch buffer only. *)
Lemma interleave_with_pipeline w channelBuffers index input resampled output
    (h : native) t :
  interleave (with_pipeline w index input resampled output h t) channelBuffers
  = (fst (interleave w channelBuffers),
     with_pipeline (snd (interleave w channelBuffers)) index input resampled output h t).
Proof.
  unfold interleave. cbn [interleavedBuffers with_pipeline].
  destruct channelBuffers as [|b [|b' rest]]; [|done|];
    destruct (interleavedBuffers w); try done;
    match goal with |- context [if ?c then _ else _] => by destruct c end.
Qed.

End InterleaveFacts.

(** ** The log of a call *)

Section CallLogFacts.
Context {sample native : Type}.
Variable M : WasmModule sample native.
Implicit Types w : Worker sample native.
Implicit Types samples : list sample.
Implicit Types l suffix : list (event sample).

(** Every turn logs one of the four shapes. *)
Lemma encode_step_turn samples (i : Z) w c w' :
  encode_step M samples i w = (c, w') →
  ∃ l, trace w' = trace w ++ l ∧ turn_log l (thrown c).
Proof.
  unfold encode_step.
  destruct (_ <=? _).
  - destruct (_speex_resampler_process_interleaved_float M _ _ _ _ _ _)
      as [[err resampled] h1].
    destruct (Z.eqb_spec err RESAMPLER_ERR_SUCCESS) as [->|Herr]; simpl negb; cbv iota.
    + destruct (_opus_encode_float M _ _ _ _ _ _) as [[n output] h2].
      destruct (Z.ltb_spec n 0) as [Hneg|Hpos]; intros [= <- <-]; simpl;
        eexists; (split; [rewrite <- !app_assoc; reflexivity|]); simpl.
      * by constructor.
      * by constructor.
    + intros [= <- <-]. simpl.
      eexists. split; [rewrite <- !app_assoc; reflexivity|]. simpl. by constructor.
  - intros [= <- <-]. simpl. eexists. split; [reflexivity|]. constructor.
Qed.

Lemma loop_run_call_log samples (i : Z) w c w' :
  loop_run M samples i w c w' →
  ∃ suffix, trace w' = trace w ++ suffix ∧ call_log suffix (thrown c).
Proof.
  induction 1 as [i w Hge|i w i' w1 c w' Hlt Hstep Hrun IH|i w e w' Hlt Hstep].
  - exists []. rewrite app_nil_r. split; [done|constructor].
  - destruct (encode_step_turn _ _ _ _ _ Hstep) as (l & Hl & Hturn).
    destruct IH as (rest & Hrest & Hcall).
    exists (l ++ rest). split; [by rewrite Hrest, Hl, app_assoc|].
    by constructor.
  - destruct (encode_step_turn _ _ _ _ _ Hstep) as (l & Hl & Hturn).
    exists l. split; [done|]. by constructor.
Qed.

(** A call raises the resampling error exactly when a resampler call of
    its log failed, the encoding error exactly when an encoder call of its
    log failed, and nothing else. *)
Lemma turn_log_status l o :
  turn_log l o →
  (o = Some (Error "Resampling error.") ↔ existsb failed_resample l = true)
  ∧ (o = Some (Error "Opus encoding error.") ↔ existsb failed_encode l = true)
  ∧ (o = None ∨ o = Some (Error "Resampling error.")
     ∨ o = Some (Error "Opus encoding error.")).
Proof.
  destruct 1 as [chunk offset|chunk offset frame err Herr
                |chunk offset frame pcm n Hn|chunk offset frame pcm packet n d Hn];
    simpl; rewrite ?orb_false_r.
  - intuition congruence.
  - destruct (Z.eqb_spec err RESAMPLER_ERR_SUCCESS); [done|]. simpl.
    intuition congruence.
  - destruct (Z.ltb_spec n 0); [|lia]. intuition congruence.
  - destruct (Z.ltb_spec n 0); [lia|]. intuition congruence.
Qed.

Lemma call_log_status suffix o :
  call_log suffix o →
  (o = Some (Error "Resampling error.") ↔ existsb failed_resample suffix = true)
  ∧ (o = Some (Error "Opus encoding error.") ↔ existsb failed_encode suffix = true)
  ∧ (o = None ∨ o = Some (Error "Resampling error.")
     ∨ o = Some (Error "Opus encoding error.")).
Proof.
  induction 1 as [|l rest o Hturn Hcall IH|l e Hturn].
  - simpl. intuition congruence.
  - destruct (turn_log_status _ _ Hturn) as (HR & HE & _).
    destruct IH as (IHR & IHE & IHo).
    rewrite !existsb_app.
    assert (existsb failed_resample l = false) as ->.
    { destruct (existsb failed_resample l); [|done].
      destruct HR as [_ HR]. by specialize (HR eq_refl). }
    assert (existsb failed_encode l = false) as ->.
    { destruct (existsb failed_encode l); [|done].
      destruct HE as [_ HE]. by specialize (HE eq_refl). }
    done.
  - by apply turn_log_status.
Qed.

(** With the six resources live, a call uses live resources only and
    leaves the same six live. *)
Lemma turn_log_sound l o :
  turn_log l o →
  sound_from owned l = true ∧ live_from owned l = owned.
Proof. destruct 1; done. Qed.

Lemma call_log_sound suffix o :
  call_log suffix o →
  sound_from owned suffix = true ∧ live_from owned suffix = owned.
Proof.
  induction 1 as [|l rest o Hturn Hcall IH|l e Hturn].
  - done.
  - destruct (turn_log_sound _ _ Hturn) as [Hs Hl]. destruct IH as [IHs IHl].
    by rewrite sound_from_app, live_from_app, Hs, Hl.
  - by eapply turn_log_sound.
Qed.


End CallLogFacts.

(** ** encode and sequences of calls *)

Section EncodeFacts.
Context {sample native : Type}.
Variable M : WasmModule sample native.
Implicit Types w : Worker sample native.
Implicit Types samples : list sample.
Implicit Types buffers : list (list sample).
Implicit Types calls : list (list (list sample)).

(** [interleave] leaves the pipeline alone. *)
Lemma interleave_keeps w buffers r w1 :
  interleave w buffers = (r, w1) →
  inputBufferIndex w1 = inputBufferIndex w
  ∧ mInputBuffer w1 = mInputBuffer w
  ∧ trace w1 = trace w
  ∧ scratch_length w1 = scratch_length w.
Proof.
  assert (Hsome : ∀ scratch n ch,
    interleavedBuffers w = Some scratch →
    (Normal (Some (interleave_channels n ch buffers scratch)),
     with_interleavedBuffers w (Some (interleave_channels n ch buffers scratch)))
    = (r, w1) →
    inputBufferIndex w1 = inputBufferIndex w ∧ mInputBuffer w1 = mInputBuffer w
    ∧ trace w1 = trace w ∧ scratch_length w1 = scratch_length w).
  { intros scratch n ch Hs [= <- <-]. unfold scratch_length. rewrite Hs. simpl.
    by rewrite interleave_channels_length. }
  unfold interleave.
  destruct buffers as [|b [|b' rest]]; [|by intros [= <- <-]|];
    (destruct (interleavedBuffers w) as [scratch|] eqn:Hs;
     [by apply Hsome|]);
    match goal with |- context [if ?c then _ else _] => destruct c end;
    by intros [= <- <-].
Qed.

Lemma interleave_ready w buffers r w1 :
  interleave w buffers = (r, w1) →
  (ready w1 ↔ ready w) ∧ staged w1 = staged w ∧ capacity w1 = capacity w.
Proof.
  intros H. destruct (interleave_keeps _ _ _ _ H) as (Hi & Hb & _).
  unfold ready, staged, capacity. by rewrite Hi, Hb.
Qed.

(** The stream and the new scratch buffer depend on the old scratch
    buffer only. *)
Lemma interleave_scratch_only w w' buffers :
  interleavedBuffers w = interleavedBuffers w' →
  fst (interleave w buffers) = fst (interleave w' buffers)
  ∧ interleavedBuffers (snd (interleave w buffers))
    = interleavedBuffers (snd (interleave w' buffers)).
Proof.
  intros H. unfold interleave. rewrite <- H.
  destruct buffers as [|b [|b' rest]]; [|done|];
    destruct (interleavedBuffers w) as [scratch|] eqn:Hs; try done;
    match goal with |- context [if ?c then _ else _] => destruct c end;
    simpl; by rewrite <- H.
Qed.

Lemma streams_scratch_only w w' calls :
  interleavedBuffers w = interleavedBuffers w' → streams w calls = streams w' calls.
Proof.
  revert w w'. induction calls as [|buffers rest IH]; intros w w' H; [done|].
  simpl. destruct (interleave_scratch_only w w' buffers H) as [Hfst Hsnd].
  destruct (interleave w buffers) as [r w1], (interleave w' buffers) as [r' w1'].
  simpl in *. subst r'. destruct r as [[samples|]|e]; [|done..].
  f_equal. by apply IH.
Qed.

(** [encode] is the loop run on what [interleave] returns. *)
Lemma encode_stream fuel w buffers final samples w1 :
  interleave w buffers = (Normal (Some samples), w1) →
  encode M fuel w buffers final = encode_loop M fuel samples 0 w1.
Proof.
  intros H. unfold encode. rewrite H.
  destruct (encode_loop M fuel samples 0 w1) as [[[[]|e] w2]|]; [|done..].
  by destruct final.
Qed.

Lemma encode_cases fuel w buffers final c w' :
  encode M fuel w buffers final = Some (c, w') →
  (∃ samples w1, interleave w buffers = (Normal (Some samples), w1)
                 ∧ loop_run M samples 0 w1 c w')
  ∨ (c = Throw TypeError ∧ trace w' = trace w
     ∧ inputBufferIndex w' = inputBufferIndex w
     ∧ mInputBuffer w' = mInputBuffer w
     ∧ scratch_length w' = scratch_length w).
Proof.
  destruct (interleave w buffers) as [[[samples|]|e] w1] eqn:Hi.
  - rewrite (encode_stream _ _ _ _ _ _ Hi). intros Hloop. left.
    exists samples, w1. split; [done|]. by eapply encode_loop_run.
  - unfold encode. rewrite Hi. intros [= <- <-]. right.
    destruct (interleave_keeps _ _ _ _ Hi) as (? & ? & ? & ?). done.
  - unfold encode. rewrite Hi. intros [= <- <-]. right.
    destruct (interleave_keeps _ _ _ _ Hi) as (? & ? & ? & ?).
    split; [|done]. f_equal.
    revert Hi. unfold interleave.
    destruct buffers as [|b [|b' rest]]; [|done|];
      destruct (interleavedBuffers w); try done;
      match goal with |- context [if ?c then _ else _] => destruct c end; congruence.
Qed.

(** With a buffer that is not full, [encode] returns for every input once
    the fuel covers the stream. *)
Lemma encode_terminates fuel w buffers final :
  ready w →
  (∀ samples, fst (interleave w buffers) = Normal (Some samples) →
              (List.length samples ≤ fuel)%nat) →
  ∃ c w', encode M fuel w buffers final = Some (c, w').
Proof.
  intros Hready Hfuel.
  destruct (interleave w buffers) as [[[samples|]|e] w1] eqn:Hi.
  - rewrite (encode_stream _ _ _ _ _ _ Hi).
    apply encode_loop_terminates.
    + by apply (interleave_ready _ _ _ _ Hi).
    + done.
    + specialize (Hfuel samples eq_refl). unfold TypedArray.length. lia.
  - unfold encode. rewrite Hi. eauto.
  - unfold encode. rewrite Hi. eauto.
Qed.

(** What a call that returns does to the log and to the staging buffer. *)
Lemma encode_normal fuel w buffers final w' :
  ready w → encode M fuel w buffers final = Some (Normal tt, w') →
  ∃ samples suffix,
    fst (interleave w buffers) = Normal (Some samples)
    ∧ interleavedBuffers w' = interleavedBuffers (snd (interleave w buffers))
    ∧ trace w' = trace w ++ suffix
    ∧ ready w' ∧ capacity w' = capacity w
    ∧ stored suffix = samples
    ∧ staged w ++ samples = concat (frames suffix) ++ staged w'
    ∧ Forall (λ f, TypedArray.length f = capacity w) (frames suffix)
    ∧ cycles (codec_calls suffix) (frames suffix)
    ∧ call_log suffix None.
Proof.
  intros Hready Henc.
  destruct (encode_cases _ _ _ _ _ _ Henc) as [(samples & w1 & Hi & Hrun)|[? _]]; [|done].
  destruct (interleave_keeps _ _ _ _ Hi) as (_ & _ & Ht & _).
  destruct (interleave_ready _ _ _ _ Hi) as (Hr & Hst & Hcap).
  destruct (loop_run_spec M _ _ _ _ _ Hrun) as (suffix & Htr & Hs & Hall & Hcons & Hr' & Hstored & Hcyc);
    [by apply Hr|done|].
  destruct (loop_run_call_log M _ _ _ _ _ Hrun) as (suffix' & Htr' & Hlog).
  assert (suffix' = suffix) as -> by (rewrite Htr in Htr'; by apply app_inv_head in Htr').
  exists samples, suffix. rewrite Hi. simpl.
  destruct Hs as (_ & _ & _ & _ & _ & _ & _ & Hscratch & Hcap').
  rewrite drop_0 in Hstored.
  split; [done|]. split; [done|]. split; [by rewrite Htr, Ht|].
  split; [done|]. split; [congruence|]. split; [done|].
  split; [by rewrite <- Hst, <- Hstored|].
  split; [by rewrite <- Hcap|]. done.
Qed.

(** The cursor after any call, thrown or not. *)
Lemma encode_cursor fuel w buffers final c w' :
  ready w → encode M fuel w buffers final = Some (c, w') →
  ∃ suffix,
    trace w' = trace w ++ suffix
    ∧ capacity w' = capacity w
    ∧ scratch_length w' = scratch_length w
    ∧ cursor_invariant w'
    ∧ (thrown c = None → ready w')
    ∧ Forall (λ f, TypedArray.length f = capacity w) (frames suffix)
    ∧ call_log suffix (match c with Throw TypeError => None | _ => thrown c end).
Proof.
  intros Hready Henc.
  destruct (encode_cases _ _ _ _ _ _ Henc)
    as [(samples & w1 & Hi & Hrun)|(-> & Ht & Hidx & Hbuf & Hscr)].
  - destruct (interleave_keeps _ _ _ _ Hi) as (_ & _ & Ht & Hscr).
    destruct (interleave_ready _ _ _ _ Hi) as (Hr & Hst & Hcap).
    destruct (loop_run_spec M _ _ _ _ _ Hrun) as (suffix & Htr & Hs & Hall & Hcons & Hc);
      [by apply Hr|done|].
    destruct (loop_run_call_log M _ _ _ _ _ Hrun) as (suffix' & Htr' & Hlog).
    assert (suffix' = suffix) as -> by (rewrite Htr in Htr'; by apply app_inv_head in Htr').
    destruct Hs as (_ & _ & _ & _ & _ & _ & _ & Hscratch & Hcap').
    exists suffix. split; [by rewrite Htr, Ht|]. split; [congruence|].
    split; [unfold scratch_length in *; by rewrite Hscratch|].
    destruct c as [[]|e].
    + destruct Hc as (Hr' & _). split; [unfold cursor_invariant, ready in *; lia|].
      split; [done|]. split; [by rewrite <- Hcap|done].
    + destruct Hc as (Hfull & _ & cs & F & tail & _ & _ & _ & He).
      split; [unfold cursor_invariant, ready in *; lia|].
      split; [done|]. split; [by rewrite <- Hcap|].
      by destruct He as [[-> _]|[-> _]].
  - exists []. rewrite app_nil_r.
    assert (Hcap : capacity w' = capacity w) by (unfold capacity; by rewrite Hbuf).
    split; [done|]. split; [done|]. split; [done|].
    split; [unfold cursor_invariant, ready in *; lia|].
    split; [done|]. split; constructor.
Qed.

(** A sequence of calls that all return. *)
Lemma feed_normal fuel w calls w' :
  ready w → feed M fuel w calls = Some (Normal tt, w') →
  ∃ suffix,
    trace w' = trace w ++ suffix
    ∧ ready w' ∧ capacity w' = capacity w
    ∧ List.length (streams w calls) = List.length calls
    ∧ stored suffix = concat (streams w calls)
    ∧ staged w ++ concat (streams w calls) = concat (frames suffix) ++ staged w'
    ∧ Forall (λ f, TypedArray.length f = capacity w) (frames suffix)
    ∧ cycles (codec_calls suffix) (frames suffix).
Proof.
  revert w. induction calls as [|buffers rest IH]; intros w Hready; simpl.
  - intros [= <-]. exists []. rewrite !app_nil_r.
    repeat split; try done; try apply Hready; constructor.
  - destruct (encode M fuel w buffers false) as [[[[]|e] w1]|] eqn:Henc; [|done..].
    intros Hfeed.
    destruct (encode_normal _ _ _ _ _ Hready Henc)
      as (samples & s1 & Hi & Hscr & Ht1 & Hr1 & Hcap1 & Hst1 & Hcons1 & Hall1 & Hcyc1 & _).
    destruct (IH w1 Hr1 Hfeed) as (s2 & Ht2 & Hr2 & Hcap2 & Hlen & Hst2 & Hcons2 & Hall2 & Hcyc2).
    destruct (interleave w buffers) as [r wi] eqn:Hint. simpl in Hi, Hscr. subst r.
    rewrite (streams_scratch_only wi w1 rest) by done.
    exists (s1 ++ s2).
    split; [by rewrite Ht2, Ht1, app_assoc|]. split; [done|]. split; [congruence|].
    split; [simpl; by rewrite Hlen|].
    split; [simpl; by rewrite stored_app, Hst1, Hst2|].
    split.
    { simpl. rewrite frames_app, concat_app, app_assoc, Hcons1, <- !app_assoc.
      by rewrite Hcons2. }
    split; [rewrite frames_app; apply Forall_app; split; [done|by rewrite <- Hcap1]|].
    rewrite codec_calls_app, frames_app. by apply cycles_app.
Qed.

(** A sequence of calls, up to and including one that throws. *)
Lemma feed_cursor fuel w calls c w' :
  ready w → feed M fuel w calls = Some (c, w') →
  ∃ suffix,
    trace w' = trace w ++ suffix
    ∧ capacity w' = capacity w
    ∧ scratch_length w' = scratch_length w
    ∧ cursor_invariant w'
    ∧ (thrown c = None → ready w')
    ∧ Forall (λ f, TypedArray.length f = capacity w) (frames suffix)
    ∧ sound_from owned suffix = true ∧ live_from owned suffix = owned.
Proof.
  revert w. induction calls as [|buffers rest IH]; intros w Hready; simpl.
  - intros [= <- <-]. exists []. rewrite app_nil_r.
    repeat split; try done; try constructor; unfold ready in *; lia.
  - destruct (encode M fuel w buffers false) as [[c1 w1]|] eqn:Henc; [|done].
    destruct (encode_cursor _ _ _ _ _ _ Hready Henc)
      as (s1 & Ht1 & Hcap1 & Hscr1 & Hinv1 & Hr1 & Hall1 & Hlog1).
    destruct (call_log_sound _ _ Hlog1) as [Hs1 Hl1].
    destruct c1 as [[]|e].
    + intros Hfeed.
      destruct (IH w1 (Hr1 eq_refl) Hfeed)
        as (s2 & Ht2 & Hcap2 & Hscr2 & Hinv2 & Hr2 & Hall2 & Hs2 & Hl2).
      exists (s1 ++ s2).
      split; [by rewrite Ht2, Ht1, app_assoc|]. split; [congruence|].
      split; [congruence|]. split; [done|]. split; [done|].
      split; [rewrite frames_app; apply Forall_app; split; [done|by rewrite <- Hcap1]|].
      by rewrite sound_from_app, live_from_app, Hs1, Hl1.
    + intros [= <- <-]. exists s1. done.
Qed.

End EncodeFacts.

(** ** Totality of calls, the constructor and close *)

Section LifecycleFacts.
Context {sample native : Type}.
Variable zero : sample.
Variable M : WasmModule sample native.
Implicit Types w : Worker sample native.
Implicit Types samples : list sample.
Implicit Types buffers : list (list sample).
Implicit Types calls : list (list (list sample)).

(** A call on a buffer that is not full, with fuel for the whole stream. *)
Lemma encode_total fuel w buffers final samples :
  ready w →
  fst (interleave w buffers) = Normal (Some samples) →
  (List.length samples ≤ fuel)%nat →
  ∃ c w' suffix,
    encode M fuel w buffers final = Some (c, w')
    ∧ trace w' = trace w ++ suffix
    ∧ capacity w' = capacity w
    ∧ interleavedBuffers w' = interleavedBuffers (snd (interleave w buffers))
    ∧ call_log suffix (thrown c)
    ∧ Forall (λ f, TypedArray.length f = capacity w) (frames suffix)
    ∧ (∃ n, stored suffix = take n samples)
    ∧ staged w ++ stored suffix
      = concat (frames suffix) ++ match c with Normal _ => staged w' | Throw _ => [] end
    ∧ (thrown c = None →
       ready w' ∧ stored suffix = samples ∧ cycles (codec_calls suffix) (frames suffix)).
Proof.
  intros Hready Hi Hfuel.
  destruct (encode_terminates M fuel w buffers final Hready) as (c & w' & Henc).
  { intros s Hs. rewrite Hi in Hs. by injection Hs as <-. }
  exists c, w'.
  destruct (encode_cases _ _ _ _ _ _ _ Henc)
    as [(samples' & w1 & Hint & Hrun)|(-> & _)].
  2:{ exfalso. revert Henc. unfold encode.
      destruct (interleave w buffers) as [r wi]. simpl in Hi. subst r.
      destruct (encode_loop M fuel samples 0 wi) as [[[[]|e] w2]|] eqn:Hloop;
        try done; try by destruct final.
      intros [= -> ->].
      apply encode_loop_run in Hloop.
      destruct (loop_run_call_log M _ _ _ _ _ Hloop) as (s & _ & Hlog).
      destruct (call_log_status _ _ Hlog) as (_ & _ & [?|[?|?]]); done. }
  rewrite Hint in Hi |- *. simpl in Hi |- *. injection Hi as ->.
  destruct (interleave_keeps _ _ _ _ Hint) as (_ & _ & Ht & _).
  destruct (interleave_ready _ _ _ _ Hint) as (Hr & Hst & Hcap).
  destruct (loop_run_spec M _ _ _ _ _ Hrun) as (suffix & Htr & Hs & Hall & Hcons & Hc);
    [by apply Hr|done|].
  destruct (loop_run_call_log M _ _ _ _ _ Hrun) as (suffix' & Htr' & Hlog).
  assert (suffix' = suffix) as -> by (rewrite Htr in Htr'; by apply app_inv_head in Htr').
  destruct Hs as (_ & _ & _ & _ & _ & _ & _ & Hscratch & Hcap').
  exists suffix. split; [done|]. split; [by rewrite Htr, Ht|].
  split; [congruence|]. split; [done|]. split; [done|].
  split; [by rewrite <- Hcap|].
  split.
  { destruct c as [[]|e].
    - destruct Hc as (_ & -> & _). exists (List.length samples).
      by rewrite drop_0, firstn_all.
    - destruct Hc as (_ & [n ->] & _). exists n. by rewrite drop_0. }
  split; [by rewrite <- Hst|].
  intros Hnone. destruct c as [[]|e]; [|done].
  destruct Hc as (Hr' & -> & Hcyc). by rewrite drop_0.
Qed.

(** A sequence of calls with fuel for every stream. *)
Lemma feed_total fuel w calls :
  ready w →
  Forall (λ s : list sample, (List.length s ≤ fuel)%nat) (streams w calls) →
  ∃ c w', feed M fuel w calls = Some (c, w').
Proof.
  revert w. induction calls as [|buffers rest IH]; intros w Hready Hfuel; simpl.
  - eauto.
  - simpl in Hfuel.
    destruct (interleave w buffers) as [r wi] eqn:Hint.
    destruct (encode_terminates M fuel w buffers false Hready) as (c & w1 & Henc).
    { rewrite Hint. simpl. intros s ->. by inversion Hfuel. }
    rewrite Henc. destruct c as [[]|e]; [|eauto].
    destruct (encode_normal _ _ _ _ _ _ Hready Henc)
      as (samples & s1 & Hi & Hscr & _ & Hr1 & _).
    rewrite Hint in Hi, Hscr. simpl in Hi, Hscr. subst r.
    apply IH; [done|].
    rewrite <- (streams_scratch_only wi w1 rest) by done. by inversion Hfuel.
Qed.

(** The two initialisers: what they log, and when they throw. *)
Lemma OpusInitCodec_trace outRate chCount bitRate (h : native) t r h' t' :
  OpusInitCodec M outRate chCount bitRate h t = (r, h', t') →
  let err := snd (fst (_opus_encoder_create M outRate chCount OPUS_APPLICATION h)) in
  match r with
  | Normal _ =>
      err = OPUS_OK
      ∧ ∃ control,
          (control = [] ∨ control = [Acquire Temp; Release Temp])
          ∧ t' = t ++ [Acquire Temp; Acquire Encoder; Release Temp] ++ control
  | Throw e =>
      err ≠ OPUS_OK
      ∧ e = Error "Opus encodor initialization failed."
      ∧ t' = t ++ [Acquire Temp; Release Temp]
  end.
Proof.
  unfold OpusInitCodec, OpusSetOpusControl.
  destruct (_opus_encoder_create M _ _ _ _) as [[enc err] h1]. simpl.
  destruct (Z.eqb_spec err OPUS_OK) as [->|Herr]; simpl negb; cbv iota.
  - destruct bitRate as [b|]; [destruct (b =? 0)|]; intros [= <- <- <-];
      (split; [done|]).
    + exists []. split; [by left|done].
    + exists [Acquire Temp; Release Temp]. split; [by right|].
      by rewrite <- app_assoc.
    + exists []. split; [by left|done].
  - by intros [= <- <- <-].
Qed.

Lemma SpeexInitResampler_trace inputRate outputRate chCount (h : native) t r h' t' :
  SpeexInitResampler M inputRate outputRate chCount h t = (r, h', t') →
  let err := snd (fst (_speex_resampler_init M chCount inputRate outputRate
                         SPEEX_RESAMPLE_QUALITY h)) in
  match r with
  | Normal _ =>
      err = RESAMPLER_ERR_SUCCESS
      ∧ t' = t ++ [Acquire Temp; Acquire Resampler; Release Temp]
  | Throw e =>
      err ≠ RESAMPLER_ERR_SUCCESS
      ∧ e = Error "Initializing resampler failed."
      ∧ t' = t ++ [Acquire Temp; Release Temp]
  end.
Proof.
  unfold SpeexInitResampler.
  destruct (_speex_resampler_init M _ _ _ _ _) as [[res err] h1]. simpl.
  destruct (Z.eqb_spec err RESAMPLER_ERR_SUCCESS) as [->|Herr]; simpl negb; cbv iota;
    by intros [= <- <- <-].
Qed.

(** The log of a successful construction. *)
Lemma constructor_trace inputSampleRate channelCount bitsPerSecond serial
    (h : native) w :
  constructor zero M inputSampleRate channelCount bitsPerSecond serial h
  = Constructed w →
  ∃ control,
    (control = [] ∨ control = [Acquire Temp; Release Temp])
    ∧ trace w = [Acquire ContainerWriter; Acquire Temp; Acquire Encoder; Release Temp]
                ++ control
                ++ [Acquire Temp; Acquire Resampler; Release Temp;
                    Acquire InputBuffer; Acquire ResampledBuffer; Acquire OutputBuffer].
Proof.
  unfold constructor.
  destruct (WebMContainer_new M _ _ _ _) as [container h1].
  destruct (OpusInitCodec M _ _ _ _ _) as [[[enc|e] h2] t2] eqn:Hopus; [|done].
  destruct (SpeexInitResampler M _ _ _ _ _) as [[[res|e] h3] t3] eqn:Hspeex; [|done].
  intros [= <-]. simpl.
  apply OpusInitCodec_trace in Hopus. destruct Hopus as (_ & control & Hcontrol & ->).
  apply SpeexInitResampler_trace in Hspeex. destruct Hspeex as (_ & ->).
  exists control. split; [done|]. by rewrite <- !app_assoc.
Qed.

(** The fields of a freshly constructed worker. *)
Lemma constructor_fields inputSampleRate channelCount bitsPerSecond serial
    (h : native) w :
  constructor zero M inputSampleRate channelCount bitsPerSecond serial h
  = Constructed w →
  config_channelCount w = channelCount
  ∧ inputBufferIndex w = 0
  ∧ inputSamplesPerChannel w = inputSampleRate * OPUS_FRAME_SIZE / 1000
  ∧ mInputBuffer w
    = WasmFloat32Buffer.new zero (inputSamplesPerChannel w * channelCount)
  ∧ interleavedBuffers w
    = (if channelCount =? 1 then None
       else Some (replicate (Z.to_nat (BUFFER_LENGTH * channelCount)) zero)).
Proof.
  unfold constructor.
  destruct (WebMContainer_new M _ _ _ _) as [container h1].
  destruct (OpusInitCodec M _ _ _ _ _) as [[[enc|e] h2] t2]; [|done].
  destruct (SpeexInitResampler M _ _ _ _ _) as [[[res|e] h3] t3]; [|done].
  by intros [= <-].
Qed.

(** A fresh worker owns its six resources, and its staging buffer is
    empty. *)
Lemma constructor_ready inputSampleRate channelCount bitsPerSecond serial
    (h : native) w :
  constructor zero M inputSampleRate channelCount bitsPerSecond serial h
  = Constructed w →
  live (trace w) = owned ∧ sound (trace w) = true
  ∧ frames (trace w) = [] ∧ stored (trace w) = []
  ∧ staged w = []
  ∧ (0 < capacity w → ready w).
Proof.
  intros Hc.
  destruct (constructor_trace _ _ _ _ _ _ Hc) as (control & Hcontrol & Ht).
  destruct (constructor_fields _ _ _ _ _ _ Hc) as (_ & Hidx & _).
  rewrite Ht. unfold staged, ready. rewrite Hidx.
  destruct Hcontrol as [-> | ->]; repeat split; try done; lia.
Qed.


End LifecycleFacts.

(** ** Calls that match the chunking *)

Section ChunkedFacts.
Context {sample native : Type}.
Implicit Types w : Worker sample native.
Implicit Types buffers : list (list sample).
Implicit Types calls : list (list (list sample)).

Lemma interleaved_single (b : list sample) : interleaved (List.length b) [b] = b.
Proof. induction b as [|x b IH]; simpl; [done|]. f_equal. exact IH. Qed.

Lemma concat_equal_length (L : nat) buffers :
  Forall (λ b, List.length b = L) buffers →
  List.length (concat buffers) = (L * List.length buffers)%nat.
Proof. induction 1 as [|b bs Hb _ IH]; simpl; [lia|]. rewrite length_app. lia. Qed.

Lemma interleave_chunked (channelCount : Z) w buffers :
  scratch_sized channelCount w → chunked channelCount buffers →
  fst (interleave w buffers) = Normal (Some (expected_stream buffers))
  ∧ List.length (expected_stream buffers) = List.length (concat buffers).
Proof.
  unfold scratch_sized, scratch_length, chunked, expected_stream.
  intros Hscr [Hn Hlen].
  destruct (Z.eqb_spec channelCount 1) as [->|Hne].
  - destruct buffers as [|b [|b' rest]]; simpl in Hn; try lia.
    change (default [] (head [b])) with b.
    rewrite interleaved_single. simpl. by rewrite app_nil_r.
  - destruct Hlen as [?|Hall]; [done|].
    destruct (interleavedBuffers w) as [scratch|] eqn:Hs; [|done].
    simpl in Hscr. injection Hscr as Hscr.
    destruct buffers as [|b0 rest0].
    { simpl in Hn. subst channelCount. unfold interleave. rewrite Hs. simpl.
      destruct scratch; [done|]. simpl in Hscr. lia. }
    set (buffers := b0 :: rest0) in *.
    set (L := Z.to_nat BUFFER_LENGTH).
    assert (Hall' : Forall (λ b, List.length b = L) buffers).
    { eapply List.Forall_impl; [|exact Hall].
      unfold TypedArray.length, L. simpl. intros; lia. }
    assert (Hhead : List.length (default [] (head buffers)) = L)
      by (simpl; by inversion Hall').
    rewrite Hhead.
    assert (Hfit : List.length scratch = (L * List.length buffers)%nat)
      by (rewrite Hscr; unfold L; lia).
    split.
    + unfold interleave. rewrite Hs. unfold buffers at 1.
      destruct rest0 as [|b' rest]; [simpl in Hn; lia|].
      cbn [fst]. do 2 f_equal.
      rewrite (interleave_channels_interleaved L) by (done || lia).
      rewrite drop_ge by lia. by rewrite app_nil_r.
    + rewrite interleaved_length by done. by rewrite (concat_equal_length L).
Qed.

Lemma streams_chunked (channelCount : Z) w calls :
  scratch_sized channelCount w → Forall (chunked channelCount) calls →
  streams w calls = expected_stream <$> calls
  ∧ TypedArray.length (concat (streams w calls)) = fed calls.
Proof.
  revert w. induction calls as [|buffers rest IH]; intros w Hscr Hall; [done|].
  inversion Hall as [|? ? Hb Hrest]; subst.
  destruct (interleave_chunked channelCount w buffers Hscr Hb) as [Hi Hlen].
  simpl. destruct (interleave w buffers) as [r wi] eqn:Hint. simpl in Hi. subst r.
  destruct (IH wi) as [IH1 IH2]; [|done|].
  { unfold scratch_sized in *.
    destruct (interleave_keeps _ _ _ _ Hint) as (_ & _ & _ & ->). done. }
  split; [by rewrite IH1|].
  unfold fed, TypedArray.length in *. simpl.
  rewrite concat_app, !length_app, Hlen. lia.
Qed.

End ChunkedFacts.

(** ** A few more facts the main results share *)

Section SharedFacts.
Context {sample native : Type}.
Variable zero : sample.
Variable M : WasmModule sample native.
Implicit Types w : Worker sample native.
Implicit Types buffers : list (list sample).

(** Frames of equal length are the consecutive slices of their
    concatenation. *)
Lemma frames_slices (n : nat) (F : list (list sample)) rest (k : nat) frame :
  Forall (λ f, List.length f = n) F →
  F !! k = Some frame →
  frame = take n (drop (k * n) (concat F ++ rest)).
Proof.
  intros Hall. revert k. induction Hall as [|f F Hf _ IH]; intros k Hk; [done|].
  destruct k as [|k].
  - injection Hk as ->. rewrite Nat.mul_0_l, drop_0. cbn [concat].
    rewrite <- app_assoc. by rewrite take_app_length'.
  - cbn [concat]. rewrite <- app_assoc.
    replace (S k * n)%nat with (List.length f + k * n)%nat by lia.
    rewrite drop_app_add'; [|done]. by apply IH.
Qed.

Lemma staged_length w : ready w → TypedArray.length (staged w) = inputBufferIndex w.
Proof.
  unfold ready, staged, capacity, TypedArray.length, WasmFloat32Buffer.length.
  intros ?. rewrite length_take. lia.
Qed.

Lemma full_frames (cap : Z) (F : list (list sample)) :
  0 ≤ cap →
  Forall (λ f, TypedArray.length f = cap) F →
  Forall (λ f, List.length f = Z.to_nat cap) F
  ∧ TypedArray.length (concat F) = Z.of_nat (List.length F) * cap.
Proof.
  intros Hcap Hall.
  assert (Hall' : Forall (λ f, List.length f = Z.to_nat cap) F).
  { eapply List.Forall_impl; [|exact Hall]. unfold TypedArray.length. simpl. intros; lia. }
  split; [done|]. unfold TypedArray.length.
  rewrite (concat_equal_length (Z.to_nat cap)) by done. lia.
Qed.

(** The scratch buffer of a fresh worker has the size the constructor
    gives it, and the staging buffer the size of one frame. *)
Lemma constructor_sizes inputSampleRate channelCount bitsPerSecond serial
    (h : native) w :
  constructor zero M inputSampleRate channelCount bitsPerSecond serial h
  = Constructed w →
  scratch_sized channelCount w
  ∧ capacity w = Z.max 0 (inputSampleRate * OPUS_FRAME_SIZE / 1000 * channelCount).
Proof.
  intros Hc. destruct (constructor_fields _ _ _ _ _ _ _ _ Hc) as (_ & _ & Hin & Hbuf & Hscr).
  unfold scratch_sized, scratch_length, capacity, WasmFloat32Buffer.length.
  rewrite Hscr, Hbuf, Hin. unfold WasmFloat32Buffer.new. rewrite length_replicate.
  split; [|lia]. destruct (channelCount =? 1); [done|]. simpl.
  by rewrite length_replicate.
Qed.

(** With two channel buffers or more, [interleave] writes into the
    scratch buffer and returns it. *)
Lemma interleave_scratch w buffers scratch :
  interleavedBuffers w = Some scratch → List.length buffers ≠ 1%nat →
  interleave w buffers
  = (Normal (Some (interleave_channels (List.length buffers) 0 buffers scratch)),
     with_interleavedBuffers w
       (Some (interleave_channels (List.length buffers) 0 buffers scratch))).
Proof.
  intros Hs Hn. unfold interleave. rewrite Hs.
  by destruct buffers as [|b [|b' rest]].
Qed.

End SharedFacts.

(** ** What encode keeps *)

Section SetupFacts.
Context {sample native : Type}.
Variable zero : sample.
Variable M : WasmModule sample native.
Implicit Types w : Worker sample native.
Implicit Types samples : list sample.
Implicit Types buffers : list (list sample).
Implicit Types calls : list (list (list sample)).

Lemma same_codec_setup_refl w : same_codec_setup w w.
Proof. repeat split. Qed.

Lemma same_codec_setup_trans w1 w2 w3 :
  same_codec_setup w1 w2 → same_codec_setup w2 w3 → same_codec_setup w1 w3.
Proof. unfold same_codec_setup. intros H1 H2. intuition congruence. Qed.

Lemma with_pipeline_setup w index input resampled output (h : native) t :
  List.length input = List.length (mInputBuffer w) →
  same_codec_setup w (with_pipeline w index input resampled output h t).
Proof.
  intros Hlen. repeat split.
  unfold capacity, WasmFloat32Buffer.length. simpl. congruence.
Qed.

(** One turn, in any state: the log grows, the setup stays, and a frame
    is written with the frame size of the worker and the length the
    encoder returned, which is not negative. *)
Lemma encode_step_frame samples (i : Z) w c w' :
  encode_step M samples i w = (c, w') →
  same_codec_setup w w'
  ∧ ∃ l, trace w' = trace w ++ l
         ∧ Forall (written_with (outputSamplePerChannel w)) l.
Proof.
  unfold encode_step.
  set (input := WasmFloat32Buffer.set _ _ _).
  assert (Hlen : List.length input = List.length (mInputBuffer w))
    by apply set_length.
  destruct (_ <=? _).
  - destruct (_speex_resampler_process_interleaved_float M _ _ _ _ _ _)
      as [[err resampled] h1].
    destruct (negb (err =? RESAMPLER_ERR_SUCCESS)).
    + intros [= <- <-]. split; [by apply with_pipeline_setup|].
      eexists. split; [simpl; rewrite <- app_assoc; reflexivity|].
      repeat constructor.
    + destruct (_opus_encode_float M _ _ _ _ _ _) as [[n output] h2].
      destruct (Z.ltb_spec n 0) as [Hneg|Hpos]; intros [= <- <-];
        (split; [by apply with_pipeline_setup|]);
        eexists; (split; [simpl; rewrite <- !app_assoc; reflexivity|]);
        repeat constructor; done.
  - intros [= <- <-]. split; [by apply with_pipeline_setup|].
    eexists. split; [reflexivity|]. repeat constructor.
Qed.

Lemma loop_run_frame samples (i : Z) w c w' :
  loop_run M samples i w c w' →
  same_codec_setup w w'
  ∧ ∃ l, trace w' = trace w ++ l
         ∧ Forall (written_with (outputSamplePerChannel w)) l.
Proof.
  induction 1 as [i w Hge|i w i' w1 c w' Hlt Hstep Hrun IH|i w e w' Hlt Hstep].
  - split; [apply same_codec_setup_refl|]. exists []. by rewrite app_nil_r.
  - destruct (encode_step_frame _ _ _ _ _ Hstep) as (Hs1 & l1 & Ht1 & Hw1).
    destruct IH as (Hs2 & l2 & Ht2 & Hw2).
    split; [by eapply same_codec_setup_trans|].
    exists (l1 ++ l2). split; [by rewrite Ht2, Ht1, app_assoc|].
    apply Forall_app. split; [done|].
    destruct Hs1 as (_ & _ & _ & _ & _ & _ & <- & _). done.
  - by apply (encode_step_frame samples i w (Throw e) w').
Qed.

Lemma interleave_setup w buffers r w1 :
  interleave w buffers = (r, w1) → same_codec_setup w w1 ∧ heap w1 = heap w.
Proof.
  intros Hi.
  destruct (interleave_keeps _ _ _ _ Hi) as (_ & Hbuf & _ & Hscr).
  revert Hi. unfold interleave.
  destruct buffers as [|b [|b' rest]]; [|by intros [= <- <-]|];
    (destruct (interleavedBuffers w) as [scratch|];
     [intros [= <- <-]; by repeat split|]);
    match goal with |- context [if ?c then _ else _] => destruct c end;
    by intros [= <- <-].
Qed.

(** A call of [encode], in any state and with any completion. *)
Lemma encode_frame (fuel : nat) w buffers (final : bool) c w' :
  encode M fuel w buffers final = Some (c, w') →
  same_codec_setup w w'
  ∧ ∃ l, trace w' = trace w ++ l
         ∧ Forall (written_with (outputSamplePerChannel w)) l.
Proof.
  unfold encode.
  destruct (interleave w buffers) as [r w1] eqn:Hi.
  destruct (interleave_setup _ _ _ _ Hi) as [Hs1 _].
  destruct (interleave_keeps _ _ _ _ Hi) as (_ & _ & Ht1 & _).
  assert (Hnil : same_codec_setup w w1
                 ∧ ∃ l, trace w1 = trace w ++ l
                        ∧ Forall (written_with (outputSamplePerChannel w)) l).
  { split; [done|]. exists []. by rewrite app_nil_r. }
  destruct r as [[samples|]|e]; [|by intros [= <- <-]..].
  destruct (encode_loop M fuel samples 0 w1) as [[c2 w2]|] eqn:Hloop; [|done].
  intros Hres.
  assert (Hcw : (c2, w2) = (c, w')).
  { destruct c2 as [[]|e2]; [destruct final|]; congruence. }
  injection Hcw as -> ->.
  apply encode_loop_run in Hloop.
  destruct (loop_run_frame _ _ _ _ _ Hloop) as (Hs2 & l & Ht2 & Hw).
  split; [by eapply same_codec_setup_trans|].
  exists l. split; [by rewrite Ht2, Ht1|].
  destruct Hs1 as (_ & _ & _ & _ & _ & _ & <- & _). done.
Qed.

Lemma feed_frame (fuel : nat) w calls c w' :
  feed M fuel w calls = Some (c, w') →
  same_codec_setup w w'
  ∧ ∃ l, trace w' = trace w ++ l
         ∧ Forall (written_with (outputSamplePerChannel w)) l.
Proof.
  revert w. induction calls as [|buffers rest IH]; intros w; simpl.
  - intros [= <- <-]. split; [apply same_codec_setup_refl|].
    exists []. by rewrite app_nil_r.
  - destruct (encode M fuel w buffers false) as [[c1 w1]|] eqn:Henc; [|done].
    destruct (encode_frame _ _ _ _ _ _ Henc) as (Hs1 & l1 & Ht1 & Hw1).
    destruct c1 as [[]|e]; [|by intros [= <- <-]; eauto].
    intros Hfeed. destruct (IH _ Hfeed) as (Hs2 & l2 & Ht2 & Hw2).
    split; [by eapply same_codec_setup_trans|].
    exists (l1 ++ l2). split; [by rewrite Ht2, Ht1, app_assoc|].
    apply Forall_app. split; [done|].
    destruct Hs1 as (_ & _ & _ & _ & _ & _ & <- & _). done.
Qed.

(** The frame sizes and the buffers of a fresh worker. *)
Lemma constructor_buffers inputSampleRate channelCount bitsPerSecond serial
    (h : native) w :
  constructor zero M inputSampleRate channelCount bitsPerSecond serial h
  = Constructed w →
  config_inputSampleRate w = inputSampleRate
  ∧ config_channelCount w = channelCount
  ∧ inputSamplesPerChannel w = inputSampleRate * OPUS_FRAME_SIZE / 1000
  ∧ outputSamplePerChannel w = 960
  ∧ mInputBuffer w
    = replicate (Z.to_nat (inputSamplesPerChannel w * channelCount)) zero
  ∧ mResampledBuffer w = replicate (Z.to_nat (960 * channelCount)) zero
  ∧ mOutputBuffer w = replicate (Z.to_nat OPUS_OUTPUT_MAX_LENGTH) 0.
Proof.
  unfold constructor.
  destruct (WebMContainer_new M _ _ _ _) as [container h1].
  destruct (OpusInitCodec M _ _ _ _ _) as [[[enc|e] h2] t2]; [|done].
  destruct (SpeexInitResampler M _ _ _ _ _) as [[[res|e] h3] t3]; [|done].
  by intros [= <-].
Qed.

End SetupFacts.

(** ** Frames, retries and empty buffers *)

Section FrameFacts.
Context {sample native : Type}.
Variable M : WasmModule sample native.
Implicit Types w : Worker sample native.
Implicit Types samples : list sample.
Implicit Types buffers : list (list sample).
Implicit Types calls : list (list (list sample)).

(** A sequence splits in one way only into full frames and a shorter
    rest. *)
Lemma chunking_unique (n : nat) (F G : list (list sample)) r s :
  Forall (λ f, List.length f = n) F →
  Forall (λ f, List.length f = n) G →
  (List.length r < n)%nat → (List.length s < n)%nat →
  concat F ++ r = concat G ++ s →
  F = G ∧ r = s.
Proof.
  intros HF. revert G. induction HF as [|f F Hf _ IH]; intros G HG Hr Hs Heq.
  - destruct HG as [|g G Hg _]; [done|].
    simpl in Heq. apply (f_equal List.length) in Heq.
    rewrite !length_app in Heq. lia.
  - destruct HG as [|g G Hg HG].
    + simpl in Heq. apply (f_equal List.length) in Heq.
      rewrite !length_app in Heq. lia.
    + simpl in Heq. rewrite <- !app_assoc in Heq.
      apply app_inj_1 in Heq as [-> Heq]; [|congruence].
      destruct (IH G HG Hr Hs Heq) as [-> ->]. done.
Qed.

Lemma streams_single w calls :
  Forall (λ buffers, List.length buffers = 1%nat) calls →
  streams w calls = (@concat sample) <$> calls.
Proof.
  induction 1 as [|buffers rest Hb _ IH]; [done|].
  destruct buffers as [|b [|b' bs]]; try done.
  simpl. by rewrite IH, app_nil_r.
Qed.

Lemma concat_fmap_concat calls :
  concat ((@concat sample) <$> calls) = concat (concat calls).
Proof.
  induction calls as [|buffers rest IH]; [done|].
  cbn [fmap list_fmap concat]. rewrite concat_app. f_equal. exact IH.
Qed.

(** The first turn of a call on a full staging buffer: nothing is
    stored, and the buffer goes to the resampler as it is. *)
Lemma encode_step_retry samples w :
  inputBufferIndex w = capacity w →
  0 < TypedArray.length samples →
  ∃ c w1 err tail,
    encode_step M samples 0 w = (c, w1)
    ∧ trace w1
      = trace w ++ [Store [] (capacity w); Acquire Temp; Acquire Temp;
                    Resample (mInputBuffer w) err; Release Temp; Release Temp]
                ++ tail.
Proof.
  intros Hidx Hlen. unfold capacity, WasmFloat32Buffer.length in Hidx.
  unfold encode_step. rewrite Hidx.
  unfold WasmFloat32Buffer.length at 1.
  rewrite Z.sub_diag, Z.sub_0_r, Z.min_l by lia.
  assert (Hchunk : TypedArray.subarray samples 0 (0 + 0) = []).
  { rewrite subarray_in_range by lia. done. }
  rewrite Hchunk.
  assert (Hset : WasmFloat32Buffer.set (mInputBuffer w) []
                   (Z.of_nat (List.length (mInputBuffer w))) = mInputBuffer w).
  { rewrite set_in_range;
      [|lia|unfold TypedArray.length, WasmFloat32Buffer.length; simpl; lia].
    rewrite Nat2Z.id. simpl. rewrite Nat.add_0_r, drop_all, app_nil_r.
    by apply take_ge. }
  rewrite Hset. unfold WasmFloat32Buffer.length.
  rewrite Z.add_0_r, Z.leb_refl.
  destruct (_speex_resampler_process_interleaved_float M _ _ _ _ _ _)
    as [[err resampled] h1].
  unfold capacity, WasmFloat32Buffer.length.
  destruct (negb (err =? RESAMPLER_ERR_SUCCESS)).
  - eexists _, _, err, []. split; [reflexivity|]. simpl.
    by rewrite <- !app_assoc.
  - destruct (_opus_encode_float M _ _ _ _ _ _) as [[n output] h2].
    destruct (n <? 0); eexists _, _, err, _; (split; [reflexivity|]); simpl;
      rewrite <- !app_assoc; simpl; reflexivity.
Qed.

(** One turn on a staging buffer without cells: an empty frame goes
    through the codec, and the index into the samples does not move. *)
Lemma encode_step_zero samples (i : Z) w c w' :
  capacity w = 0 → inputBufferIndex w = 0 →
  0 ≤ i < TypedArray.length samples →
  encode_step M samples i w = (c, w') →
  capacity w' = 0
  ∧ (thrown c = None → c = Normal i ∧ inputBufferIndex w' = 0).
Proof.
  intros Hcap Hidx Hi.
  assert (Hbuf : mInputBuffer w = []).
  { unfold capacity, WasmFloat32Buffer.length in Hcap.
    destruct (mInputBuffer w); [done|simpl in Hcap; lia]. }
  unfold encode_step. rewrite Hidx, Hbuf.
  change (WasmFloat32Buffer.length []) with 0.
  rewrite Z.min_l by lia.
  assert (Hset : ∀ chunk, @WasmFloat32Buffer.set sample [] chunk 0 = []) by done.
  rewrite Hset. change (WasmFloat32Buffer.length []) with 0. simpl (0 <=? 0 + (0 - 0)).
  cbv iota.
  destruct (_speex_resampler_process_interleaved_float M _ _ _ _ _ _)
    as [[err resampled] h1].
  destruct (negb (err =? RESAMPLER_ERR_SUCCESS)).
  - by intros [= <- <-].
  - destruct (_opus_encode_float M _ _ _ _ _ _) as [[n output] h2].
    destruct (n <? 0); intros [= <- <-]; (split; [done|]); [done|].
    intros _. split; [f_equal; lia|done].
Qed.

Lemma encode_loop_zero (fuel : nat) samples (i : Z) w :
  capacity w = 0 → inputBufferIndex w = 0 →
  0 ≤ i < TypedArray.length samples →
  encode_loop M fuel samples i w = None
  ∨ ∃ e w', encode_loop M fuel samples i w = Some (Throw e, w').
Proof.
  revert w. induction fuel as [|fuel IH]; intros w Hcap Hidx Hi; simpl;
    destruct (Z.ltb_spec i (TypedArray.length samples)); try lia; [by left|].
  destruct (encode_step M samples i w) as [[i'|e] w1] eqn:Hstep; [|right; eauto].
  destruct (encode_step_zero _ _ _ _ _ Hcap Hidx Hi Hstep) as [Hcap1 Hn].
  destruct (Hn eq_refl) as [[= ->] Hidx1].
  by apply IH.
Qed.

End FrameFacts.

(** ** The staging buffer in any state *)

Section StagingFacts.
Context {sample native : Type}.
Variable M : WasmModule sample native.
Implicit Types w : Worker sample native.
Implicit Types samples : list sample.
Implicit Types t l : list (event sample).

Lemma fills_app (cap : Z) t1 t2 (p m f : list sample) :
  fills cap p t1 m → fills cap m t2 f → fills cap p (t1 ++ t2) f.
Proof.
  revert p. induction t1 as [|e t1 IH]; intros p; simpl.
  - by intros ->.
  - destruct e; simpl; intros H1 H2; intuition eauto.
Qed.

(** Every frame the resampler is given in a log that fills the buffer
    properly is full. *)
Lemma fills_frames (cap : Z) t (p f : list sample) :
  fills cap p t f → Forall (λ fr, TypedArray.length fr = cap) (frames t).
Proof.
  revert p. induction t as [|e t IH]; intros p; simpl; [constructor|].
  destruct e; simpl; intros H; try (by eapply IH).
  - destruct H as (_ & _ & H). by eapply IH.
  - destruct H as (-> & Hlen & H). constructor; [done|]. by eapply IH.
  - destruct H as (_ & H). by eapply IH.
Qed.

Lemma pending_failure_app t l :
  pending_failure (t ++ l)
  = match list.last (codec_calls l) with
    | Some e => failed_resample e || failed_encode e
    | None => pending_failure t
    end.
Proof.
  unfold pending_failure. rewrite codec_calls_app, last_app.
  by destruct (list.last (codec_calls l)).
Qed.

Lemma staged_length_any w :
  cursor_invariant w → TypedArray.length (staged w) = inputBufferIndex w.
Proof.
  unfold cursor_invariant, staged, capacity, TypedArray.length, WasmFloat32Buffer.length.
  intros ?. rewrite length_take. lia.
Qed.

(** One turn of the loop in any state that satisfies the cursor
    invariant: the turn copies what fits, hands the buffer to the codec
    exactly when that fills it, and empties it exactly when the cycle
    completes. *)
Lemma encode_step_any samples (i : Z) w :
  0 < capacity w → cursor_invariant w → 0 ≤ i < TypedArray.length samples →
  let k := Z.min (capacity w - inputBufferIndex w) (TypedArray.length samples - i) in
  let chunk := take (Z.to_nat k) (drop (Z.to_nat i) samples) in
  ∃ c w' rest,
    encode_step M samples i w = (c, w')
    ∧ 0 ≤ k
    ∧ same_setup w w'
    ∧ trace w' = trace w ++ Store chunk (inputBufferIndex w) :: rest
    ∧ stored rest = []
    ∧ fills (capacity w) (staged w) (Store chunk (inputBufferIndex w) :: rest) (staged w')
    ∧ staged w ++ chunk
      = concat (frames rest) ++ match c with Normal _ => staged w' | Throw _ => [] end
    ∧ ((inputBufferIndex w = capacity w ↔ pending_failure (trace w) = true) →
       (inputBufferIndex w' = capacity w ↔ pending_failure (trace w') = true))
    ∧ match c with
      | Normal i' => i' = i + k ∧ ready w'
      | Throw e => inputBufferIndex w' = capacity w
      end.
Proof.
  intros Hcap [Hlo Hhi] Hi k chunk.
  assert (Hk : 0 ≤ k ≤ capacity w - inputBufferIndex w) by (unfold k; lia).
  unfold capacity in *. unfold encode_step. fold k.
  destruct (chunk_in_range samples i k) as [Hchunk Hlen]; [lia|lia|unfold k; lia|].
  rewrite Hchunk. fold chunk in Hlen |- *.
  set (input := WasmFloat32Buffer.set (mInputBuffer w) chunk (inputBufferIndex w)).
  assert (Hinlen : List.length input = List.length (mInputBuffer w)) by apply set_length.
  assert (Hprefix : take (Z.to_nat (inputBufferIndex w + k)) input = staged w ++ chunk).
  { unfold input, staged. rewrite <- Hlen at 1. apply set_prefix; lia. }
  assert (Hsl : TypedArray.length (staged w) = inputBufferIndex w).
  { apply staged_length_any. unfold cursor_invariant, capacity. lia. }
  assert (Hsetup : ∀ index resampled output h t,
    same_setup w (with_pipeline w index input resampled output h t)).
  { intros. by apply same_setup_pipeline. }
  unfold WasmFloat32Buffer.length at 1. rewrite Hinlen.
  unfold WasmFloat32Buffer.length in *.
  destruct (Z.leb_spec (Z.of_nat (List.length (mInputBuffer w))) (inputBufferIndex w + k))
    as [Hfull|Hroom].
  - assert (Hidx : inputBufferIndex w + k = Z.of_nat (List.length (mInputBuffer w))) by lia.
    assert (Hinput : input = staged w ++ chunk).
    { rewrite <- Hprefix. symmetry. apply take_ge. lia. }
    assert (Hframe : TypedArray.length (staged w ++ chunk)
                     = Z.of_nat (List.length (mInputBuffer w))).
    { rewrite <- Hinput. unfold TypedArray.length. lia. }
    assert (Hall : staged
                     (with_pipeline w (inputBufferIndex w + k) input (mResampledBuffer w)
                        (mOutputBuffer w) (heap w) (trace w)) = staged w ++ chunk).
    { unfold staged. simpl. exact Hprefix. }
    destruct (_speex_resampler_process_interleaved_float M _ _ _ _ _ _)
      as [[err resampled] h1].
    destruct (Z.eqb_spec err RESAMPLER_ERR_SUCCESS) as [->|Herr]; simpl negb; cbv iota.
    2:{ eexists _, _, _. split; [reflexivity|]. split; [lia|]. split; [apply Hsetup|].
        split; [simpl; rewrite <- app_assoc; reflexivity|].
        split; [done|].
        split.
        { simpl. repeat split; try done; try lia; try exact Hprefix. }
        split; [simpl; by rewrite Hinput, !app_nil_r|].
        split.
        { intros _. simpl. rewrite pending_failure_app. simpl.
          destruct (Z.eqb_spec err RESAMPLER_ERR_SUCCESS); [done|]. simpl.
          split; [done|intros _; lia]. }
        simpl. lia. }
    destruct (_opus_encode_float M _ _ _ _ _ _) as [[packetLength output] h2].
    destruct (Z.ltb_spec packetLength 0) as [Hneg|Hpos].
    + eexists _, _, _. split; [reflexivity|]. split; [lia|]. split; [apply Hsetup|].
      split; [simpl; rewrite <- !app_assoc; reflexivity|].
      split; [done|].
      split.
      { simpl. repeat split; try done; try lia; try exact Hprefix. }
      split; [simpl; by rewrite Hinput, !app_nil_r|].
      split.
      { intros _. simpl. rewrite pending_failure_app. simpl.
        destruct (Z.ltb_spec packetLength 0); [|lia]. simpl.
        split; [done|intros _; lia]. }
      simpl. lia.
    + eexists _, _, _. split; [reflexivity|]. split; [lia|]. split; [apply Hsetup|].
      split; [simpl; rewrite <- !app_assoc; reflexivity|].
      split; [done|].
      split.
      { simpl. repeat split; try done; lia. }
      split; [simpl; by rewrite Hinput, !app_nil_r|].
      split.
      { intros _. simpl. rewrite pending_failure_app. simpl.
        split; [lia|done]. }
      split; [done|]. unfold ready, capacity, WasmFloat32Buffer.length. simpl. lia.
  - eexists _, _, _. split; [reflexivity|]. split; [lia|]. split; [apply Hsetup|].
    split; [reflexivity|]. split; [done|].
    split.
    { simpl. repeat split; try done; try lia; try exact Hprefix. }
    split; [simpl; unfold staged at 2; simpl; by rewrite Hprefix|].
    split.
    { intros Hiff. simpl. rewrite pending_failure_app. simpl.
      split; [lia|]. intros Hpf. apply Hiff in Hpf. lia. }
    split; [done|]. unfold ready, capacity, WasmFloat32Buffer.length. simpl. lia.
Qed.

End StagingFacts.

(** ** Calls in any state *)

Section AnyStateFacts.
Context {sample native : Type}.
Variable M : WasmModule sample native.
Implicit Types w : Worker sample native.
Implicit Types samples : list sample.
Implicit Types buffers : list (list sample).
Implicit Types calls : list (list (list sample)).

(** A run of the loop from any state that satisfies the cursor
    invariant. *)
Lemma loop_run_any samples (i : Z) w c w' :
  loop_run M samples i w c w' → 0 < capacity w → cursor_invariant w → 0 ≤ i →
  ∃ suffix,
    trace w' = trace w ++ suffix
    ∧ same_setup w w'
    ∧ cursor_invariant w'
    ∧ fills (capacity w) (staged w) suffix (staged w')
    ∧ staged w ++ stored suffix
      = concat (frames suffix) ++ match c with Normal _ => staged w' | Throw _ => [] end
    ∧ (∃ n, stored suffix = take n (drop (Z.to_nat i) samples))
    ∧ (thrown c = None → stored suffix = drop (Z.to_nat i) samples)
    ∧ (thrown c = None → ready w → ready w')
    ∧ (thrown c ≠ None → inputBufferIndex w' = capacity w)
    ∧ ((inputBufferIndex w = capacity w ↔ pending_failure (trace w) = true) →
       (inputBufferIndex w' = capacity w ↔ pending_failure (trace w') = true)).
Proof.
  induction 1 as [i w Hge|i w i' w1 c w' Hlt Hstep Hrun IH|i w e w' Hlt Hstep];
    intros Hcap Hinv Hi.
  - exists []. rewrite !app_nil_r. split; [done|]. split; [apply same_setup_refl|].
    split; [done|]. split; [done|]. split; [done|].
    split; [by exists 0%nat|].
    split.
    { intros _. symmetry. apply drop_ge. unfold TypedArray.length in Hge. lia. }
    done.
  - destruct (encode_step_any M samples i w Hcap Hinv (conj Hi Hlt))
      as (c1 & w1' & rest & Hstep' & Hk & Hsetup & Htrace & Hst & Hfills & Hcons & Hpf & Hc1).
    rewrite Hstep in Hstep'. injection Hstep' as <- <-.
    destruct Hc1 as (-> & Hready1).
    set (k := Z.min (capacity w - inputBufferIndex w) (TypedArray.length samples - i)) in *.
    set (chunk := take (Z.to_nat k) (drop (Z.to_nat i) samples)) in *.
    assert (Hcap1 : capacity w1 = capacity w) by apply Hsetup.
    destruct IH as (suffix & Ht & Hs & Hinv' & Hfills' & Hcons' & [n Hpre] & Hall & Hr & Hthrow & Hpf').
    { lia. }
    { unfold ready, cursor_invariant in *. lia. }
    { lia. }
    assert (Hdrop : drop (Z.to_nat (i + k)) samples
                    = drop (Z.to_nat k) (drop (Z.to_nat i) samples)).
    { rewrite drop_drop. f_equal. lia. }
    exists (Store chunk (inputBufferIndex w) :: rest ++ suffix).
    split; [rewrite Ht, Htrace, <- app_assoc; done|].
    split; [eapply same_setup_trans; eauto|].
    split; [done|].
    split.
    { change (Store chunk (inputBufferIndex w) :: rest ++ suffix)
        with ((Store chunk (inputBufferIndex w) :: rest) ++ suffix).
      eapply fills_app; [exact Hfills|]. by rewrite <- Hcap1. }
    split.
    { simpl. rewrite stored_app, frames_app, Hst, concat_app. simpl.
      rewrite app_assoc, Hcons, <- !app_assoc. f_equal. exact Hcons'. }
    split.
    { exists (Z.to_nat k + n)%nat. simpl. rewrite stored_app, Hst, Hpre, Hdrop.
      simpl. unfold chunk. by rewrite take_take_drop. }
    split.
    { intros Hnone. simpl. rewrite stored_app, Hst, (Hall Hnone), Hdrop. simpl.
      unfold chunk. apply take_drop. }
    split; [intros Hnone _; by apply Hr|].
    split; [intros Hsome; rewrite <- Hcap1; by apply Hthrow|].
    intros Hiff. rewrite <- Hcap1. apply Hpf'. rewrite Hcap1. by apply Hpf.
  - destruct (encode_step_any M samples i w Hcap Hinv (conj Hi Hlt))
      as (c1 & w1' & rest & Hstep' & Hk & Hsetup & Htrace & Hst & Hfills & Hcons & Hpf & Hc1).
    rewrite Hstep in Hstep'. injection Hstep' as <- <-.
    set (k := Z.min (capacity w - inputBufferIndex w) (TypedArray.length samples - i)) in *.
    set (chunk := take (Z.to_nat k) (drop (Z.to_nat i) samples)) in *.
    assert (Hcap1 : capacity w' = capacity w) by apply Hsetup.
    exists (Store chunk (inputBufferIndex w) :: rest).
    split; [done|]. split; [done|].
    split; [unfold cursor_invariant; lia|].
    split; [done|].
    split; [simpl; by rewrite Hst, app_nil_r|].
    split; [exists (Z.to_nat k); simpl; by rewrite Hst, app_nil_r|].
    split; [done|]. split; [done|]. split; [done|]. done.
Qed.

(** From any state that satisfies the cursor invariant the loop ends
    within one turn per sample that is left, and one more for a frame
    that waits in a full buffer. *)
Lemma encode_loop_terminates_any fuel samples (i : Z) w :
  0 < capacity w → cursor_invariant w → 0 ≤ i →
  (Z.to_nat (TypedArray.length samples - i) < fuel)%nat →
  ∃ c w', encode_loop M fuel samples i w = Some (c, w').
Proof.
  intros Hcap Hinv Hi Hfuel.
  destruct (Z.lt_ge_cases (inputBufferIndex w) (capacity w)) as [Hroom|Hfull].
  - apply encode_loop_terminates; [unfold ready, cursor_invariant in *; lia|done|lia].
  - destruct fuel as [|fuel]; [lia|]. simpl.
    destruct (Z.ltb_spec i (TypedArray.length samples)) as [Hlt|Hge]; [|eauto].
    destruct (encode_step_any M samples i w Hcap Hinv (conj Hi Hlt))
      as (c1 & w1 & rest & -> & Hk & Hsetup & _ & _ & _ & _ & _ & Hc1).
    destruct c1 as [i'|e]; [|eauto].
    destruct Hc1 as (-> & Hready1).
    apply encode_loop_terminates; [done|lia|].
    unfold cursor_invariant in Hinv. lia.
Qed.

(** [interleave] throws nothing but the TypeError, and returns a stream
    of the length [stream_length] gives. *)
Lemma interleave_throws w buffers e w1 :
  interleave w buffers = (Throw e, w1) → e = TypeError.
Proof.
  unfold interleave.
  destruct buffers as [|b [|b' rest]]; [|done|];
    destruct (interleavedBuffers w); try done;
    match goal with |- context [if ?c then _ else _] => destruct c end; congruence.
Qed.

Lemma stream_length_interleave w buffers samples :
  fst (interleave w buffers) = Normal (Some samples) →
  List.length samples = stream_length w buffers.
Proof.
  unfold interleave, stream_length, scratch_length.
  destruct buffers as [|b [|b' rest]]; [|by intros [= ->]|].
  - destruct (interleavedBuffers w) as [scratch|].
    + cbn [fst]. intros [= <-]. reflexivity.
    + match goal with |- context [if ?c then _ else _] => destruct c end; done.
  - destruct (interleavedBuffers w) as [scratch|].
    + cbn [fst]. intros [= <-]. rewrite ?interleave_channels_length, ?interleave_channel_length. reflexivity.
    + match goal with |- context [if ?c then _ else _] => destruct c end; done.
Qed.

Lemma stream_length_scratch w w' buffers :
  scratch_length w' = scratch_length w →
  stream_length w' buffers = stream_length w buffers.
Proof. unfold stream_length. by intros ->. Qed.

(** A reliable module makes no turn throw. *)
Lemma loop_run_reliable samples (i : Z) w c w' :
  reliable M → loop_run M samples i w c w' → c = Normal tt.
Proof.
  intros [Hres Henc].
  induction 1 as [i w Hge|i w i' w1 c w' Hlt Hstep Hrun IH|i w e w' Hlt Hstep];
    [done|done|].
  exfalso.
  destruct (encode_step_throws M samples i w) as (HR & HE & Hother).
  rewrite Hstep in HR, HE, Hother. simpl in HR, HE, Hother.
  destruct (Hother e eq_refl) as [-> | ->].
  - destruct HR as [HR _]. destruct (HR eq_refl) as [_ Hne]. apply Hne, Hres.
  - destruct HE as [HE _]. destruct (HE eq_refl) as (_ & _ & Hneg).
    specialize (Henc (encoder w)
      (snd (fst (_speex_resampler_process_interleaved_float M (resampler w)
         (WasmFloat32Buffer.set (mInputBuffer w)
            (TypedArray.subarray samples i
               (i + Z.min (capacity w - inputBufferIndex w) (TypedArray.length samples - i)))
            (inputBufferIndex w))
         (inputSamplesPerChannel w) (mResampledBuffer w) (outputSamplePerChannel w)
         (heap w))))
      (outputSamplePerChannel w) (mOutputBuffer w)
      (Z.of_nat (List.length (mOutputBuffer w)))
      (snd (_speex_resampler_process_interleaved_float M (resampler w)
         (WasmFloat32Buffer.set (mInputBuffer w)
            (TypedArray.subarray samples i
               (i + Z.min (capacity w - inputBufferIndex w) (TypedArray.length samples - i)))
            (inputBufferIndex w))
         (inputSamplesPerChannel w) (mResampledBuffer w) (outputSamplePerChannel w)
         (heap w)))).
    lia.
Qed.

Lemma encode_reliable (fuel : nat) w buffers (final : bool) c w' :
  reliable M → encode M fuel w buffers final = Some (c, w') →
  (c = Normal tt ∨ c = Throw TypeError)
  ∧ ∀ samples, fst (interleave w buffers) = Normal (Some samples) → c = Normal tt.
Proof.
  intros Hrel Henc.
  destruct (interleave w buffers) as [[[samples|]|e] w1] eqn:Hi.
  - rewrite (encode_stream _ _ _ _ _ _ _ Hi) in Henc.
    apply encode_loop_run in Henc.
    rewrite (loop_run_reliable _ _ _ _ _ Hrel Henc). split; [by left|done].
  - unfold encode in Henc. rewrite Hi in Henc. injection Henc as <- <-.
    split; [by right|done].
  - unfold encode in Henc. rewrite Hi in Henc. injection Henc as <- <-.
    rewrite (interleave_throws _ _ _ _ Hi). split; [by right|done].
Qed.

(** A call of [encode] from any state that satisfies the cursor
    invariant, with any completion. *)
Lemma encode_any (fuel : nat) w buffers (final : bool) c w' :
  0 < capacity w → cursor_invariant w →
  encode M fuel w buffers final = Some (c, w') →
  ∃ suffix,
    trace w' = trace w ++ suffix
    ∧ capacity w' = capacity w
    ∧ scratch_length w' = scratch_length w
    ∧ interleavedBuffers w' = interleavedBuffers (snd (interleave w buffers))
    ∧ cursor_invariant w'
    ∧ fills (capacity w) (staged w) suffix (staged w')
    ∧ staged w ++ stored suffix
      = concat (frames suffix)
        ++ match c with
           | Normal _ | Throw TypeError => staged w'
           | Throw _ => []
           end
    ∧ ((c = Normal tt ∨ c = Throw TypeError) → ready w → ready w')
    ∧ ((inputBufferIndex w = capacity w ↔ pending_failure (trace w) = true) →
       (inputBufferIndex w' = capacity w ↔ pending_failure (trace w') = true))
    ∧ (c = Normal tt
       ∨ (c = Throw TypeError ∧ suffix = []
          ∧ ∀ samples, fst (interleave w buffers) ≠ Normal (Some samples))
       ∨ ((c = Throw (Error "Resampling error.")
           ∨ c = Throw (Error "Opus encoding error."))
          ∧ inputBufferIndex w' = capacity w))
    ∧ ∀ samples, fst (interleave w buffers) = Normal (Some samples) →
        (∃ n, stored suffix = take n samples)
        ∧ (thrown c = None → stored suffix = samples).
Proof.
  intros Hcap Hinv Henc.
  destruct (interleave w buffers) as [[[samples|]|e] w1] eqn:Hi.
  - rewrite (encode_stream _ _ _ _ _ _ _ Hi) in Henc.
    apply encode_loop_run in Henc.
    destruct (interleave_keeps _ _ _ _ Hi) as (Hidx1 & Hbuf1 & Ht1 & Hscr1).
    assert (Hcap1 : capacity w1 = capacity w) by (unfold capacity; by rewrite Hbuf1).
    assert (Hst1 : staged w1 = staged w) by (unfold staged; by rewrite Hidx1, Hbuf1).
    destruct (loop_run_any _ _ _ _ _ Henc)
      as (suffix & Ht & Hs & Hinv' & Hfills & Hcons & Hpre & Hall & Hr & Hthrow & Hpf).
    { lia. }
    { unfold cursor_invariant in *. by rewrite Hidx1, Hcap1. }
    { done. }
    destruct (loop_run_call_log M _ _ _ _ _ Henc) as (suffix' & Ht' & Hlog).
    assert (suffix' = suffix) as -> by (rewrite Ht in Ht'; by apply app_inv_head in Ht').
    destruct (call_log_status _ _ Hlog) as (_ & _ & Ho).
    destruct Hs as (_ & _ & _ & _ & _ & _ & _ & Hscratch & Hcap').
    rewrite drop_0 in Hpre, Hall. rewrite Hcap1, Hst1, Hidx1, Ht1 in *.
    exists suffix. split; [done|]. split; [congruence|].
    split; [unfold scratch_length in *; by rewrite Hscratch|].
    split; [done|]. split; [done|]. split; [done|].
    split.
    { destruct c as [[]|[m|]]; try done. by destruct Ho as [?|[?|?]]. }
    split.
    { intros Hc Hready. apply Hr.
      - destruct Hc as [-> | ->]; [done|]. by destruct Ho as [?|[?|?]].
      - unfold ready in *. by rewrite Hidx1, Hcap1. }
    split; [done|].
    split.
    { destruct c as [[]|e]; [by left|]. right. right.
      split; [|by apply Hthrow].
      simpl in Ho. destruct Ho as [?|[[= ->]|[= ->]]]; [done|by left|by right]. }
    intros samples' [= <-]. done.
  - unfold encode in Henc. rewrite Hi in Henc. injection Henc as <- <-.
    destruct (interleave_keeps _ _ _ _ Hi) as (Hidx1 & Hbuf1 & Ht1 & Hscr1).
    assert (Hcap1 : capacity w1 = capacity w) by (unfold capacity; by rewrite Hbuf1).
    assert (Hst1 : staged w1 = staged w) by (unfold staged; by rewrite Hidx1, Hbuf1).
    exists []. rewrite !app_nil_r, Hidx1, Hst1, Ht1, Hcap1.
    split; [done|]. split; [done|]. split; [done|]. split; [done|].
    split; [unfold cursor_invariant in *; by rewrite Hidx1, Hcap1|].
    split; [done|]. split; [done|].
    split; [intros _ Hr; unfold ready in *; by rewrite Hidx1, Hcap1|].
    split; [done|].
    split; [right; left; split; [done|split; [done|]]; by intros s|].
    by intros s.
  - unfold encode in Henc. rewrite Hi in Henc. injection Henc as <- <-.
    rewrite (interleave_throws _ _ _ _ Hi).
    destruct (interleave_keeps _ _ _ _ Hi) as (Hidx1 & Hbuf1 & Ht1 & Hscr1).
    assert (Hcap1 : capacity w1 = capacity w) by (unfold capacity; by rewrite Hbuf1).
    assert (Hst1 : staged w1 = staged w) by (unfold staged; by rewrite Hidx1, Hbuf1).
    exists []. rewrite !app_nil_r, Hidx1, Hst1, Ht1, Hcap1.
    split; [done|]. split; [done|]. split; [done|]. split; [done|].
    split; [unfold cursor_invariant in *; by rewrite Hidx1, Hcap1|].
    split; [done|]. split; [done|].
    split; [intros _ Hr; unfold ready in *; by rewrite Hidx1, Hcap1|].
    split; [done|].
    split; [right; left; split; [done|split; [done|]]; by intros s|].
    by intros s.
Qed.

(** From any state that satisfies the cursor invariant, [encode] returns
    a result once the fuel exceeds the length of the stream. *)
Lemma encode_any_total (fuel : nat) w buffers (final : bool) :
  0 < capacity w → cursor_invariant w →
  (stream_length w buffers < fuel)%nat →
  ∃ c w', encode M fuel w buffers final = Some (c, w').
Proof.
  intros Hcap Hinv Hfuel.
  destruct (interleave w buffers) as [[[samples|]|e] w1] eqn:Hi.
  - rewrite (encode_stream _ _ _ _ _ _ _ Hi).
    destruct (interleave_keeps _ _ _ _ Hi) as (Hidx1 & Hbuf1 & _).
    assert (Hcap1 : capacity w1 = capacity w) by (unfold capacity; by rewrite Hbuf1).
    apply encode_loop_terminates_any.
    + lia.
    + unfold cursor_invariant in *. by rewrite Hidx1, Hcap1.
    + done.
    + rewrite <- (stream_length_interleave w buffers samples) in Hfuel by by rewrite Hi.
      unfold TypedArray.length. lia.
  - unfold encode. rewrite Hi. eauto.
  - unfold encode. rewrite Hi. eauto.
Qed.

End AnyStateFacts.

(** ** Sequences of calls that go on after an error *)

Section SequenceFacts.
Context {sample native : Type}.
Variable zero : sample.
Variable M : WasmModule sample native.
Implicit Types w : Worker sample native.
Implicit Types samples : list sample.
Implicit Types buffers : list (list sample).
Implicit Types calls : list (list (list sample)).

(** For a sample rate that is a multiple of 50 Hz the staging buffer
    holds exactly one frame of 20 ms: 50 of them make a second of input on
    every channel. *)
Lemma constructor_capacity inputSampleRate channelCount bitsPerSecond serial
    (h : native) w :
  constructor zero M inputSampleRate channelCount bitsPerSecond serial h
  = Constructed w →
  (50 | inputSampleRate) → 0 < inputSampleRate → 0 < channelCount →
  capacity w * 50 = inputSampleRate * channelCount ∧ 0 < capacity w.
Proof.
  intros Hc [k ->] Hrate Hch.
  destruct (constructor_sizes _ _ _ _ _ _ _ _ Hc) as [_ Hcap].
  assert (Hk : k * 50 * OPUS_FRAME_SIZE / 1000 = k).
  { unfold OPUS_FRAME_SIZE. replace (k * 50 * 20) with (k * 1000) by lia.
    by apply Z.div_mul. }
  rewrite Hk in Hcap. nia.
Qed.

(** A fresh worker satisfies the invariant of the staging buffer. *)
Lemma constructor_staging inputSampleRate channelCount bitsPerSecond serial
    (h : native) w :
  constructor zero M inputSampleRate channelCount bitsPerSecond serial h
  = Constructed w →
  0 < capacity w → staging_invariant w.
Proof.
  intros Hc Hcap.
  destruct (constructor_trace _ _ _ _ _ _ _ _ Hc) as (control & Hcontrol & Ht).
  destruct (constructor_ready _ _ _ _ _ _ _ _ Hc) as (_ & _ & _ & _ & Hst & _).
  destruct (constructor_fields _ _ _ _ _ _ _ _ Hc) as (_ & Hidx & _).
  unfold staging_invariant, cursor_invariant. rewrite Hst, Ht, Hidx.
  destruct Hcontrol as [-> | ->]; (split; [lia|]); (split; [done|]);
    (split; [lia|done]).
Qed.

(** The invariant of the staging buffer holds after every sequence of
    calls, whatever their completions. *)
Lemma feed_on_any (fuel : nat) w calls cs w' :
  feed_on M fuel w calls = Some (cs, w') →
  0 < capacity w → staging_invariant w →
  capacity w' = capacity w
  ∧ scratch_length w' = scratch_length w
  ∧ staging_invariant w'
  ∧ List.length cs = List.length calls.
Proof.
  revert w cs. induction calls as [|buffers rest IH]; intros w cs; simpl.
  - by intros [= <- <-].
  - destruct (encode M fuel w buffers false) as [[c1 w1]|] eqn:Henc; [|done].
    destruct (feed_on M fuel w1 rest) as [[cs' w2]|] eqn:Hrest; [|done].
    intros [= <- <-] Hcap (Hinv & Hfills & Hpf).
    destruct (encode_any M _ _ _ _ _ _ Hcap Hinv Henc)
      as (suffix & Ht & Hcap1 & Hscr1 & _ & Hinv1 & Hfills1 & _ & _ & Hpf1 & _).
    destruct (IH w1 cs' Hrest) as (Hcap2 & Hscr2 & Hinv2 & Hlen).
    { lia. }
    { split; [done|]. split.
      - rewrite Ht, Hcap1. by eapply fills_app.
      - rewrite Hcap1. by apply Hpf1. }
    split; [congruence|]. split; [congruence|]. split; [done|].
    simpl. by rewrite Hlen.
Qed.

(** Every call of a sequence returns a result once the fuel exceeds the
    length of every stream. *)
Lemma feed_on_total (fuel : nat) w calls :
  0 < capacity w → staging_invariant w →
  Forall (λ buffers, (stream_length w buffers < fuel)%nat) calls →
  ∃ cs w', feed_on M fuel w calls = Some (cs, w').
Proof.
  revert w. induction calls as [|buffers rest IH]; intros w Hcap Hst Hfuel; simpl.
  - eauto.
  - inversion Hfuel as [|? ? Hb Hrest]; subst.
    destruct (encode_any_total M fuel w buffers false Hcap (proj1 Hst) Hb)
      as (c1 & w1 & Henc).
    rewrite Henc.
    assert (Hone : feed_on M fuel w [buffers] = Some ([c1], w1))
      by (simpl; by rewrite Henc).
    destruct (feed_on_any _ _ _ _ _ Hone Hcap Hst) as (Hcap1 & Hscr1 & Hst1 & _).
    destruct (IH w1) as (cs & w2 & ->); [lia|done| |eauto].
    eapply List.Forall_impl; [|exact Hrest].
    intros b Hlt. simpl in Hlt. by rewrite (stream_length_scratch w w1 b Hscr1).
Qed.

(** While no call throws a codec error the buffer is never left full,
    and everything stored is the frames handed over followed by what is
    staged. *)
Lemma feed_on_quiet (fuel : nat) w calls cs w' :
  feed_on M fuel w calls = Some (cs, w') →
  0 < capacity w → ready w →
  stored (trace w) = concat (frames (trace w)) ++ staged w →
  Forall (λ c, c = Normal tt ∨ c = Throw TypeError) cs →
  ready w' ∧ stored (trace w') = concat (frames (trace w')) ++ staged w'.
Proof.
  revert w cs. induction calls as [|buffers rest IH]; intros w cs; simpl.
  - by intros [= <- <-].
  - destruct (encode M fuel w buffers false) as [[c1 w1]|] eqn:Henc; [|done].
    destruct (feed_on M fuel w1 rest) as [[cs' w2]|] eqn:Hrest; [|done].
    intros [= <- <-] Hcap Hready Hcons Hall.
    inversion Hall as [|? ? Hc1 Hcs]; subst.
    assert (Hinv : cursor_invariant w) by (unfold ready, cursor_invariant in *; lia).
    destruct (encode_any M _ _ _ _ _ _ Hcap Hinv Henc)
      as (suffix & Ht & Hcap1 & _ & _ & _ & _ & Hcons1 & Hr1 & _).
    apply (IH w1 cs' Hrest); [lia|by apply Hr1| |done].
    rewrite Ht, stored_app, frames_app, concat_app, Hcons, <- !app_assoc.
    f_equal. rewrite Hcons1. by destruct Hc1 as [-> | ->].
Qed.

Lemma feed_on_reliable (fuel : nat) w calls cs w' :
  reliable M → feed_on M fuel w calls = Some (cs, w') →
  Forall (λ c, c = Normal tt ∨ c = Throw TypeError) cs.
Proof.
  intros Hrel. revert w cs. induction calls as [|buffers rest IH]; intros w cs; simpl.
  - intros [= <- <-]. constructor.
  - destruct (encode M fuel w buffers false) as [[c1 w1]|] eqn:Henc; [|done].
    destruct (feed_on M fuel w1 rest) as [[cs' w2]|] eqn:Hrest; [|done].
    intros [= <- <-]. constructor; [|by eapply IH].
    by destruct (encode_reliable M _ _ _ _ _ _ Hrel Henc).
Qed.

(** With a reliable module a sequence of calls that match the chunking
    returns. *)
Lemma feed_reliable (fuel : nat) (channelCount : Z) w calls c w' :
  reliable M → scratch_sized channelCount w → Forall (chunked channelCount) calls →
  feed M fuel w calls = Some (c, w') → c = Normal tt.
Proof.
  intros Hrel. revert w. induction calls as [|buffers rest IH]; intros w Hscr Hall; simpl.
  - by intros [= <- <-].
  - inversion Hall as [|? ? Hb Hrest]; subst.
    destruct (encode M fuel w buffers false) as [[c1 w1]|] eqn:Henc; [|done].
    destruct (interleave_chunked channelCount w buffers Hscr Hb) as [Hi _].
    destruct (encode_reliable M _ _ _ _ _ _ Hrel Henc) as [_ Hc1].
    rewrite (Hc1 _ Hi).
    apply IH; [|done].
    destruct (encode_frame M _ _ _ _ _ _ Henc) as [(_ & _ & _ & _ & _ & _ & _ & _ & Hlen) _].
    unfold scratch_sized in *. by rewrite Hlen.
Qed.

Lemma feed_reliable_any (fuel : nat) w calls c w' :
  reliable M → feed M fuel w calls = Some (c, w') →
  c = Normal tt ∨ c = Throw TypeError.
Proof.
  intros Hrel. revert w. induction calls as [|buffers rest IH]; intros w; simpl.
  - intros [= <- <-]. by left.
  - destruct (encode M fuel w buffers false) as [[c1 w1]|] eqn:Henc; [|done].
    destruct (encode_reliable M _ _ _ _ _ _ Hrel Henc) as [[-> | ->] _].
    + apply IH.
    + intros [= <- <-]. by right.
Qed.


(** A call of [encode] in any state: with the six resources live it uses
    live resources only and leaves the same six live. *)
Lemma encode_log_sound (fuel : nat) w buffers (final : bool) r w' :
  encode M fuel w buffers final = Some (r, w') →
  ∃ suffix,
    trace w' = trace w ++ suffix
    ∧ sound_from owned suffix = true ∧ live_from owned suffix = owned
    ∧ call_log suffix (match r with Throw TypeError => None | _ => thrown r end).
Proof.
  intros Henc.
  destruct (encode_cases _ _ _ _ _ _ _ Henc)
    as [(samples & w1 & Hi & Hrun)|(-> & Ht & _)].
  - destruct (interleave_keeps _ _ _ _ Hi) as (_ & _ & Ht1 & _).
    destruct (loop_run_call_log M _ _ _ _ _ Hrun) as (suffix & Ht & Hlog).
    exists suffix. split; [by rewrite Ht, Ht1|].
    destruct (call_log_sound _ _ Hlog) as [Hs Hl].
    split; [done|]. split; [done|].
    destruct (call_log_status _ _ Hlog) as (_ & _ & Ho).
    destruct r as [[]|[m|]]; try done. by destruct Ho as [?|[?|?]].
  - exists []. rewrite app_nil_r. repeat split; try done. constructor.
Qed.




End SequenceFacts.

(** ** What is written to the container *)

Section WrittenFacts.
Context {sample native : Type}.
Variable M : WasmModule sample native.
Implicit Types w : Worker sample native.
Implicit Types samples : list sample.


End WrittenFacts.

(** * The properties of the specification *)

Section Properties.
Context {sample native : Type}.
Variable zero : sample.
Variable M : WasmModule sample native.
Implicit Types w : Worker sample native.
Implicit Types samples : list sample.
Implicit Types buffers : list (list sample).
Implicit Types calls : list (list (list sample)).

(** C1 (as amended).  Sample conservation holds for the streams that
    [interleave] hands to the staging loop.  The worker is constructed
    with a positive channel count and a positive sample rate that is a
    multiple of 50 Hz, so that a frame of 20 ms is a whole number of
    samples and the capacity is sample rate × channel count / 50.  Every
    sequence of [encode] calls that return then leaves total stream
    length = flushes × capacity + cursor, the flushed frames followed by
    the staged remainder are exactly the streams in order, every flushed
    frame is full, and the remainder is shorter than the capacity.  The
    streams are the caller's samples, so that the count of the samples
    fed in obeys the same equation, when every call brings one buffer per
    channel and, for more than one channel, [BUFFER_LENGTH] samples per
    buffer.  The calls do return when the codec never fails: with a
    reliable module only the TypeError of a missing scratch buffer can
    end the sequence, and calls that match the chunking never raise
    it. *)
Theorem sample_conservation inputSampleRate channelCount bitsPerSecond serial
    (h : native) w0 (fuel : nat) calls :
  constructor zero M inputSampleRate channelCount bitsPerSecond serial h
  = Constructed w0 →
  (50 | inputSampleRate) → 0 < inputSampleRate → 0 < channelCount →
  Forall (λ s : list sample, (List.length s ≤ fuel)%nat) (streams w0 calls) →
  capacity w0 * 50 = inputSampleRate * channelCount
  ∧ ∃ c w,
      feed M fuel w0 calls = Some (c, w)
      ∧ (thrown c = None →
         let flushes := Z.of_nat (List.length (frames (trace w))) in
         TypedArray.length (concat (streams w0 calls))
         = flushes * capacity w0 + inputBufferIndex w
         ∧ concat (streams w0 calls) = concat (frames (trace w)) ++ staged w
         ∧ Forall (λ f, TypedArray.length f = capacity w0) (frames (trace w))
         ∧ 0 ≤ inputBufferIndex w < capacity w0
         ∧ (Forall (chunked channelCount) calls →
            streams w0 calls = expected_stream <$> calls
            ∧ fed calls = flushes * capacity w0 + inputBufferIndex w))
      ∧ (reliable M → c = Normal tt ∨ c = Throw TypeError)
      ∧ (reliable M → Forall (chunked channelCount) calls → c = Normal tt).
Proof.
  intros Hc Hdiv Hrate Hch Hfuel.
  destruct (constructor_capacity _ _ _ _ _ _ _ _ Hc Hdiv Hrate Hch) as [Hcap50 Hcap].
  split; [done|].
  destruct (constructor_ready _ _ _ _ _ _ _ _ Hc) as (_ & _ & Hfr0 & _ & Hst0 & Hready).
  specialize (Hready Hcap).
  destruct (constructor_sizes _ _ _ _ _ _ _ _ Hc) as [Hsized _].
  destruct (feed_total M fuel w0 calls Hready Hfuel) as (c & w & Hfeed).
  exists c, w. split; [done|].
  split; [|split; [intros Hrel; by eapply feed_reliable_any
                  |intros Hrel Hchunked; by eapply feed_reliable]].
  intros Hnone.
  destruct c as [[]|e]; [|done].
  destruct (feed_normal M _ _ _ _ Hready Hfeed)
    as (suffix & Ht & Hr & Hcap' & _ & _ & Hcons & Hall & _).
  rewrite Hst0 in Hcons. simpl in Hcons.
  assert (Hframes : frames (trace w) = frames suffix)
    by (by rewrite Ht, frames_app, Hfr0).
  rewrite Hframes.
  destruct (full_frames (capacity w0) (frames suffix)) as [_ Hlen]; [lia|done|].
  assert (Hcount : TypedArray.length (concat (streams w0 calls))
                   = Z.of_nat (List.length (frames suffix)) * capacity w0
                     + inputBufferIndex w).
  { rewrite Hcons. rewrite <- (staged_length w Hr), <- Hlen.
    unfold TypedArray.length. rewrite length_app. lia. }
  split; [done|]. split; [done|]. split; [done|].
  split; [unfold ready in Hr; lia|].
  intros Hchunked.
  destruct (streams_chunked channelCount w0 calls Hsized Hchunked) as [Hs Hfed].
  split; [done|]. by rewrite <- Hfed.
Qed.

(** C2.  A worker is constructed with more than one channel (and a
    positive sample rate that is a multiple of 50 Hz, for a whole number
    of samples per frame).  In every state it reaches, whatever the calls
    before returned or threw, a call with one buffer per channel hands
    the whole scratch buffer of [BUFFER_LENGTH] × channelCount cells to
    the staging loop, whatever the length of the buffers: cells beyond
    [L] × channelCount keep what earlier calls left there, and samples at
    an index of [BUFFER_LENGTH] or more in their channel are dropped.  The
    call stores a prefix of that buffer, which together with what was
    staged makes up the full frames it hands to the resampler and, when
    it returns, what it leaves staged; a call that returns has stored the
    whole buffer.  It fails to return only with a codec error, the failed
    codec call being the last of the log; with a reliable module it
    returns. *)
Theorem interleave_returns_whole_scratch inputSampleRate channelCount bitsPerSecond
    serial (h : native) w0 (fuel0 : nat) calls cs w buffers (final : bool) (fuel : nat) :
  constructor zero M inputSampleRate channelCount bitsPerSecond serial h
  = Constructed w0 →
  (50 | inputSampleRate) → 0 < inputSampleRate → 1 < channelCount →
  feed_on M fuel0 w0 calls = Some (cs, w) →
  Z.of_nat (List.length buffers) = channelCount →
  (Z.to_nat (BUFFER_LENGTH * channelCount) < fuel)%nat →
  ∃ scratch r c w' suffix,
    interleavedBuffers w = Some scratch
    ∧ fst (interleave w buffers) = Normal (Some r)
    ∧ TypedArray.length r = BUFFER_LENGTH * channelCount
    ∧ (∀ L k : nat,
         Forall (λ b, (List.length b ≤ L)%nat) buffers →
         (L * List.length buffers ≤ k)%nat →
         r !! k = scratch !! k)
    ∧ r = interleave_channels (List.length buffers) 0
            (take (Z.to_nat BUFFER_LENGTH) <$> buffers) scratch
    ∧ encode M fuel w buffers final = Some (c, w')
    ∧ trace w' = trace w ++ suffix
    ∧ interleavedBuffers w' = Some r
    ∧ (∃ n, stored suffix = take n r)
    ∧ staged w ++ stored suffix
      = concat (frames suffix) ++ match c with Normal _ => staged w' | Throw _ => [] end
    ∧ Forall (λ f, TypedArray.length f = capacity w) (frames suffix)
    ∧ (thrown c = None →
       stored suffix = r
       ∧ TypedArray.length (stored suffix) = BUFFER_LENGTH * channelCount)
    ∧ (c = Normal tt
       ∨ ((c = Throw (Error "Resampling error.")
           ∨ c = Throw (Error "Opus encoding error."))
          ∧ inputBufferIndex w' = capacity w'
          ∧ pending_failure (trace w') = true))
    ∧ (reliable M → c = Normal tt).
Proof.
  intros Hc Hdiv Hrate Hch Hfeed Hn Hfuel.
  destruct (constructor_capacity _ _ _ _ _ _ _ _ Hc Hdiv Hrate) as [_ Hcap0]; [lia|].
  pose proof (constructor_staging _ _ _ _ _ _ _ _ Hc Hcap0) as Hst0.
  destruct (constructor_sizes _ _ _ _ _ _ _ _ Hc) as [Hsized _].
  destruct (feed_on_any M _ _ _ _ _ Hfeed Hcap0 Hst0) as (Hcapw & Hscr & Hst & _).
  assert (Hcap : 0 < capacity w) by lia.
  destruct Hst as (Hinv & Hfills & Hpf).
  unfold scratch_sized in Hsized. rewrite <- Hscr in Hsized.
  destruct (Z.eqb_spec channelCount 1) as [?|_]; [lia|].
  unfold scratch_length in Hsized.
  destruct (interleavedBuffers w) as [scratch|] eqn:Hs; [|done].
  injection Hsized as Hlen.
  assert (Hne : List.length buffers ≠ 1%nat) by lia.
  pose proof (interleave_scratch w buffers scratch Hs Hne) as Hint.
  set (r := interleave_channels (List.length buffers) 0 buffers scratch) in *.
  assert (Hr : TypedArray.length r = BUFFER_LENGTH * channelCount).
  { unfold TypedArray.length, r. rewrite interleave_channels_length, Hlen.
    unfold BUFFER_LENGTH. lia. }
  assert (Hi : fst (interleave w buffers) = Normal (Some r)) by by rewrite Hint.
  destruct (encode_any_total M fuel w buffers final Hcap Hinv) as (c & w' & Henc).
  { rewrite <- (stream_length_interleave w buffers r Hi).
    unfold TypedArray.length in Hr. lia. }
  destruct (encode_any M _ _ _ _ _ _ Hcap Hinv Henc)
    as (suffix & Ht & Hcap' & _ & Hscr' & _ & Hfills' & Hcons & _ & Hpf' & Hcases & Hstream).
  destruct (Hstream r Hi) as (Hpre & Hall).
  assert (Hc' : c = Normal tt
                ∨ ((c = Throw (Error "Resampling error.")
                    ∨ c = Throw (Error "Opus encoding error."))
                   ∧ inputBufferIndex w' = capacity w)).
  { destruct Hcases as [?|[(_ & _ & Hno)|?]]; [by left| |by right].
    by destruct (Hno r). }
  exists scratch, r, c, w', suffix.
  split; [done|]. split; [done|]. split; [done|].
  split.
  { intros L k HL Hk. apply interleave_channels_other.
    intros ch b j Hb Hj.
    assert (Hjb : (List.length b ≤ L)%nat)
      by (eapply (proj1 (Forall_lookup _ _) HL); eauto).
    apply lookup_lt_Some in Hb. nia. }
  split.
  { unfold r. rewrite <- (length_fmap (take (Z.to_nat BUFFER_LENGTH)) buffers) at 2.
    rewrite (interleave_channels_take _ 0 buffers scratch (Z.to_nat BUFFER_LENGTH)).
    - by rewrite length_fmap.
    - rewrite Hlen. unfold BUFFER_LENGTH. lia. }
  split; [done|]. split; [done|].
  split; [by rewrite Hscr', Hint|].
  split; [done|].
  split.
  { rewrite Hcons. f_equal.
    destruct Hc' as [-> |[[-> | ->] _]]; done. }
  split; [by eapply fills_frames|].
  split; [intros Hnone; by rewrite (Hall Hnone)|].
  split.
  { destruct Hc' as [?|[Herr Hfull]]; [by left|right].
    split; [done|]. split; [congruence|]. apply Hpf'; [done|done]. }
  intros Hrel. destruct (encode_reliable M _ _ _ _ _ _ Hrel Henc) as [_ Hnormal].
  exact (Hnormal r Hi).
Qed.


(** C4 (as amended).  With more than one channel, buffers of equal length
    [L] ≤ [BUFFER_LENGTH] and a scratch buffer of [BUFFER_LENGTH] cells per
    channel, the stream that [interleave] returns is the scratch buffer:
    it has [BUFFER_LENGTH] × channelCount cells, cell [i × channelCount + ch]
    holds [channelBuffers[ch][i]] for every i < L, so its first
    [L] × channelCount cells are the interleaving of the spec, and the
    cells behind them are what the scratch buffer held before. *)
Theorem interleave_fills_scratch_prefix w buffers scratch (L : nat) :
  interleavedBuffers w = Some scratch →
  List.length scratch = (Z.to_nat BUFFER_LENGTH * List.length buffers)%nat →
  (1 < List.length buffers)%nat →
  Forall (λ b, List.length b = L) buffers →
  (L ≤ Z.to_nat BUFFER_LENGTH)%nat →
  ∃ r,
    fst (interleave w buffers) = Normal (Some r)
    ∧ List.length r = (Z.to_nat BUFFER_LENGTH * List.length buffers)%nat
    ∧ (∀ (i ch : nat) b x,
         buffers !! ch = Some b → b !! i = Some x →
         r !! (i * List.length buffers + ch)%nat = Some x)
    ∧ take (L * List.length buffers) r = interleaved L buffers
    ∧ drop (L * List.length buffers) r = drop (L * List.length buffers) scratch.
Proof.
  intros Hs Hlen Hn Hall HL.
  assert (Hne : List.length buffers ≠ 1%nat) by lia.
  rewrite (interleave_scratch w buffers scratch Hs Hne). simpl.
  eexists. split; [reflexivity|].
  assert (Hfit : (L * List.length buffers ≤ List.length scratch)%nat) by nia.
  pose proof (interleave_channels_interleaved L buffers scratch Hall Hfit) as Heq.
  split; [by rewrite interleave_channels_length|].
  split.
  { intros i ch b x Hb Hx.
    change (i * List.length buffers + ch)%nat with (i * List.length buffers + (0 + ch))%nat.
    apply (interleave_channels_written _ 0 buffers scratch ch i b x); [simpl; lia|done|done|].
    assert (Hi : (i < L)%nat).
    { apply lookup_lt_Some in Hx.
      by rewrite (proj1 (Forall_lookup _ _) Hall ch b Hb) in Hx. }
    apply lookup_lt_Some in Hb. simpl. nia. }
  rewrite Heq.
  assert (Hil : List.length (interleaved L buffers) = (L * List.length buffers)%nat)
    by by apply interleaved_length.
  split.
  - rewrite <- Hil. by rewrite take_app_length.
  - rewrite <- Hil. by rewrite drop_app_length.
Qed.

(** C5 (as amended).  A call that returns runs one resample, encode,
    write cycle, in that order, per frame boundary that the staged samples
    and the stream cross together: (cursor + stream length) / capacity
    cycles, which leave the cursor at (cursor + stream length) mod
    capacity.  The frames are the consecutive capacity-sized slices of the
    staged samples followed by the stream.  A stream that exactly fills
    the buffer gives one cycle and cursor 0; a stream longer than the
    capacity gives at least one cycle, and two or more exactly when cursor
    + stream length reaches twice the capacity. *)
Theorem frame_flush_cycles (fuel : nat) w buffers (final : bool) samples :
  ready w →
  fst (interleave w buffers) = Normal (Some samples) →
  (List.length samples ≤ fuel)%nat →
  ∃ c w' suffix,
    encode M fuel w buffers final = Some (c, w')
    ∧ trace w' = trace w ++ suffix
    ∧ (thrown c = None →
       let total := inputBufferIndex w + TypedArray.length samples in
       let n := Z.to_nat (capacity w) in
       cycles (codec_calls suffix) (frames suffix)
       ∧ Z.of_nat (List.length (frames suffix)) = total / capacity w
       ∧ inputBufferIndex w' = total mod capacity w
       ∧ (∀ (k : nat) frame,
            frames suffix !! k = Some frame →
            frame = take n (drop (k * n) (staged w ++ samples)))
       ∧ staged w' = drop (List.length (frames suffix) * n) (staged w ++ samples)
       ∧ (total = capacity w →
          List.length (frames suffix) = 1%nat ∧ inputBufferIndex w' = 0)
       ∧ ((2 ≤ List.length (frames suffix))%nat ↔ 2 * capacity w ≤ total)
       ∧ (capacity w < TypedArray.length samples →
          (1 ≤ List.length (frames suffix))%nat)).
Proof.
  intros Hready Hi Hfuel.
  destruct (encode_total M fuel w buffers final samples Hready Hi Hfuel)
    as (c & w' & suffix & Henc & Ht & Hcap & _ & _ & Hall & _ & Hcons & Hnormal).
  exists c, w', suffix. split; [done|]. split; [done|].
  intros Hnone. destruct (Hnormal Hnone) as (Hready' & Hstored & Hcyc).
  destruct c as [[]|e]; [|done]. rewrite Hstored in Hcons.
  assert (Hpos : 0 < capacity w) by (unfold ready in Hready; lia).
  destruct (full_frames (capacity w) (frames suffix)) as [Hall' Hlen]; [lia|done|].
  assert (Hcount : inputBufferIndex w + TypedArray.length samples
                   = capacity w * Z.of_nat (List.length (frames suffix))
                     + inputBufferIndex w').
  { rewrite <- (staged_length w Hready), <- (staged_length w' Hready').
    transitivity (TypedArray.length (staged w ++ samples));
      [unfold TypedArray.length; rewrite length_app; lia|].
    rewrite Hcons. unfold TypedArray.length in *. rewrite length_app. lia. }
  assert (Hidx : 0 ≤ inputBufferIndex w' < capacity w)
    by (unfold ready in Hready'; lia).
  assert (Hdiv : Z.of_nat (List.length (frames suffix))
                 = (inputBufferIndex w + TypedArray.length samples) / capacity w)
    by (apply (Z.div_unique _ _ _ (inputBufferIndex w')); [lia|done]).
  assert (Hmod : inputBufferIndex w'
                 = (inputBufferIndex w + TypedArray.length samples) mod capacity w)
    by (apply (Z.mod_unique _ _ (Z.of_nat (List.length (frames suffix)))); [lia|done]).
  assert (Hlo : 0 ≤ inputBufferIndex w) by (unfold ready in Hready; lia).
  assert (Hhi : inputBufferIndex w < capacity w) by (unfold ready in Hready; lia).
  split; [done|]. split; [done|]. split; [done|].
  split.
  { intros k frame Hk. rewrite Hcons. by apply frames_slices. }
  split.
  { rewrite Hcons.
    replace (List.length (frames suffix) * Z.to_nat (capacity w))%nat
      with (List.length (concat (frames suffix)))
      by (rewrite (concat_equal_length (Z.to_nat (capacity w))) by done; lia).
    by rewrite drop_app_length. }
  set (flushes := Z.of_nat (List.length (frames suffix))) in *.
  assert (Hflushes : 0 ≤ flushes) by (unfold flushes; lia).
  split.
  { intros Htotal.
    assert (flushes = 1) by nia.
    split; [unfold flushes in *; lia|nia]. }
  split.
  { split; intros H2.
    - assert (2 ≤ flushes) by (unfold flushes; lia). nia.
    - assert (2 ≤ flushes) by nia. unfold flushes in *. lia. }
  intros Hlong. assert (1 ≤ flushes) by nia. unfold flushes in *. lia.
Qed.

(** C6.  A worker is constructed with a positive channel count and a
    positive sample rate that is a multiple of 50 Hz, so that its staging
    buffer holds the whole number of samples of one frame.  Its cursor is
    0, and after every sequence of [encode] calls, each of them returning
    or throwing and the next one called all the same, the cursor lies
    between 0 and the capacity.  The buffer is consumed exactly at the
    capacity: over the whole log every store lands at the fill level and
    inside the buffer, the resampler is given the buffer only when the
    stores have filled it, never at a smaller fill level, and the buffer
    is emptied only by the write that completes a cycle.  It is consumed
    as soon as it is full: the cursor is at the capacity between two calls
    exactly while the frame of a failed codec call waits for its retry, so
    never when the calls before returned. *)
Theorem cursor_invariant_preserved inputSampleRate channelCount bitsPerSecond
    serial (h : native) w0 (fuel : nat) calls :
  constructor zero M inputSampleRate channelCount bitsPerSecond serial h
  = Constructed w0 →
  (50 | inputSampleRate) → 0 < inputSampleRate → 0 < channelCount →
  Forall (λ buffers, (stream_length w0 buffers < fuel)%nat) calls →
  inputBufferIndex w0 = 0
  ∧ cursor_invariant w0
  ∧ capacity w0 * 50 = inputSampleRate * channelCount
  ∧ ∃ cs w,
      feed_on M fuel w0 calls = Some (cs, w)
      ∧ List.length cs = List.length calls
      ∧ capacity w = capacity w0
      ∧ cursor_invariant w
      ∧ fills (capacity w0) [] (trace w) (staged w)
      ∧ Forall (λ f, TypedArray.length f = capacity w0) (frames (trace w))
      ∧ (inputBufferIndex w = capacity w ↔ pending_failure (trace w) = true)
      ∧ (Forall (λ c, c = Normal tt ∨ c = Throw TypeError) cs →
         inputBufferIndex w < capacity w
         ∧ stored (trace w) = concat (frames (trace w)) ++ staged w)
      ∧ (reliable M → Forall (λ c, c = Normal tt ∨ c = Throw TypeError) cs).
Proof.
  intros Hc Hdiv Hrate Hch Hfuel.
  destruct (constructor_capacity _ _ _ _ _ _ _ _ Hc Hdiv Hrate Hch) as [Hcap50 Hcap].
  pose proof (constructor_staging _ _ _ _ _ _ _ _ Hc Hcap) as Hst0.
  destruct (constructor_ready _ _ _ _ _ _ _ _ Hc) as (_ & _ & Hfr0 & Hsto0 & Hstg0 & Hready).
  specialize (Hready Hcap).
  destruct (constructor_fields _ _ _ _ _ _ _ _ Hc) as (_ & Hidx & _).
  split; [done|]. split; [apply Hst0|]. split; [done|].
  destruct (feed_on_total M fuel w0 calls Hcap Hst0 Hfuel) as (cs & w & Hfeed).
  exists cs, w. split; [done|].
  destruct (feed_on_any M _ _ _ _ _ Hfeed Hcap Hst0)
    as (Hcapw & _ & (Hinv & Hfills & Hpf) & Hlen).
  rewrite Hcapw in Hfills.
  split; [done|]. split; [done|]. split; [done|]. split; [done|].
  split; [by eapply fills_frames|]. split; [done|].
  split; [|intros Hrel; by eapply feed_on_reliable].
  intros Hquiet.
  destruct (feed_on_quiet M _ _ _ _ _ Hfeed Hcap Hready) as [Hr Hcons]; [|done|].
  { by rewrite Hsto0, Hfr0, Hstg0. }
  split; [unfold ready in Hr; lia|done].
Qed.

(** C7.  In every turn of the loop that fills the staging buffer, the
    resample stage throws the resampling error exactly when the module's
    resampler returns a status other than success, and the encode stage,
    reached only after a successful resampling, throws the encoding error
    exactly when the module's encoder returns a negative length; a turn
    throws nothing else.  For a whole call of [encode]: it throws the
    resampling error exactly when a resampler call it made failed, the
    encoding error exactly when an encoder call it made returned a
    negative length, and apart from these it returns, or raises the
    TypeError of an undefined scratch buffer before any codec call. *)
Theorem encode_raises_iff (fuel : nat) w buffers (final : bool) c w' :
  encode M fuel w buffers final = Some (c, w') →
  (∃ suffix,
     trace w' = trace w ++ suffix
     ∧ (c = Throw (Error "Resampling error.")
        ↔ existsb failed_resample suffix = true)
     ∧ (c = Throw (Error "Opus encoding error.")
        ↔ existsb failed_encode suffix = true)
     ∧ (c = Normal tt
        ∨ c = Throw (Error "Resampling error.")
        ∨ c = Throw (Error "Opus encoding error.")
        ∨ (c = Throw TypeError ∧ suffix = [])))
  ∧ ∀ samples (i : Z) w1,
      let lengthToCopy :=
        Z.min (capacity w1 - inputBufferIndex w1) (TypedArray.length samples - i) in
      let input :=
        WasmFloat32Buffer.set (mInputBuffer w1)
          (TypedArray.subarray samples i (i + lengthToCopy)) (inputBufferIndex w1) in
      let full := capacity w1 ≤ inputBufferIndex w1 + lengthToCopy in
      let resampling :=
        _speex_resampler_process_interleaved_float M (resampler w1) input
          (inputSamplesPerChannel w1) (mResampledBuffer w1)
          (outputSamplePerChannel w1) (heap w1) in
      let encoding :=
        _opus_encode_float M (encoder w1) (snd (fst resampling))
          (outputSamplePerChannel w1) (mOutputBuffer w1)
          (Z.of_nat (List.length (mOutputBuffer w1))) (snd resampling) in
      (fst (encode_step M samples i w1) = Throw (Error "Resampling error.")
       ↔ full ∧ fst (fst resampling) ≠ RESAMPLER_ERR_SUCCESS)
      ∧ (fst (encode_step M samples i w1) = Throw (Error "Opus encoding error.")
         ↔ full ∧ fst (fst resampling) = RESAMPLER_ERR_SUCCESS
           ∧ fst (fst encoding) < 0)
      ∧ (∀ e, fst (encode_step M samples i w1) = Throw e →
              e = Error "Resampling error." ∨ e = Error "Opus encoding error.").
Proof.
  intros Henc. split; [|intros samples i w1; apply encode_step_throws].
  destruct (encode_cases _ _ _ _ _ _ _ Henc)
    as [(samples & w1 & Hi & Hrun)|(-> & Ht & _)].
  - destruct (interleave_keeps _ _ _ _ Hi) as (_ & _ & Ht1 & _).
    destruct (loop_run_call_log M _ _ _ _ _ Hrun) as (suffix & Ht & Hlog).
    destruct (call_log_status _ _ Hlog) as (HR & HE & Ho).
    exists suffix. split; [by rewrite Ht, Ht1|].
    destruct c as [[]|e]; simpl in *.
    + split; [rewrite <- HR; split; intros; done|].
      split; [rewrite <- HE; split; intros; done|]. by left.
    + split; [rewrite <- HR; split; intros; congruence|].
      split; [rewrite <- HE; split; intros; congruence|].
      destruct Ho as [?|[?|?]]; [done|right; left; congruence|right; right; left; congruence].
  - exists []. rewrite app_nil_r. split; [done|].
    split; [split; intros; done|]. split; [split; intros; done|].
    by right; right; right.
Qed.

(** C8.  The [final] flag changes nothing: with it set, [encode] gives
    the very completion and the very worker it gives without it, so a
    partly filled staging buffer is not flushed. *)
Theorem final_flag_has_no_effect (fuel : nat) w buffers :
  encode M fuel w buffers true = encode M fuel w buffers false.
Proof.
  unfold encode.
  destruct (interleave w buffers) as [[[samples|]|e] w1]; [|done..].
  by destruct (encode_loop M fuel samples 0 w1) as [[[[]|e] w2]|].
Qed.

(** C9.  With a single channel buffer [interleave] returns that buffer
    itself and leaves the worker as it is, and [encode] stores the samples
    of the buffer, in order and from the first one on: what it stores is
    a prefix of the buffer which, put behind what was staged, makes up
    the full frames handed to the resampler followed, when the call
    returns, by what stays staged.  A call that returns has stored the
    whole buffer.  A call fails to return only with a codec error, exactly
    when a codec call of its log failed, and with a reliable module it
    returns.  This holds in every state that satisfies the cursor
    invariant, once the fuel exceeds the length of the buffer. *)
Theorem single_channel_identity (fuel : nat) w (buffer : list sample) (final : bool) :
  0 < capacity w →
  cursor_invariant w →
  (List.length buffer < fuel)%nat →
  interleave w [buffer] = (Normal (Some buffer), w)
  ∧ ∃ c w' suffix,
      encode M fuel w [buffer] final = Some (c, w')
      ∧ trace w' = trace w ++ suffix
      ∧ interleavedBuffers w' = interleavedBuffers w
      ∧ (∃ n, stored suffix = take n buffer)
      ∧ staged w ++ stored suffix
        = concat (frames suffix) ++ match c with Normal _ => staged w' | Throw _ => [] end
      ∧ Forall (λ f, TypedArray.length f = capacity w) (frames suffix)
      ∧ fills (capacity w) (staged w) suffix (staged w')
      ∧ (thrown c = None →
         stored suffix = buffer
         ∧ staged w ++ buffer = concat (frames suffix) ++ staged w')
      ∧ (c = Normal tt
         ↔ existsb failed_resample suffix = false ∧ existsb failed_encode suffix = false)
      ∧ (c = Normal tt
         ∨ ((c = Throw (Error "Resampling error.")
             ∨ c = Throw (Error "Opus encoding error."))
            ∧ inputBufferIndex w' = capacity w'))
      ∧ (reliable M → c = Normal tt).
Proof.
  intros Hcap Hinv Hfuel. split; [done|].
  assert (Hi : fst (interleave w [buffer]) = Normal (Some buffer)) by done.
  destruct (encode_any_total M fuel w [buffer] final Hcap Hinv) as (c & w' & Henc);
    [done|].
  destruct (encode_any M _ _ _ _ _ _ Hcap Hinv Henc)
    as (suffix & Ht & Hcap' & _ & Hscr' & _ & Hfills & Hcons & _ & _ & Hcases & Hstream).
  destruct (Hstream buffer Hi) as (Hpre & Hall).
  destruct (encode_log_sound M _ _ _ _ _ _ Henc) as (suffix' & Ht' & _ & _ & Hlog).
  assert (suffix' = suffix) as -> by (rewrite Ht in Ht'; by apply app_inv_head in Ht').
  destruct (call_log_status _ _ Hlog) as (HR & HE & _).
  assert (Hc' : c = Normal tt
                ∨ ((c = Throw (Error "Resampling error.")
                    ∨ c = Throw (Error "Opus encoding error."))
                   ∧ inputBufferIndex w' = capacity w')).
  { destruct Hcases as [?|[(_ & _ & Hno)|[? ?]]]; [by left| |right; split; [done|congruence]].
    by destruct (Hno buffer). }
  assert (Hcons' : staged w ++ stored suffix
                   = concat (frames suffix)
                     ++ match c with Normal _ => staged w' | Throw _ => [] end).
  { rewrite Hcons. f_equal. destruct Hc' as [-> |[[-> | ->] _]]; done. }
  exists c, w', suffix.
  split; [done|]. split; [done|]. split; [done|]. split; [done|].
  split; [done|]. split; [by eapply fills_frames|]. split; [done|].
  split.
  { intros Hnone. rewrite <- (Hall Hnone) at 2. split; [by apply Hall|].
    rewrite Hcons'. by destruct c. }
  split.
  { destruct Hc' as [-> |[[-> | ->] _]]; simpl in HR, HE.
    - split; [intros _|done]. split.
      + destruct (existsb failed_resample suffix); [|done].
        destruct HR as [_ HR]. by specialize (HR eq_refl).
      + destruct (existsb failed_encode suffix); [|done].
        destruct HE as [_ HE]. by specialize (HE eq_refl).
    - split; [done|]. intros [Hno _].
      destruct HR as [HR _]. rewrite (HR eq_refl) in Hno. done.
    - split; [done|]. intros [_ Hno].
      destruct HE as [HE _]. rewrite (HE eq_refl) in Hno. done. }
  split; [done|].
  intros Hrel. destruct (encode_reliable M _ _ _ _ _ _ Hrel Henc) as [_ Hnormal].
  exact (Hnormal buffer Hi).
Qed.


End Properties.

(** * The properties on concrete runs *)

(** The example of the spec: left [L0 L1 L2] and right [R0 R1 R2]
    interleave to [L0 R0 L1 R1 L2 R2]. *)
Example interleaved_example {sample : Type} (L0 L1 L2 R0 R1 R2 : sample) :
  interleaved 3 [[L0; L1; L2]; [R0; R1; R2]] = [L0; R0; L1; R1; L2; R2].
Proof. reflexivity. Qed.

(** The test module whose calls all succeed is reliable. *)
Lemma okModule_reliable : reliable okModule.
Proof. split; intros; simpl; [reflexivity|lia]. Qed.

(** Nine samples in three messages through a staging buffer of four: the
    calls return, with two flushes and one sample left. *)
Lemma sample_conservation_witness :
  ∃ w,
    feed okModule 3 monoWorker threeCalls = Some (Normal tt, w)
    ∧ fed threeCalls = 9
    ∧ 9 = Z.of_nat (List.length (frames (trace w))) * 4 + inputBufferIndex w.
Proof.
  destruct (sample_conservation 0 okModule 200 1 None 7 O monoWorker 3 threeCalls)
    as (_ & c & w & Hfeed & Hnormal & _ & Hrel).
  - run.
  - exists 4. reflexivity.
  - lia.
  - lia.
  - vm_compute. repeat constructor.
  - assert (Hchunked : Forall (chunked 1) threeCalls)
      by (unfold threeCalls; repeat constructor).
    assert (Hc : c = Normal tt) by exact (Hrel okModule_reliable Hchunked).
    subst c. exists w. split; [exact Hfeed|]. split; [reflexivity|].
    destruct (Hnormal eq_refl) as (_ & _ & _ & _ & Hfed).
    destruct (Hfed Hchunked) as [_ Hcount]. exact Hcount.
Defined.

(** C1, counterexample.  A stereo worker at 44100 Hz is given one message
    of three samples per channel: six samples are fed in, yet the call
    flushes four frames of 1764 cells and leaves the cursor at 1136. *)
Lemma sample_conservation_fails_for_short_stereo_chunk :
  match feed okModule (Z.to_nat 8192) cdWorker [[[1; 2; 3]; [4; 5; 6]]] with
  | Some (Normal _, w) =>
      fed [[[1; 2; 3]; [4; 5; 6]]] = 6
      ∧ Z.of_nat (List.length (frames (trace w))) = 4
      ∧ capacity cdWorker = 1764
      ∧ inputBufferIndex w = 1136
      ∧ fed [[[1; 2; 3]; [4; 5; 6]]]
        ≠ Z.of_nat (List.length (frames (trace w))) * capacity cdWorker
          + inputBufferIndex w
  | _ => False
  end.
Proof. run. Qed.

(** A stereo worker that was given three samples per channel is given
    one sample per channel: it hands all 8192 cells of its scratch buffer
    to the loop, the third cell still holding the second sample of the
    earlier message, and the call returns having stored them all. *)
Lemma interleave_returns_whole_scratch_witness :
  ∃ scratch r w' suffix,
    interleavedBuffers cdFedWorker = Some scratch
    ∧ scratch !! 2%nat = Some 2
    ∧ fst (interleave cdFedWorker [[7]; [8]]) = Normal (Some r)
    ∧ TypedArray.length r = 8192
    ∧ r !! 2%nat = Some 2
    ∧ encode okModule (Z.to_nat 8193) cdFedWorker [[7]; [8]] false = Some (Normal tt, w')
    ∧ trace w' = trace cdFedWorker ++ suffix
    ∧ stored suffix = r.
Proof.
  destruct (interleave_returns_whole_scratch 0 okModule 44100 2 (Some 64000) 7 O
              cdWorker (Z.to_nat 8193) [[[1; 2; 3]; [4; 5; 6]]] [Normal tt] cdFedWorker
              [[7]; [8]] false (Z.to_nat 8193))
    as (scratch & r & c & w' & suffix & Hs & Hi & Hlen & Hstale & _ & Henc & Ht
        & _ & _ & _ & _ & Hnormal & _ & Hrel).
  - run.
  - exists 882. reflexivity.
  - lia.
  - lia.
  - vm_compute. reflexivity.
  - reflexivity.
  - vm_compute. lia.
  - assert (Hc : c = Normal tt) by exact (Hrel okModule_reliable).
    subst c.
    assert (H2 : interleavedBuffers cdFedWorker ≫= (λ s, s !! 2%nat) = Some 2)
      by (vm_compute; reflexivity).
    rewrite Hs in H2. simpl in H2.
    exists scratch, r, w', suffix.
    split; [exact Hs|]. split; [exact H2|]. split; [exact Hi|].
    split; [exact Hlen|].
    split.
    { rewrite (Hstale 1%nat 2%nat); [exact H2|repeat constructor|simpl; lia]. }
    split; [exact Henc|]. split; [exact Ht|].
    destruct (Hnormal eq_refl) as [Hstored _]. exact Hstored.
Defined.


(** The resampler reports status 3 after the encoder succeeded: the
    constructor throws, and the container writer and the encoder are
    still held. *)
Example constructor_leaks_encoder :
  match constructor 0 (testModule 0 3 0 10) 200 1 None 7 O with
  | Failed e _ t =>
      e = Error "Initializing resampler failed."
      ∧ live t = [ContainerWriter; Encoder]
  | Constructed _ => False
  end.
Proof. run. Qed.

(** The left and right samples come out interleaved at the front of the
    scratch buffer. *)
Lemma interleave_fills_scratch_prefix_witness :
  ∃ r, fst (interleave stereoWorker [[1; 2; 3]; [4; 5; 6]]) = Normal (Some r)
       ∧ take 6 r = [1; 4; 2; 5; 3; 6].
Proof.
  destruct (interleave_fills_scratch_prefix stereoWorker [[1; 2; 3]; [4; 5; 6]]
              (replicate (Z.to_nat 8192) 0) 3)
    as (r & Hi & _ & _ & Htake & _).
  - run.
  - run.
  - simpl. lia.
  - repeat constructor.
  - vm_compute. lia.
  - exists r. split; [exact Hi|exact Htake].
Defined.

(** C4, counterexample.  The stream returned for [L0 L1 L2] and
    [R0 R1 R2] is not [L0 R0 L1 R1 L2 R2]: it has 8192 cells. *)
Lemma interleave_example_is_longer :
  match fst (interleave stereoWorker [[1; 2; 3]; [4; 5; 6]]) with
  | Normal (Some r) => r ≠ [1; 4; 2; 5; 3; 6] ∧ TypedArray.length r = 8192
  | _ => False
  end.
Proof. run. Qed.

(** With 4097 samples per channel the last sample of each channel finds
    no cell: the stream still has 8192 cells and ends with the 4096th
    sample of the right channel. *)
Example interleave_drops_beyond_buffer_length :
  match fst (interleave stereoWorker [seqZ 0 4097; seqZ 5000 4097]) with
  | Normal (Some r) =>
      TypedArray.length r = 8192
      ∧ r !! Z.to_nat 8191 = Some 9095
      ∧ r !! Z.to_nat 8192 = None
  | _ => False
  end.
Proof.
  assert (Hs : interleavedBuffers stereoWorker = Some (replicate (Z.to_nat 8192) 0))
    by (vm_compute; reflexivity).
  rewrite (interleave_scratch stereoWorker _ _ Hs) by (simpl; lia).
  cbn [fst].
  set (r := interleave_channels _ _ _ _).
  assert (Hlen : List.length r = Z.to_nat 8192)
    by (unfold r; by rewrite interleave_channels_length, length_replicate).
  split; [unfold TypedArray.length; rewrite Hlen; lia|].
  split.
  - replace (Z.to_nat 8191) with (4095 * 2 + (0 + 1))%nat by lia.
    apply (interleave_channels_written 2 0 _ _ 1 4095 (seqZ 5000 4097) 9095).
    + simpl. lia.
    + reflexivity.
    + apply lookup_seqZ. lia.
    + rewrite length_replicate. lia.
  - apply lookup_ge_None. rewrite Hlen. lia.
Qed.

(** Nine samples at once: two cycles and one sample left. *)
Lemma frame_flush_cycles_witness :
  ∃ c w' suffix,
    encode okModule 9 monoWorker [[1; 2; 3; 4; 5; 6; 7; 8; 9]] false = Some (c, w')
    ∧ trace w' = trace monoWorker ++ suffix
    ∧ (thrown c = None →
       frames suffix !! 1%nat = Some [5; 6; 7; 8] ∨ List.length (frames suffix) ≠ 2%nat).
Proof.
  destruct (frame_flush_cycles okModule 9 monoWorker [[1; 2; 3; 4; 5; 6; 7; 8; 9]]
              false [1; 2; 3; 4; 5; 6; 7; 8; 9])
    as (c & w' & suffix & Henc & Ht & Hnormal).
  - run.
  - reflexivity.
  - simpl. lia.
  - exists c, w', suffix. split; [exact Henc|]. split; [exact Ht|].
    intros Hnone. destruct (Hnormal Hnone) as (_ & Hcount & _ & Hslices & _).
    destruct (frames suffix !! 1%nat) as [frame|] eqn:Hk.
    + left. f_equal. apply (Hslices 1%nat frame Hk).
    + right. apply lookup_ge_None in Hk. lia.
Defined.

(** C5, counterexample.  Five samples are more than the capacity of four,
    and the call runs one cycle, not several. *)
Lemma longer_than_capacity_one_cycle :
  match encode okModule 5 monoWorker [[1; 2; 3; 4; 5]] false with
  | Some (Normal _, w) =>
      capacity monoWorker < TypedArray.length [1; 2; 3; 4; 5]
      ∧ List.length (frames (trace w)) = 1%nat
      ∧ ¬ (2 ≤ List.length (frames (trace w)))%nat
  | _ => False
  end.
Proof. run. Qed.

(** A message that fills the buffer of the worker whose resampler fails,
    then a message of one sample, then an empty one: the first two calls
    throw, the third returns, and the cursor stays at the capacity with
    the failed frame waiting. *)
Lemma cursor_invariant_preserved_witness :
  ∃ cs w,
    feed_on (testModule 0 0 5 10) 5 resampleFailingWorker failingCalls = Some (cs, w)
    ∧ List.length cs = 3%nat
    ∧ cursor_invariant w
    ∧ (inputBufferIndex w = capacity w ↔ pending_failure (trace w) = true).
Proof.
  destruct (cursor_invariant_preserved 0 (testModule 0 0 5 10) 200 1 None 7 O
              resampleFailingWorker 5 failingCalls)
    as (_ & _ & _ & cs & w & Hfeed & Hlen & _ & Hinv & _ & _ & Hpf & _).
  - run.
  - exists 4. reflexivity.
  - lia.
  - lia.
  - unfold failingCalls. repeat constructor.
  - exists cs, w. split; [exact Hfeed|]. split; [exact Hlen|].
    split; [exact Hinv|exact Hpf].
Defined.

(** A failing resampler: the call throws the resampling error, and the
    log shows the failed call. *)
Lemma encode_raises_iff_witness :
  ∃ suffix,
    trace (snd (result_of (encode (testModule 0 0 5 10) 4 resampleFailingWorker
                             [[1; 2; 3; 4]] false)))
    = trace resampleFailingWorker ++ suffix
    ∧ existsb failed_resample suffix = true.
Proof.
  destruct (encode_raises_iff (testModule 0 0 5 10) 4 resampleFailingWorker
              [[1; 2; 3; 4]] false (Throw (Error "Resampling error."))
              (snd (result_of (encode (testModule 0 0 5 10) 4 resampleFailingWorker
                                 [[1; 2; 3; 4]] false))))
    as [(suffix & Ht & HR & _) _].
  - vm_compute. reflexivity.
  - exists suffix. split; [exact Ht|]. apply HR. reflexivity.
Defined.

(** The encoder that returns -1 makes the call throw the encoding
    error. *)
Example encode_failing_example :
  fst (result_of (encode (testModule 0 0 0 (-1)) 4 encodeFailingWorker
                    [[1; 2; 3; 4]] true))
  = Throw (Error "Opus encoding error.").
Proof. vm_compute. reflexivity. Qed.

(** Five samples through the mono worker: the call returns and has
    stored them as they are. *)
Lemma single_channel_identity_witness :
  interleave monoWorker [[1; 2; 3; 4; 5]] = (Normal (Some [1; 2; 3; 4; 5]), monoWorker)
  ∧ ∃ w' suffix,
      encode okModule 6 monoWorker [[1; 2; 3; 4; 5]] false = Some (Normal tt, w')
      ∧ trace w' = trace monoWorker ++ suffix
      ∧ stored suffix = [1; 2; 3; 4; 5].
Proof.
  destruct (single_channel_identity okModule 6 monoWorker [1; 2; 3; 4; 5] false)
    as (Hi & c & w' & suffix & Henc & Ht & _ & _ & _ & _ & _ & Hnormal & _ & _ & Hrel).
  - run.
  - run.
  - simpl. lia.
  - assert (Hc : c = Normal tt) by exact (Hrel okModule_reliable).
    subst c. split; [exact Hi|]. exists w', suffix.
    split; [exact Henc|]. split; [exact Ht|].
    destruct (Hnormal eq_refl) as [Hstored _]. exact Hstored.
Defined.


(** * Further properties of the worker *)

(** ** Properties of the worker beyond the specification *)

Section WorkerProperties.
Context {sample native : Type}.
Variable zero : sample.
Variable M : WasmModule sample native.
Implicit Types w : Worker sample native.
Implicit Types samples : list sample.
Implicit Types buffers : list (list sample).
Implicit Types calls : list (list (list sample)).


(** X2.  A codec error is not final.  The call that throws leaves the
    staging buffer full, with the frame that failed in it; the next call
    that brings any sample stores nothing first and hands that same frame
    to the resampler again. *)
Theorem failed_frame_is_retried (fuel1 fuel2 : nat) w0 buffers1 (final1 : bool)
    reason w buffers2 (final2 : bool) samples c w' :
  ready w0 →
  encode M fuel1 w0 buffers1 final1 = Some (Throw (Error reason), w) →
  fst (interleave w buffers2) = Normal (Some samples) →
  samples ≠ [] →
  encode M fuel2 w buffers2 final2 = Some (c, w') →
  inputBufferIndex w = capacity w
  ∧ list.last (frames (trace w)) = Some (mInputBuffer w)
  ∧ ∃ err tail,
      trace w'
      = trace w ++ [Store [] (capacity w); Acquire Temp; Acquire Temp;
                    Resample (mInputBuffer w) err; Release Temp; Release Temp]
                ++ tail.
Proof.
  intros Hready Hfirst Hi Hne Hsecond.
  destruct (encode_cases _ _ _ _ _ _ _ Hfirst) as [(s1 & wi & Hint1 & Hrun1)|[? _]];
    [|done].
  destruct (interleave_keeps _ _ _ _ Hint1) as (_ & _ & Ht1 & _).
  destruct (interleave_ready _ _ _ _ Hint1) as (Hr1 & _ & Hcap1).
  destruct (loop_run_spec M _ _ _ _ _ Hrun1)
    as (suffix & Htr & Hs & _ & _ & Hfull & _ & cs & F & tl & _ & HF & _);
    [by apply Hr1|done|].
  assert (Hcap : capacity w = capacity wi) by apply Hs.
  split; [congruence|].
  split.
  { rewrite Htr, frames_app, HF, app_assoc. apply last_snoc. }
  destruct (interleave w buffers2) as [r w2] eqn:Hint2. simpl in Hi. subst r.
  destruct (interleave_keeps _ _ _ _ Hint2) as (Hidx2 & Hbuf2 & Ht2 & _).
  rewrite (encode_stream _ _ _ _ _ _ _ Hint2) in Hsecond.
  apply encode_loop_run in Hsecond.
  assert (Hlen : 0 < TypedArray.length samples).
  { unfold TypedArray.length. destruct samples; [done|simpl; lia]. }
  assert (Hfull2 : inputBufferIndex w2 = capacity w2).
  { unfold capacity in *. rewrite Hidx2, Hbuf2. congruence. }
  destruct (encode_step_retry M samples w2 Hfull2 Hlen)
    as (c1 & w3 & err & tail & Hstep & Ht3).
  assert (Hw2 : capacity w2 = capacity w ∧ mInputBuffer w2 = mInputBuffer w)
    by (unfold capacity; by rewrite Hbuf2).
  destruct Hw2 as [Hc2 Hb2]. rewrite Hc2, Hb2, Ht2 in Ht3.
  inversion Hsecond as [? ? Hge|? ? i' w4 ? ? Hlt Hstep' Hrun|? ? e ? Hlt Hstep']; subst.
  - lia.
  - rewrite Hstep in Hstep'. injection Hstep' as -> ->.
    destruct (loop_run_call_log M _ _ _ _ _ Hrun) as (more & Hmore & _).
    exists err, (tail ++ more). rewrite Hmore, Ht3, <- !app_assoc. done.
  - rewrite Hstep in Hstep'. injection Hstep' as -> ->.
    exists err, tail. done.
Qed.

(** X3.  A staging buffer without cells is never filled past: on a
    worker of capacity 0, a call that brings any sample does not return
    normally, whatever the fuel; it turns for ever on empty frames unless
    a codec call fails. *)
Theorem zero_capacity_never_returns (fuel : nat) w buffers (final : bool) samples :
  capacity w = 0 →
  inputBufferIndex w = 0 →
  fst (interleave w buffers) = Normal (Some samples) →
  samples ≠ [] →
  encode M fuel w buffers final = None
  ∨ ∃ e w', encode M fuel w buffers final = Some (Throw e, w').
Proof.
  intros Hcap Hidx Hi Hne.
  destruct (interleave w buffers) as [r w1] eqn:Hint. simpl in Hi. subst r.
  destruct (interleave_keeps _ _ _ _ Hint) as (Hidx1 & Hbuf1 & _).
  rewrite (encode_stream _ _ _ _ _ _ _ Hint).
  apply encode_loop_zero.
  - unfold capacity in *. by rewrite Hbuf1.
  - by rewrite Hidx1.
  - unfold TypedArray.length. destruct samples; [done|simpl; lia].
Qed.

(** X4.  The frames do not depend on how the host cuts the input into
    messages.  Two sequences of single-channel calls that bring the same
    samples in the same order, and that both return, hand the same frames
    to the resampler and leave the same samples staged at the same
    cursor. *)
Theorem frames_independent_of_chunking (fuel1 fuel2 : nat) w calls1 calls2 w1 w2 :
  ready w →
  Forall (λ buffers, List.length buffers = 1%nat) calls1 →
  Forall (λ buffers, List.length buffers = 1%nat) calls2 →
  concat (concat calls1) = concat (concat calls2) →
  feed M fuel1 w calls1 = Some (Normal tt, w1) →
  feed M fuel2 w calls2 = Some (Normal tt, w2) →
  ∃ s1 s2,
    trace w1 = trace w ++ s1
    ∧ trace w2 = trace w ++ s2
    ∧ frames s1 = frames s2
    ∧ staged w1 = staged w2
    ∧ inputBufferIndex w1 = inputBufferIndex w2.
Proof.
  intros Hready Hone1 Hone2 Hsame Hfeed1 Hfeed2.
  destruct (feed_normal M _ _ _ _ Hready Hfeed1)
    as (s1 & Ht1 & Hr1 & Hcap1 & _ & _ & Hcons1 & Hall1 & _).
  destruct (feed_normal M _ _ _ _ Hready Hfeed2)
    as (s2 & Ht2 & Hr2 & Hcap2 & _ & _ & Hcons2 & Hall2 & _).
  rewrite (streams_single w calls1 Hone1), concat_fmap_concat in Hcons1.
  rewrite (streams_single w calls2 Hone2), concat_fmap_concat in Hcons2.
  rewrite Hsame, Hcons2 in Hcons1.
  assert (Hpos : 0 ≤ capacity w) by (unfold ready in Hready; lia).
  destruct (full_frames (capacity w) (frames s1) Hpos Hall1) as [Hn1 _].
  destruct (full_frames (capacity w) (frames s2) Hpos Hall2) as [Hn2 _].
  pose proof (staged_length w1 Hr1) as Hl1.
  pose proof (staged_length w2 Hr2) as Hl2.
  destruct (chunking_unique (Z.to_nat (capacity w)) (frames s2) (frames s1)
              (staged w2) (staged w1)) as [HF Hst]; try done.
  - unfold ready, TypedArray.length in *. lia.
  - unfold ready, TypedArray.length in *. lia.
  - exists s1, s2. split; [done|]. split; [done|]. split; [done|].
    split; [done|]. by rewrite <- Hl1, <- Hl2, Hst.
Qed.

(** X5.  A call that throws a codec error has consumed the samples that
    complete the failing frame and no more: what it stored is a prefix of
    its stream, the staged samples followed by that prefix are the frames
    it handed to the resampler, the last of which is the failing frame,
    still in the staging buffer with the cursor at the capacity; every
    frame before it went through a complete cycle. *)
Theorem throw_keeps_failing_frame (fuel : nat) w buffers (final : bool) samples
    reason w' :
  ready w →
  fst (interleave w buffers) = Normal (Some samples) →
  encode M fuel w buffers final = Some (Throw (Error reason), w') →
  ∃ suffix F cs tail,
    trace w' = trace w ++ suffix
    ∧ frames suffix = F ++ [mInputBuffer w']
    ∧ inputBufferIndex w' = capacity w
    ∧ TypedArray.length (mInputBuffer w') = capacity w
    ∧ (∃ n, stored suffix = take n samples)
    ∧ staged w ++ stored suffix = concat F ++ mInputBuffer w'
    ∧ TypedArray.length (stored suffix)
      = (Z.of_nat (List.length F) + 1) * capacity w - inputBufferIndex w
    ∧ codec_calls suffix = cs ++ tail
    ∧ cycles cs F
    ∧ ((reason = "Resampling error."%string
        ∧ ∃ err, err ≠ RESAMPLER_ERR_SUCCESS
            ∧ tail = [Resample (mInputBuffer w') err])
       ∨ (reason = "Opus encoding error."%string
          ∧ ∃ pcm n, n < 0
              ∧ tail = [Resample (mInputBuffer w') RESAMPLER_ERR_SUCCESS;
                        Encode pcm n])).
Proof.
  intros Hready Hi Henc.
  destruct (interleave w buffers) as [r w1] eqn:Hint. simpl in Hi. subst r.
  destruct (interleave_keeps _ _ _ _ Hint) as (Hidx1 & _ & Ht1 & _).
  destruct (interleave_ready _ _ _ _ Hint) as (Hr1 & Hst1 & Hcap1).
  rewrite (encode_stream _ _ _ _ _ _ _ Hint) in Henc.
  apply encode_loop_run in Henc.
  destruct (loop_run_spec M _ _ _ _ _ Henc)
    as (suffix & Htr & Hs & Hall & Hcons & Hfull & [n Hstored]
        & cs & F & tail & Hcs & HF & Hcyc & He);
    [by apply Hr1|done|].
  rewrite drop_0 in Hstored. rewrite app_nil_r, Hst1 in Hcons.
  rewrite Hcap1 in Hall, Hfull.
  assert (Hpos : 0 ≤ capacity w) by (unfold ready in Hready; lia).
  destruct (full_frames (capacity w) (frames suffix) Hpos Hall) as [_ Hlen].
  assert (Hlast : TypedArray.length (mInputBuffer w') = capacity w).
  { rewrite HF in Hall. apply Forall_app in Hall as [_ Hlast].
    by inversion Hlast. }
  exists suffix, F, cs, tail.
  split; [by rewrite Htr, Ht1|]. split; [done|]. split; [done|]. split; [done|].
  split; [by exists n|].
  split; [rewrite Hcons, HF, concat_app; simpl; by rewrite app_nil_r|].
  split.
  { apply (f_equal TypedArray.length) in Hcons.
    rewrite Hlen, HF in Hcons. unfold TypedArray.length in *.
    rewrite !length_app in Hcons. simpl in Hcons.
    pose proof (staged_length w Hready) as Hsl. unfold TypedArray.length in Hsl.
    lia. }
  split; [done|]. split; [done|].
  destruct He as [[[= <-] Herr]|[[= <-] Herr]]; [by left|by right].
Qed.



(** X8.  The constructor sizes the buffers for one frame of 20 ms.  For
    a sample rate that is a multiple of 50 Hz, 50 frames make a second of
    input, the staging buffer has one cell per sample and channel of a
    frame, the resampled buffer has 960 cells per channel, the packet
    buffer has 4000 bytes, the cursor is 0, and there is a scratch buffer
    of 4096 cells per channel unless the channel count is 1. *)
Theorem constructor_allocates_one_frame inputSampleRate channelCount bitsPerSecond
    serial (h : native) w :
  constructor zero M inputSampleRate channelCount bitsPerSecond serial h
  = Constructed w →
  (50 | inputSampleRate) →
  0 ≤ inputSampleRate →
  0 ≤ channelCount →
  inputSamplesPerChannel w * 50 = inputSampleRate
  ∧ outputSamplePerChannel w = 960
  ∧ capacity w = inputSamplesPerChannel w * channelCount
  ∧ TypedArray.length (mResampledBuffer w) = 960 * channelCount
  ∧ TypedArray.length (mOutputBuffer w) = 4000
  ∧ inputBufferIndex w = 0
  ∧ scratch_length w
    = (if channelCount =? 1 then None
       else Some (Z.to_nat (BUFFER_LENGTH * channelCount))).
Proof.
  intros Hc [k ->] Hrate Hch.
  destruct (constructor_buffers _ _ _ _ _ _ _ _ Hc)
    as (_ & _ & Hin & Hout & Hbuf & Hres & Hpkt).
  destruct (constructor_fields _ _ _ _ _ _ _ _ Hc) as (_ & Hidx & _).
  destruct (constructor_sizes _ _ _ _ _ _ _ _ Hc) as [Hsized _].
  assert (Hk : inputSamplesPerChannel w = k).
  { rewrite Hin. unfold OPUS_FRAME_SIZE.
    replace (k * 50 * 20) with (k * 1000) by lia. by apply Z.div_mul. }
  split; [lia|]. split; [done|].
  split.
  { unfold capacity, WasmFloat32Buffer.length. rewrite Hbuf, length_replicate. nia. }
  split; [unfold TypedArray.length; rewrite Hres, length_replicate; lia|].
  split; [unfold TypedArray.length; by rewrite Hpkt, length_replicate|].
  split; [done|]. exact Hsized.
Qed.

(** X9.  No sequence of [encode] calls, returned or thrown and in
    whatever state, changes the configuration, the handles of the
    container writer, the encoder and the resampler, the frame sizes, the
    capacity of the staging buffer or the length of the scratch
    buffer. *)
Theorem feed_keeps_setup (fuel : nat) w calls c w' :
  feed M fuel w calls = Some (c, w') →
  same_codec_setup w w'.
Proof. intros Hfeed. by destruct (feed_frame M _ _ _ _ _ Hfeed). Qed.

End WorkerProperties.

(** ** Properties of the message handler *)

Section HandlerProperties.
Context {sample native : Type}.
Variable zero : sample.
Variable M : WasmModule sample native.
Implicit Types w : Worker sample native.
Implicit Types s : WorkerScope sample native.
Implicit Types c : command sample.

Lemma posted_buffers_app (m1 m2 : list message) :
  posted_buffers (m1 ++ m2) = posted_buffers m1 ++ posted_buffers m2.
Proof.
  induction m1 as [|m m1 IH]; [done|].
  destruct m; simpl; rewrite ?IH, <- ?app_assoc; done.
Qed.

(** One command other than [init]: what was posted, followed by what is
    pending, grows by what the command appends and changes in no other
    way. *)
Lemma onmessage_segments (fuel : nat) s c r s' :
  is_init c = false →
  onmessage zero M fuel s c = Some (r, s') →
  posted_buffers (posted s') ++ encodedBuffers s'
  = posted_buffers (posted s) ++ encodedBuffers s ++ appended s c.
Proof.
  intros Hc. unfold onmessage, appended.
  destruct c as [rate ch bps serial|buffers emitted| |emitted|]; [done|..];
    destruct (webmOpusWorker s) as [w|].
  - destruct (_ <? _); [intros [= <- <-]; by rewrite app_nil_r|].
    destruct (encode M fuel _ buffers false) as [[r' w']|]; [|done].
    by intros [= <- <-].
  - intros [= <- <-]. by rewrite app_nil_r.
  - intros [= <- <-]. simpl. rewrite posted_buffers_app. simpl.
    by rewrite !app_nil_r.
  - intros [= <- <-]. by rewrite app_nil_r.
  - intros [= <- <-]. simpl. rewrite posted_buffers_app. simpl.
    by rewrite !app_nil_r.
  - intros [= <- <-]. by rewrite app_nil_r.
  - intros [= <- <-]. by rewrite app_nil_r.
  - intros [= <- <-]. by rewrite app_nil_r.
Qed.

Lemma onmessage_without_worker (fuel : nat) s c :
  webmOpusWorker s = None →
  is_init c = false →
  onmessage zero M fuel s c
  = Some (match c with CmdOther => Normal tt | _ => Throw TypeError end, s).
Proof.
  intros Hnone Hc. unfold onmessage. rewrite Hnone. by destruct c.
Qed.

(** X10.  Until [init] arrives the worker does nothing.  Whatever other
    commands the host sends after [readyToInit], each of
    [pushInputData], [getEncodedData] and [done] raises a TypeError and
    any other command is ignored: no message is posted, no module call is
    made, and the worker is not terminated, not even by [done]. *)
Theorem nothing_happens_before_init (fuel : nat) (h : native)
    (commands : list (command sample)) :
  Forall (λ c, is_init c = false) commands →
  deliver zero M fuel (onRuntimeInitialized h) commands
  = Some (onRuntimeInitialized h)
  ∧ Forall (λ c, onmessage zero M fuel (onRuntimeInitialized h) c
                 = Some (match c with CmdOther => Normal tt | _ => Throw TypeError end,
                         onRuntimeInitialized h)) commands.
Proof.
  induction 1 as [|c rest Hc _ [IH1 IH2]]; [done|].
  pose proof (onmessage_without_worker fuel (onRuntimeInitialized h) c eq_refl Hc)
    as Hstep.
  split; [|by constructor].
  cbn [deliver]. change (closed (onRuntimeInitialized h)) with false. cbv iota.
  by rewrite Hstep.
Qed.

(** X11.  [pushInputData] with fewer channel buffers than the worker has
    channels raises a TypeError before [encode] is called: the worker, the
    pending segments and the posted messages stay as they were, whatever
    the buffers hold. *)
Theorem too_few_channel_buffers_are_rejected (fuel : nat) s w
    (channelBuffers : list (list sample)) emitted :
  webmOpusWorker s = Some w →
  Z.of_nat (List.length channelBuffers) < config_channelCount w →
  onmessage zero M fuel s (CmdPushInputData channelBuffers emitted)
  = Some (Throw TypeError, s).
Proof.
  intros Hw Hlt. unfold onmessage. rewrite Hw.
  by destruct (Z.ltb_spec (Z.of_nat (List.length channelBuffers))
                 (config_channelCount w)); [|lia].
Qed.

(** X12.  [getEncodedData] posts the pending segments and empties the
    array without touching the worker or the module, so that a second
    [getEncodedData] right after it posts an empty list, without
    error. *)
Theorem drain_posts_and_clears (fuel : nat) s w :
  closed s = false →
  webmOpusWorker s = Some w →
  deliver zero M fuel s [CmdGetEncodedData; CmdGetEncodedData]
  = Some {| webmOpusWorker := Some w; encodedBuffers := [];
            Module_heap := Module_heap s;
            posted := posted s ++ [encodedData (encodedBuffers s); encodedData []];
            closed := false |}.
Proof.
  intros Hopen Hw. simpl. rewrite Hopen, Hw. simpl.
  by rewrite <- app_assoc.
Qed.

(** X13.  [done] closes the worker, which logs the six releases, then
    posts the pending segments as [lastEncodedData], empties the array
    and terminates: none of the commands that follow is handled. *)
Theorem done_closes_and_stops (fuel : nat) s w emitted (rest : list (command sample)) :
  closed s = false →
  webmOpusWorker s = Some w →
  ∃ s' w',
    deliver zero M fuel s (CmdDone emitted :: rest) = Some s'
    ∧ closed s' = true
    ∧ posted s' = posted s ++ [lastEncodedData (encodedBuffers s ++ emitted)]
    ∧ encodedBuffers s' = []
    ∧ webmOpusWorker s' = Some w'
    ∧ trace w'
      = trace w ++ [Release ContainerWriter; Release InputBuffer;
                    Release ResampledBuffer; Release OutputBuffer;
                    Release Encoder; Release Resampler]
    ∧ inputBufferIndex w' = inputBufferIndex w.
Proof.
  intros Hopen Hw. simpl. rewrite Hopen, Hw.
  eexists _, _. split; [by destruct rest|]. done.
Qed.

(** X14.  No segment is lost, repeated or reordered by the handler.  Over
    any run of commands without [init], the segments posted so far
    followed by the pending ones are what they were before the run
    followed by the segments appended during the run. *)
Theorem segments_posted_once_in_order (fuel : nat) s (commands : list (command sample)) s' :
  Forall (λ c, is_init c = false) commands →
  deliver zero M fuel s commands = Some s' →
  posted_buffers (posted s') ++ encodedBuffers s'
  = posted_buffers (posted s) ++ encodedBuffers s
    ++ appended_all zero M fuel s commands.
Proof.
  intros Hall. revert s.
  induction Hall as [|c rest Hc _ IH]; intros s; simpl.
  - intros [= <-]. by rewrite app_nil_r.
  - destruct (closed s); [intros [= <-]; by rewrite app_nil_r|].
    destruct (onmessage zero M fuel s c) as [[r s1]|] eqn:Hstep; [|done].
    intros Hrest. rewrite (IH _ Hrest), app_assoc.
    rewrite (onmessage_segments _ _ _ _ _ Hc Hstep), <- !app_assoc. done.
Qed.




(** X16.  The two initialisers return exactly when the library reports
    success, throw their own error otherwise, and free the cell of the
    status either way: what they log uses live resources only and leaves
    live the codec they created when they return, nothing when they
    throw. *)
Theorem initialisers_free_the_status_cell outRate inputRate chCount bitRate
    (h : native) (t : list (event sample)) :
  let opus := OpusInitCodec M outRate chCount bitRate h t in
  let speex := SpeexInitResampler M inputRate outRate chCount h t in
  let opusStatus :=
    snd (fst (_opus_encoder_create M outRate chCount OPUS_APPLICATION h)) in
  let speexStatus :=
    snd (fst (_speex_resampler_init M chCount inputRate outRate
                SPEEX_RESAMPLE_QUALITY h)) in
  (∃ l, snd opus = t ++ l
        ∧ sound l = true
        ∧ (opusStatus = OPUS_OK
           → thrown (fst (fst opus)) = None ∧ live l = [Encoder])
        ∧ (opusStatus ≠ OPUS_OK
           → thrown (fst (fst opus))
             = Some (Error "Opus encodor initialization failed.")
             ∧ live l = []))
  ∧ (∃ l, snd speex = t ++ l
          ∧ sound l = true
          ∧ (speexStatus = RESAMPLER_ERR_SUCCESS
             → thrown (fst (fst speex)) = None ∧ live l = [Resampler])
          ∧ (speexStatus ≠ RESAMPLER_ERR_SUCCESS
             → thrown (fst (fst speex))
               = Some (Error "Initializing resampler failed.")
               ∧ live l = [])).
Proof.
  intros opus speex opusStatus speexStatus. split.
  - destruct opus as [[r1 h1] t1] eqn:Hopus. unfold opus in Hopus.
    apply OpusInitCodec_trace in Hopus. fold opusStatus in Hopus. simpl.
    destruct r1 as [enc|e].
    + destruct Hopus as (Hok & control & Hcontrol & ->).
      eexists. split; [reflexivity|].
      destruct Hcontrol as [-> | ->]; repeat split; try done.
    + destruct Hopus as (Herr & -> & ->).
      eexists. split; [reflexivity|]. repeat split; try done.
  - destruct speex as [[r2 h2] t2] eqn:Hspeex. unfold speex in Hspeex.
    apply SpeexInitResampler_trace in Hspeex. fold speexStatus in Hspeex. simpl.
    destruct r2 as [res|e].
    + destruct Hspeex as (Hok & ->).
      eexists. split; [reflexivity|]. repeat split; try done.
    + destruct Hspeex as (Herr & -> & ->).
      eexists. split; [reflexivity|]. repeat split; try done.
Qed.

End HandlerProperties.

(** ** The further properties on concrete runs *)


Lemma failed_frame_is_retried_witness :
  inputBufferIndex stuckWorker = capacity stuckWorker
  ∧ list.last (frames (trace stuckWorker)) = Some [1; 2; 3; 4].
Proof.
  destruct (failed_frame_is_retried (testModule 0 0 5 10) 4 1 resampleFailingWorker
              [[1; 2; 3; 4]] false "Resampling error." stuckWorker [[5]] false [5]
              (fst retryResult) (snd retryResult))
    as (Hfull & Hlast & _).
  - run.
  - vm_compute. reflexivity.
  - reflexivity.
  - discriminate.
  - vm_compute. reflexivity.
  - split; [exact Hfull|]. rewrite Hlast. vm_compute. reflexivity.
Defined.

Lemma zero_capacity_never_returns_witness :
  encode okModule 7 zeroWorker [[1]] false = None
  ∨ ∃ e w', encode okModule 7 zeroWorker [[1]] false = Some (Throw e, w').
Proof.
  apply (zero_capacity_never_returns okModule 7 zeroWorker [[1]] false [1]).
  - run.
  - run.
  - reflexivity.
  - discriminate.
Defined.

(** With a module whose calls all succeed, the call on the worker of
    capacity 0 uses up any fuel. *)
Example zero_capacity_spins : encode okModule 50 zeroWorker [[1]] false = None.
Proof. vm_compute. reflexivity. Qed.

Lemma frames_independent_of_chunking_witness :
  staged fedWorker = staged fedAtOnceWorker
  ∧ inputBufferIndex fedWorker = inputBufferIndex fedAtOnceWorker.
Proof.
  destruct (frames_independent_of_chunking okModule 3 9 monoWorker threeCalls
              nineAtOnce fedWorker fedAtOnceWorker)
    as (s1 & s2 & _ & _ & _ & Hstaged & Hidx).
  - run.
  - unfold threeCalls. repeat constructor.
  - unfold nineAtOnce. repeat constructor.
  - reflexivity.
  - vm_compute. reflexivity.
  - vm_compute. reflexivity.
  - split; [exact Hstaged|exact Hidx].
Defined.

Lemma throw_keeps_failing_frame_witness :
  inputBufferIndex (snd throwResult) = capacity resampleFailingWorker
  ∧ TypedArray.length (mInputBuffer (snd throwResult)) = capacity resampleFailingWorker.
Proof.
  destruct (throw_keeps_failing_frame (testModule 0 0 5 10) 5 resampleFailingWorker
              [[1; 2; 3; 4; 5]] false [1; 2; 3; 4; 5] "Resampling error."
              (snd throwResult))
    as (suffix & F & cs & tail & _ & _ & Hidx & Hlen & _).
  - run.
  - reflexivity.
  - vm_compute. reflexivity.
  - split; [exact Hidx|exact Hlen].
Defined.



Lemma constructor_allocates_one_frame_witness :
  inputSamplesPerChannel monoWorker * 50 = 200 ∧ capacity monoWorker = 4.
Proof.
  destruct (constructor_allocates_one_frame 0 okModule 200 1 None 7 O monoWorker)
    as (Hrate & _ & Hcap & _).
  - run.
  - exists 4. reflexivity.
  - lia.
  - lia.
  - split; [exact Hrate|]. rewrite Hcap. vm_compute. reflexivity.
Defined.

Lemma feed_keeps_setup_witness : same_codec_setup monoWorker fedWorker.
Proof.
  apply (feed_keeps_setup okModule 3 monoWorker threeCalls (Normal tt) fedWorker).
  vm_compute. reflexivity.
Defined.

Lemma nothing_happens_before_init_witness :
  deliver 0 okModule 5 (onRuntimeInitialized O)
    [CmdPushInputData [[1; 2]] []; CmdGetEncodedData; CmdDone []; CmdOther]
  = Some (onRuntimeInitialized O).
Proof.
  apply (nothing_happens_before_init 0 okModule 5 O
           [CmdPushInputData [[1; 2]] []; CmdGetEncodedData; CmdDone []; CmdOther]).
  repeat constructor.
Defined.

Lemma too_few_channel_buffers_are_rejected_witness :
  onmessage 0 okModule 5 readyScope (CmdPushInputData [] [[9]])
  = Some (Throw TypeError, readyScope).
Proof.
  apply (too_few_channel_buffers_are_rejected 0 okModule 5 readyScope monoWorker [] [[9]]).
  - vm_compute. reflexivity.
  - run.
Defined.

Lemma drain_posts_and_clears_witness :
  posted <$> deliver 0 okModule 5 afterSession [CmdGetEncodedData; CmdGetEncodedData]
  = Some (posted afterSession ++ [encodedData (encodedBuffers afterSession); encodedData []]).
Proof.
  rewrite (drain_posts_and_clears 0 okModule 5 afterSession
             (default monoWorker (webmOpusWorker afterSession))).
  - reflexivity.
  - vm_compute. reflexivity.
  - vm_compute. reflexivity.
Defined.

Lemma done_closes_and_stops_witness :
  ∃ s', deliver 0 okModule 5 readyScope [CmdDone [[1; 2]]; CmdGetEncodedData] = Some s'
        ∧ closed s' = true
        ∧ posted s' = [readyToInit; lastEncodedData [[1; 2]]].
Proof.
  destruct (done_closes_and_stops 0 okModule 5 readyScope monoWorker [[1; 2]]
              [CmdGetEncodedData])
    as (s' & w' & Hrun & Hclosed & Hposted & _).
  - vm_compute. reflexivity.
  - vm_compute. reflexivity.
  - exists s'. split; [exact Hrun|]. split; [exact Hclosed|].
    rewrite Hposted. vm_compute. reflexivity.
Defined.

Lemma segments_posted_once_in_order_witness :
  posted_buffers (posted afterSession) ++ encodedBuffers afterSession = [[9; 9]].
Proof.
  rewrite (segments_posted_once_in_order 0 okModule 5 readyScope sessionCommands
             afterSession).
  - vm_compute. reflexivity.
  - unfold sessionCommands. repeat constructor.
  - vm_compute. reflexivity.
Defined.


(** The segments of the session and of [done] reach the host once each:
    one appended during the push and posted by [getEncodedData], one
    appended by [done]. *)
Example session_posts :
  posted afterDone
  = [readyToInit; encodedData [[9; 9]]; lastEncodedData [[7]]].
Proof. vm_compute. reflexivity. Qed.
